(** * mwa_hyperdrive GPU sky-model code: Jones algebra and device-memory context

    A shallow embedding of

    - [src/gpu/common.cuh]: the complex and Jones-matrix operators and
      [apply_beam];
    - the memory translation unit ([init_model], [copy_vis], [clear_vis],
      [destroy]);
    - the declarations of [cuda/src_cuda/model.h].

    Floating-point values are IEEE 754 values without NaN payloads
    ([spec_float]); the operators of [common.cuh] are written once over a
    scalar interface, instantiated at binary32, binary64 and (for exact
    reasoning about the matrix algebra) at the integers. *)

From Stdlib Require Import ZArith Bool Lia.
From Stdlib Require Import Floats.SpecFloat.
From stdpp Require Import gmap list.

Open Scope Z_scope.

(** ** Scalars *)

(** The arithmetic the operators of [common.cuh] use on [FLOAT]. *)
Class Scalar (F : Type) := {
  fadd : F -> F -> F;
  fsub : F -> F -> F;
  fmul : F -> F -> F;
  fneg : F -> F;
}.

Declare Scope float_scope.
Delimit Scope float_scope with F.
Infix "+" := fadd : float_scope.
Infix "-" := fsub : float_scope.
Infix "*" := fmul : float_scope.
Notation "- a" := (fneg a) : float_scope.

(** C [float]: binary32. *)
Record f32 := F32 { f32_val : spec_float }.
(** C [double]: binary64. *)
Record f64 := F64 { f64_val : spec_float }.

Definition f32_lift2 (op : Z -> Z -> spec_float -> spec_float -> spec_float)
    (a b : f32) : f32 :=
  F32 (op 24 128 (f32_val a) (f32_val b)).

Definition f64_lift2 (op : Z -> Z -> spec_float -> spec_float -> spec_float)
    (a b : f64) : f64 :=
  F64 (op 53 1024 (f64_val a) (f64_val b)).

(** The binary32 and binary64 instances round every operation on its own.
    A device compiler may contract a product and the sum that uses it into
    one fused multiply-add, rounded once ([nvcc] and [hipcc] do by
    default), so at these two instances the operators that multiply
    describe a build without contraction only. Nothing below rests on
    that: the theorems about products are stated over any [Scalar] or over
    the integers, and those at binary32 and binary64 are about the
    narrowing accumulation, which has no product. *)
#[export] Instance f32_scalar : Scalar f32 := {
  fadd := f32_lift2 SFadd;
  fsub := f32_lift2 SFsub;
  fmul := f32_lift2 SFmul;
  fneg a := F32 (SFopp (f32_val a));
}.

#[export] Instance f64_scalar : Scalar f64 := {
  fadd := f64_lift2 SFadd;
  fsub := f64_lift2 SFsub;
  fmul := f64_lift2 SFmul;
  fneg a := F64 (SFopp (f64_val a));
}.

(** Exact arithmetic, to reason about the algebra free of rounding. *)
#[export] Instance Z_scalar : Scalar Z := {
  fadd := Z.add;
  fsub := Z.sub;
  fmul := Z.mul;
  fneg := Z.opp;
}.

(** The C conversion [(float)d] of a [double]: round to nearest, ties to
    even, at binary32 precision; zeros, infinities and NaN keep their
    class. *)
Definition float_of_double (d : f64) : f32 :=
  F32 match f64_val d with
      | S754_finite s m e => binary_round 24 128 s m e
      | v => v
      end.

(** The C conversion of a [float] to [double] (always exact). *)
Definition double_of_float (f : f32) : f64 :=
  F64 match f32_val f with
      | S754_finite s m e => binary_round 53 1024 s m e
      | v => v
      end.

(** ** Complex numbers and Jones matrices *)

(** [COMPLEX] is [cuDoubleComplex] (or [cuFloatComplex] under [SINGLE]): a
    pair of fields [x] (real part) and [y] (imaginary part). *)
Module COMPLEX.
Record t (F : Type) := MAKE { x : F; y : F }.
Arguments MAKE {F} _ _.
Arguments x {F} _.
Arguments y {F} _.
End COMPLEX.
Abbreviation COMPLEX := COMPLEX.t.
Abbreviation MAKE_COMPLEX := COMPLEX.MAKE.

(** [JONES] ([JonesF32], [JonesF64]) is declared in [types.h]; its eight
    fields are the ones the operators of [common.cuh] name, in the order
    of their designated initialisers. *)
Record JONES (F : Type) := Build_JONES {
  j00_re : F; j00_im : F;
  j01_re : F; j01_im : F;
  j10_re : F; j10_im : F;
  j11_re : F; j11_im : F;
}.
Arguments Build_JONES {F}.
Arguments j00_re {F}.
Arguments j00_im {F}.
Arguments j01_re {F}.
Arguments j01_im {F}.
Arguments j10_re {F}.
Arguments j10_im {F}.
Arguments j11_re {F}.
Arguments j11_im {F}.

Abbreviation JonesF32 := (JONES f32).
Abbreviation JonesF64 := (JONES f64).

Record JONES_C (F : Type) := Build_JONES_C {
  j00 : COMPLEX F;
  j01 : COMPLEX F;
  j10 : COMPLEX F;
  j11 : COMPLEX F;
}.
Arguments Build_JONES_C {F}.
Arguments j00 {F}.
Arguments j01 {F}.
Arguments j10 {F}.
Arguments j11 {F}.

(** The pointer cast [(JONES_C * )j]: the same eight scalars read as four
    complex numbers. *)
Definition JONES_C_of_JONES {F} (j : JONES F) : JONES_C F :=
  {| j00 := MAKE_COMPLEX (j00_re j) (j00_im j);
     j01 := MAKE_COMPLEX (j01_re j) (j01_im j);
     j10 := MAKE_COMPLEX (j10_re j) (j10_im j);
     j11 := MAKE_COMPLEX (j11_re j) (j11_im j) |}.

Definition JONES_of_JONES_C {F} (c : JONES_C F) : JONES F :=
  {| j00_re := COMPLEX.x (j00 c); j00_im := COMPLEX.y (j00 c);
     j01_re := COMPLEX.x (j01 c); j01_im := COMPLEX.y (j01 c);
     j10_re := COMPLEX.x (j10 c); j10_im := COMPLEX.y (j10 c);
     j11_re := COMPLEX.x (j11 c); j11_im := COMPLEX.y (j11 c) |}.

(** Pointers and references are locations of a store. *)
Abbreviation loc := positive.

Section Operators.
Context {F : Type} `{Scalar F}.
Local Open Scope float_scope.

(** [COMPLEX operator+(const COMPLEX a, const COMPLEX b)] *)
Definition complex_add (a b : COMPLEX F) : COMPLEX F :=
  MAKE_COMPLEX (COMPLEX.x a + COMPLEX.x b) (COMPLEX.y a + COMPLEX.y b).

(** [COMPLEX operator*(const COMPLEX a, const COMPLEX b)] *)
Definition complex_mul (a b : COMPLEX F) : COMPLEX F :=
  MAKE_COMPLEX (COMPLEX.x a * COMPLEX.x b - COMPLEX.y a * COMPLEX.y b)
               (COMPLEX.x a * COMPLEX.y b + COMPLEX.y a * COMPLEX.x b).

(** [void operator*=(COMPLEX &a, const COMPLEX b)]: [a] is a reference
    into the store, [b] a copy; the right-hand side is evaluated on the
    old [a], then assigned. *)
Definition complex_mul_assign (a : loc) (b : COMPLEX F)
    (m : gmap loc (COMPLEX F)) : option (gmap loc (COMPLEX F)) :=
  match m !! a with
  | Some av =>
      let rhs :=
        MAKE_COMPLEX (COMPLEX.x av * COMPLEX.x b - COMPLEX.y av * COMPLEX.y b)
                     (COMPLEX.x av * COMPLEX.y b + COMPLEX.y av * COMPLEX.x b) in
      Some (<[a := rhs]> m)
  | None => None
  end.

(** [COMPLEX operator*(const COMPLEX a, const FLOAT b)] *)
Definition complex_scale (a : COMPLEX F) (b : F) : COMPLEX F :=
  MAKE_COMPLEX (COMPLEX.x a * b) (COMPLEX.y a * b).

(** [CUCONJ]: [cuConj] of [cuComplex.h]. *)
Definition CUCONJ (a : COMPLEX F) : COMPLEX F :=
  MAKE_COMPLEX (COMPLEX.x a) (- COMPLEX.y a).

(** [JONES operator*(const JONES a, const FLOAT b)] *)
Definition jones_scale (a : JONES F) (b : F) : JONES F :=
  {| j00_re := j00_re a * b; j00_im := j00_im a * b;
     j01_re := j01_re a * b; j01_im := j01_im a * b;
     j10_re := j10_re a * b; j10_im := j10_im a * b;
     j11_re := j11_re a * b; j11_im := j11_im a * b |}.

(** [JONES operator*(const JONES a, const COMPLEX b)] *)
Definition jones_mul_complex (a : JONES F) (b : COMPLEX F) : JONES F :=
  {| j00_re := j00_re a * COMPLEX.x b - j00_im a * COMPLEX.y b;
     j00_im := j00_re a * COMPLEX.y b + j00_im a * COMPLEX.x b;
     j01_re := j01_re a * COMPLEX.x b - j01_im a * COMPLEX.y b;
     j01_im := j01_re a * COMPLEX.y b + j01_im a * COMPLEX.x b;
     j10_re := j10_re a * COMPLEX.x b - j10_im a * COMPLEX.y b;
     j10_im := j10_re a * COMPLEX.y b + j10_im a * COMPLEX.x b;
     j11_re := j11_re a * COMPLEX.x b - j11_im a * COMPLEX.y b;
     j11_im := j11_re a * COMPLEX.y b + j11_im a * COMPLEX.x b |}.
End Operators.

Declare Scope complex_scope.
Delimit Scope complex_scope with C.
Infix "+" := complex_add : complex_scope.
Infix "*" := complex_mul : complex_scope.


(** ** In-place operators and [apply_beam]

    Arguments passed by reference or by pointer are locations of a store
    of Jones matrices, so that aliased arguments are covered; arguments
    passed by value are values. *)

Definition set_j00_re {F} (v : F) (a : JONES F) : JONES F :=
  Build_JONES v (j00_im a) (j01_re a) (j01_im a) (j10_re a) (j10_im a) (j11_re a) (j11_im a).
Definition set_j00_im {F} (v : F) (a : JONES F) : JONES F :=
  Build_JONES (j00_re a) v (j01_re a) (j01_im a) (j10_re a) (j10_im a) (j11_re a) (j11_im a).
Definition set_j01_re {F} (v : F) (a : JONES F) : JONES F :=
  Build_JONES (j00_re a) (j00_im a) v (j01_im a) (j10_re a) (j10_im a) (j11_re a) (j11_im a).
Definition set_j01_im {F} (v : F) (a : JONES F) : JONES F :=
  Build_JONES (j00_re a) (j00_im a) (j01_re a) v (j10_re a) (j10_im a) (j11_re a) (j11_im a).
Definition set_j10_re {F} (v : F) (a : JONES F) : JONES F :=
  Build_JONES (j00_re a) (j00_im a) (j01_re a) (j01_im a) v (j10_im a) (j11_re a) (j11_im a).
Definition set_j10_im {F} (v : F) (a : JONES F) : JONES F :=
  Build_JONES (j00_re a) (j00_im a) (j01_re a) (j01_im a) (j10_re a) v (j11_re a) (j11_im a).
Definition set_j11_re {F} (v : F) (a : JONES F) : JONES F :=
  Build_JONES (j00_re a) (j00_im a) (j01_re a) (j01_im a) (j10_re a) (j10_im a) v (j11_im a).
Definition set_j11_im {F} (v : F) (a : JONES F) : JONES F :=
  Build_JONES (j00_re a) (j00_im a) (j01_re a) (j01_im a) (j10_re a) (j10_im a) (j11_re a) v.

(** Assignment to a complex entry through the [JONES_C] view of a [JONES]. *)
Definition set_j00 {F} (v : COMPLEX F) (a : JONES F) : JONES F :=
  set_j00_im (COMPLEX.y v) (set_j00_re (COMPLEX.x v) a).
Definition set_j01 {F} (v : COMPLEX F) (a : JONES F) : JONES F :=
  set_j01_im (COMPLEX.y v) (set_j01_re (COMPLEX.x v) a).
Definition set_j10 {F} (v : COMPLEX F) (a : JONES F) : JONES F :=
  set_j10_im (COMPLEX.y v) (set_j10_re (COMPLEX.x v) a).
Definition set_j11 {F} (v : COMPLEX F) (a : JONES F) : JONES F :=
  set_j11_im (COMPLEX.y v) (set_j11_re (COMPLEX.x v) a).

(** [p->field] as an lvalue: read the object at [p], rewrite it with [f].
    Dereferencing a location outside the store is undefined ([None]). *)
Definition modify {V} (p : loc) (f : V -> V) (m : gmap loc V) : option (gmap loc V) :=
  match m !! p with
  | Some v => Some (<[p := f v]> m)
  | None => None
  end.

Section InPlace.
Context {F : Type} `{Scalar F}.
Local Open Scope float_scope.

(** [void operator+=(COMPLEX &a, const COMPLEX b)] *)
Definition complex_add_assign (a : loc) (b : COMPLEX F)
    (m : gmap loc (COMPLEX F)) : option (gmap loc (COMPLEX F)) :=
  m ← modify a (fun c => MAKE_COMPLEX (COMPLEX.x c + COMPLEX.x b) (COMPLEX.y c)) m;
  modify a (fun c => MAKE_COMPLEX (COMPLEX.x c) (COMPLEX.y c + COMPLEX.y b)) m.

(** [void operator+=(JONES &a, const JONES b)] *)
Definition jones_add_assign (a : loc) (b : JONES F)
    (m : gmap loc (JONES F)) : option (gmap loc (JONES F)) :=
  m ← modify a (fun j => set_j00_re (j00_re j + j00_re b) j) m;
  m ← modify a (fun j => set_j00_im (j00_im j + j00_im b) j) m;
  m ← modify a (fun j => set_j01_re (j01_re j + j01_re b) j) m;
  m ← modify a (fun j => set_j01_im (j01_im j + j01_im b) j) m;
  m ← modify a (fun j => set_j10_re (j10_re j + j10_re b) j) m;
  m ← modify a (fun j => set_j10_im (j10_im j + j10_im b) j) m;
  m ← modify a (fun j => set_j11_re (j11_re j + j11_re b) j) m;
  modify a (fun j => set_j11_im (j11_im j + j11_im b) j) m.

(** [void apply_beam(const JONES *j1, JONES *j, const JONES *j2)] *)
Definition apply_beam (j1 j j2 : loc) (m : gmap loc (JONES F)) :
    option (gmap loc (JONES F)) :=
  (* Cast the input Jones matrices to complex forms for convenience. *)
  j1c ← JONES_C_of_JONES <$> m !! j1;
  jc ← JONES_C_of_JONES <$> m !! j;
  (* J1 . J *)
  let temp :=
    {| j00 := (j00 j1c * j00 jc + j01 j1c * j10 jc)%C;
       j01 := (j00 j1c * j01 jc + j01 j1c * j11 jc)%C;
       j10 := (j10 j1c * j00 jc + j11 j1c * j10 jc)%C;
       j11 := (j10 j1c * j01 jc + j11 j1c * j11 jc)%C |} in
  (* J2^H *)
  j2c ← JONES_C_of_JONES <$> m !! j2;
  let j2h :=
    {| j00 := CUCONJ (j00 j2c);
       j01 := CUCONJ (j10 j2c);
       j10 := CUCONJ (j01 j2c);
       j11 := CUCONJ (j11 j2c) |} in
  (* (J1 . J) . J2^H *)
  m ← modify j (set_j00 (j00 temp * j00 j2h + j01 temp * j10 j2h)%C) m;
  m ← modify j (set_j01 (j00 temp * j01 j2h + j01 temp * j11 j2h)%C) m;
  m ← modify j (set_j10 (j10 temp * j00 j2h + j11 temp * j10 j2h)%C) m;
  modify j (set_j11 (j10 temp * j01 j2h + j11 temp * j11 j2h)%C) m.
End InPlace.

(** [void operator+=(JonesF32 &a, const JonesF64 b)] *)
Definition jones_add_assign_F32_F64 (a : loc) (b : JonesF64)
    (m : gmap loc JonesF32) : option (gmap loc JonesF32) :=
  m ← modify a (fun j => set_j00_re (j00_re j + float_of_double (j00_re b))%F j) m;
  m ← modify a (fun j => set_j00_im (j00_im j + float_of_double (j00_im b))%F j) m;
  m ← modify a (fun j => set_j01_re (j01_re j + float_of_double (j01_re b))%F j) m;
  m ← modify a (fun j => set_j01_im (j01_im j + float_of_double (j01_im b))%F j) m;
  m ← modify a (fun j => set_j10_re (j10_re j + float_of_double (j10_re b))%F j) m;
  m ← modify a (fun j => set_j10_im (j10_im j + float_of_double (j10_im b))%F j) m;
  m ← modify a (fun j => set_j11_re (j11_re j + float_of_double (j11_re b))%F j) m;
  modify a (fun j => set_j11_im (j11_im j + float_of_double (j11_im b))%F j) m.

(** ** The reference 2x2 complex matrix algebra

    The textbook definitions the beam sandwich is compared with: a matrix
    is a function of a row and a column index, the product sums over the
    inner index, and the conjugate transpose swaps the indices and
    conjugates. *)

Inductive index2 := I0 | I1.

Definition matrix2 (F : Type) := index2 -> index2 -> COMPLEX F.

Definition matrix_mul {F} `{Scalar F} (a b : matrix2 F) : matrix2 F :=
  fun i k => (a i I0 * b I0 k + a i I1 * b I1 k)%C.

Definition matrix_conj_transpose {F} `{Scalar F} (a : matrix2 F) : matrix2 F :=
  fun i k => CUCONJ (a k i).

Definition matrix_of_JONES {F} (j : JONES F) : matrix2 F :=
  fun i k =>
    match i, k with
    | I0, I0 => MAKE_COMPLEX (j00_re j) (j00_im j)
    | I0, I1 => MAKE_COMPLEX (j01_re j) (j01_im j)
    | I1, I0 => MAKE_COMPLEX (j10_re j) (j10_im j)
    | I1, I1 => MAKE_COMPLEX (j11_re j) (j11_im j)
    end.

Definition JONES_of_matrix {F} (a : matrix2 F) : JONES F :=
  {| j00_re := COMPLEX.x (a I0 I0); j00_im := COMPLEX.y (a I0 I0);
     j01_re := COMPLEX.x (a I0 I1); j01_im := COMPLEX.y (a I0 I1);
     j10_re := COMPLEX.x (a I1 I0); j10_im := COMPLEX.y (a I1 I0);
     j11_re := COMPLEX.x (a I1 I1); j11_im := COMPLEX.y (a I1 I1) |}.

(** ** Machine integers *)

Definition INT_MIN : Z := - 2 ^ 31.
Definition INT_MAX : Z := 2 ^ 31 - 1.
Definition SIZE_MODULUS : Z := 2 ^ 64.

(** Product of two [int]s; signed overflow is undefined behaviour. *)
Definition int_mul (a b : Z) : option Z :=
  if (INT_MIN <=? a * b) && (a * b <=? INT_MAX) then Some (a * b) else None.

(** Conversion of an [int] to [size_t], and the [size_t] product. *)
Definition size_t_of_int (n : Z) : Z := n mod SIZE_MODULUS.
Definition size_t_mul (a b : Z) : Z := (a * b) mod SIZE_MODULUS.

(** ** Memory, the CUDA runtime and the outcome of a run *)

(** A byte of memory: not yet written, or a value in 0..255. *)
Inductive memval := Undef | Byte (b : Z).

Inductive ptr := NULL | Ptr (b : loc).

Inductive cudaError_t :=
  | cudaSuccess
  | cudaErrorInvalidValue
  | cudaErrorMemoryAllocation
  | cudaErrorLaunchFailure.

Inductive cudaMemcpyKind := cudaMemcpyHostToDevice | cudaMemcpyDeviceToHost.

#[export] Instance memval_eq_dec : EqDecision memval.
Proof. solve_decision. Defined.
#[export] Instance ptr_eq_dec : EqDecision ptr.
Proof. solve_decision. Defined.
#[export] Instance cudaError_t_eq_dec : EqDecision cudaError_t.
Proof. solve_decision. Defined.

(** The device-memory context of [memory.h]. [sbf_c] and [sbf_dx] are
    [FLOAT]s. *)
Record Addresses := Build_Addresses {
  num_freqs : Z;
  num_vis : Z;
  num_tiles : Z;
  sbf_l : Z;
  sbf_n : Z;
  sbf_c : spec_float;
  sbf_dx : spec_float;
  d_uvws : ptr;
  d_freqs : ptr;
  d_shapelet_basis_values : ptr;
  d_fee_coeffs : ptr;
  num_fee_beam_coeffs : Z;
  num_unique_fee_tiles : Z;
  num_unique_fee_freqs : Z;
  d_beam_jones_map : ptr;
  d_beam_norm_jones : ptr;
  d_vis : ptr;
  host_vis : ptr;
}.

(** The state a run acts on: host buffers and device allocations (arrays
    of bytes, by base address), the [Addresses] objects the caller keeps
    and passes by pointer, the results the CUDA runtime is going to give
    to the coming calls (a call with no entry left succeeds), and the
    errors [cudaSoftCheck] has reported. *)
Record world := World {
  host : gmap loc (list memval);
  device : gmap loc (list memval);
  contexts : gmap loc Addresses;
  pending : list cudaError_t;
  reported : list cudaError_t;
}.

Definition set_host (h : gmap loc (list memval)) (w : world) : world :=
  World h (device w) (contexts w) (pending w) (reported w).
Definition set_device (d : gmap loc (list memval)) (w : world) : world :=
  World (host w) d (contexts w) (pending w) (reported w).
Definition set_contexts (c : gmap loc Addresses) (w : world) : world :=
  World (host w) (device w) c (pending w) (reported w).
Definition set_pending (p : list cudaError_t) (w : world) : world :=
  World (host w) (device w) (contexts w) p (reported w).
Definition set_reported (r : list cudaError_t) (w : world) : world :=
  World (host w) (device w) (contexts w) (pending w) r.

(** How a call ends: it returns, the process is terminated by a check, or
    the behaviour is undefined. *)
Inductive outcome (A : Type) :=
  | Returns (a : A) (w : world)
  | Exits (e : cudaError_t) (w : world)
  | Undefined.
Arguments Returns {A}.
Arguments Exits {A}.
Arguments Undefined {A}.

Definition run (A : Type) := world -> outcome A.

Definition ret {A} (a : A) : run A := fun w => Returns a w.

Definition bind {A B} (c : run A) (k : A -> run B) : run B :=
  fun w =>
    match c w with
    | Returns a w' => k a w'
    | Exits e w' => Exits e w'
    | Undefined => Undefined
    end.

Definition undefined {A} : run A := fun _ => Undefined.

Definition defined {A} (o : option A) : run A :=
  match o with
  | Some a => ret a
  | None => undefined
  end.

Declare Scope run_scope.
Delimit Scope run_scope with run.
Notation "x <- c ;; k" := (bind c (fun x => k))
  (at level 100, c at next level, right associativity) : run_scope.
Notation "c ;; k" := (bind c (fun _ => k))
  (at level 100, right associativity) : run_scope.

(** The world in which a run ended, if it ended in one. *)
Definition final_world {A} (o : outcome A) : option world :=
  match o with
  | Returns _ w => Some w
  | Exits _ w => Some w
  | Undefined => None
  end.

(** The build: [SINGLE] selects single-precision [FLOAT]s;
    [cudaSoftCheck] is a macro of a header that is not part of these
    sources, and [soft_check_exits] says whether it terminates the process
    after reporting an error or carries on. *)
Class Build := {
  SINGLE : bool;
  soft_check_exits : bool;
}.

Section Runtime.
Context `{Build}.
Local Open Scope run_scope.

Definition sizeof_FLOAT : Z := if SINGLE then 4 else 8.
(** [UVW] has the three [FLOAT] fields [u], [v], [w]. *)
Definition sizeof_UVW : Z := 3 * sizeof_FLOAT.
(** [JonesF32] has eight [float] fields. *)
Definition sizeof_JonesF32 : Z := 32.

(** Every runtime call first takes the result the runtime has in store for
    it. *)
Definition next_result : run cudaError_t :=
  fun w => Returns (hd cudaSuccess (pending w)) (set_pending (tl (pending w)) w).

(** [cudaMalloc(&p, size)]: on success [p] is a fresh allocation of [size]
    unwritten bytes; on failure [p] keeps its value. Returns the error code
    and the value of [p]. *)
Definition cudaMalloc (p : ptr) (size : Z) : run (cudaError_t * ptr) :=
  e <- next_result ;;
  if decide (e = cudaSuccess) then
    fun w =>
      let b := fresh (dom (device w)) in
      Returns (cudaSuccess, Ptr b)
              (set_device (<[b := replicate (Z.to_nat size) Undef]> (device w)) w)
  else ret (e, p).

Definition block_of (p : ptr) (mem : gmap loc (list memval)) : option (list memval) :=
  match p with
  | NULL => None
  | Ptr b => mem !! b
  end.

(** [count] leading bytes of [old] replaced by those of [src]. *)
Definition overwrite (count : Z) (src old : list memval) : list memval :=
  take (Z.to_nat count) src ++ drop (Z.to_nat count) old.

Definition fits (count : Z) (block : option (list memval)) : bool :=
  match block with
  | Some l => count <=? Z.of_nat (length l)
  | None => false
  end.

(** [cudaMemcpy(dst, src, count, kind)]. The runtime rejects a device range
    that is not inside a live allocation; a host range outside a host
    buffer is undefined behaviour; a failed copy writes nothing. *)
Definition cudaMemcpy (dst src : ptr) (count : Z) (kind : cudaMemcpyKind) :
    run cudaError_t :=
  e <- next_result ;;
  if decide (e = cudaSuccess) then
    if count =? 0 then ret cudaSuccess
    else fun w =>
      match kind with
      | cudaMemcpyHostToDevice =>
          if fits count (block_of dst (device w)) then
            if fits count (block_of src (host w)) then
              match dst, block_of dst (device w), block_of src (host w) with
              | Ptr b, Some old, Some from =>
                  Returns cudaSuccess
                    (set_device (<[b := overwrite count from old]> (device w)) w)
              | _, _, _ => Undefined
              end
            else Undefined
          else Returns cudaErrorInvalidValue w
      | cudaMemcpyDeviceToHost =>
          if fits count (block_of src (device w)) then
            if fits count (block_of dst (host w)) then
              match dst, block_of dst (host w), block_of src (device w) with
              | Ptr b, Some old, Some from =>
                  Returns cudaSuccess
                    (set_host (<[b := overwrite count from old]> (host w)) w)
              | _, _, _ => Undefined
              end
            else Undefined
          else Returns cudaErrorInvalidValue w
      end
  else ret e.

(** [cudaMemset(devPtr, value, count)]: each of the [count] bytes becomes
    [(unsigned char)value]. *)
Definition cudaMemset (devPtr : ptr) (value : Z) (count : Z) : run cudaError_t :=
  e <- next_result ;;
  if decide (e = cudaSuccess) then
    if count =? 0 then ret cudaSuccess
    else fun w =>
      match devPtr, block_of devPtr (device w) with
      | Ptr b, Some old =>
          if count <=? Z.of_nat (length old) then
            Returns cudaSuccess
              (set_device
                 (<[b := overwrite count (replicate (Z.to_nat count) (Byte (value mod 256))) old]>
                    (device w)) w)
          else Returns cudaErrorInvalidValue w
      | _, _ => Returns cudaErrorInvalidValue w
      end
  else ret e.

(** [cudaFree(devPtr)]: a no-op on [NULL]; an error on anything that is not
    a live allocation. *)
Definition cudaFree (devPtr : ptr) : run cudaError_t :=
  e <- next_result ;;
  if decide (e = cudaSuccess) then
    match devPtr with
    | NULL => ret cudaSuccess
    | Ptr b => fun w =>
        match device w !! b with
        | Some _ => Returns cudaSuccess (set_device (delete b (device w)) w)
        | None => Returns cudaErrorInvalidValue w
        end
    end
  else ret e.

(** [cudaSoftCheck(code)]: nothing on [cudaSuccess]; otherwise the error is
    reported and, in a build whose check is fatal, the process exits. *)
Definition cudaSoftCheck (code : cudaError_t) : run unit :=
  if decide (code = cudaSuccess) then ret tt
  else fun w =>
    let w' := set_reported (reported w ++ [code]) w in
    if soft_check_exits then Exits code w' else Returns tt w'.
End Runtime.

(** ** The device-memory context: [init_model], [copy_vis], [clear_vis], [destroy] *)

Section Memory.
Context `{Build}.
Local Open Scope run_scope.

(** [a->field] for a pointer [a] to an [Addresses] object. *)
Definition arrow {T} (a : loc) (field : Addresses -> T) : run T :=
  fun w => defined (field <$> contexts w !! a) w.

Definition init_model (num_baselines num_freqs num_tiles sbf_l sbf_n : Z)
    (sbf_c sbf_dx : spec_float)
    (uvws freqs shapelet_basis_values d_fee_coeffs : ptr)
    (num_fee_beam_coeffs num_unique_fee_tiles num_unique_fee_freqs : Z)
    (d_beam_jones_map d_beam_norm_jones vis : ptr) : run Addresses :=
  let d_uvws := NULL in
  let size_uvws := size_t_mul (size_t_of_int num_baselines) sizeof_UVW in
  r <- cudaMalloc d_uvws size_uvws ;;
  let d_uvws := snd r in
  cudaSoftCheck (fst r) ;;
  e <- cudaMemcpy d_uvws uvws size_uvws cudaMemcpyHostToDevice ;;
  cudaSoftCheck e ;;

  let d_freqs := NULL in
  let size_freqs := size_t_mul (size_t_of_int num_freqs) sizeof_FLOAT in
  r <- cudaMalloc d_freqs size_freqs ;;
  let d_freqs := snd r in
  cudaSoftCheck (fst r) ;;
  e <- cudaMemcpy d_freqs freqs size_freqs cudaMemcpyHostToDevice ;;
  cudaSoftCheck e ;;

  let d_shapelet_basis_values := NULL in
  sbf_l_n <- defined (int_mul sbf_l sbf_n) ;;
  let size_sbfs := size_t_mul (size_t_of_int sbf_l_n) sizeof_FLOAT in
  r <- cudaMalloc d_shapelet_basis_values size_sbfs ;;
  let d_shapelet_basis_values := snd r in
  cudaSoftCheck (fst r) ;;
  e <- cudaMemcpy d_shapelet_basis_values shapelet_basis_values size_sbfs
         cudaMemcpyHostToDevice ;;
  cudaSoftCheck e ;;

  let d_vis := NULL in
  num_vis <- defined (int_mul num_baselines num_freqs) ;;
  let size_vis := size_t_mul (size_t_of_int num_vis) sizeof_JonesF32 in
  r <- cudaMalloc d_vis size_vis ;;
  let d_vis := snd r in
  cudaSoftCheck (fst r) ;;
  e <- cudaMemcpy d_vis vis size_vis cudaMemcpyHostToDevice ;;
  cudaSoftCheck e ;;

  ret {| num_freqs := num_freqs;
         num_vis := num_vis;
         num_tiles := num_tiles;
         sbf_l := sbf_l;
         sbf_n := sbf_n;
         sbf_c := sbf_c;
         sbf_dx := sbf_dx;
         d_uvws := d_uvws;
         d_freqs := d_freqs;
         d_shapelet_basis_values := d_shapelet_basis_values;
         d_fee_coeffs := d_fee_coeffs;
         num_fee_beam_coeffs := num_fee_beam_coeffs;
         num_unique_fee_tiles := num_unique_fee_tiles;
         num_unique_fee_freqs := num_unique_fee_freqs;
         d_beam_jones_map := d_beam_jones_map;
         d_beam_norm_jones := d_beam_norm_jones;
         d_vis := d_vis;
         host_vis := vis |}.

(** [void copy_vis(const Addresses *a)] *)
Definition copy_vis (a : loc) : run unit :=
  dst <- arrow a host_vis ;;
  src <- arrow a d_vis ;;
  n <- arrow a num_vis ;;
  e <- cudaMemcpy dst src (size_t_mul (size_t_of_int n) sizeof_JonesF32)
         cudaMemcpyDeviceToHost ;;
  cudaSoftCheck e.

(** [void clear_vis(Addresses *a)]: the value [0.0] converts to the [int]
    0; the result of [cudaMemset] is dropped. *)
Definition clear_vis (a : loc) : run unit :=
  devPtr <- arrow a d_vis ;;
  n <- arrow a num_vis ;;
  _ <- cudaMemset devPtr 0 (size_t_mul (size_t_of_int n) sizeof_JonesF32) ;;
  ret tt.

(** [void destroy(Addresses *a)] *)
Definition destroy (a : loc) : run unit :=
  p <- arrow a d_uvws ;;
  e <- cudaFree p ;;
  cudaSoftCheck e ;;
  p <- arrow a d_freqs ;;
  e <- cudaFree p ;;
  cudaSoftCheck e ;;
  p <- arrow a d_shapelet_basis_values ;;
  e <- cudaFree p ;;
  cudaSoftCheck e ;;
  p <- arrow a d_vis ;;
  e <- cudaFree p ;;
  cudaSoftCheck e.

(** The caller keeps the context [init_model] returns in an object at [a]. *)
Definition keep_context (a : loc) (ctx : Addresses) : run unit :=
  fun w => Returns tt (set_contexts (<[a := ctx]> (contexts w)) w).
End Memory.

(** ** The visibility buffer as an array of [JonesF32] *)

(** A binary32 value from its IEEE 754 bit pattern. *)
Definition f32_of_bits (w : Z) : f32 :=
  let s := Z.testbit w 31 in
  let e := (w / 2 ^ 23) mod 2 ^ 8 in
  let m := w mod 2 ^ 23 in
  F32 (if e =? 0 then
         match m with
         | Zpos p => S754_finite s p (-149)
         | _ => S754_zero s
         end
       else if e =? 255 then
         if m =? 0 then S754_infinity s else S754_nan
       else
         match m + 2 ^ 23 with
         | Zpos p => S754_finite s p (e - 150)
         | _ => S754_nan
         end).

(** The bit pattern of a binary32 value (the quiet NaN for NaN). *)
Definition bits_of_f32 (f : f32) : Z :=
  let sign (s : bool) := if s then 2 ^ 31 else 0 in
  match f32_val f with
  | S754_zero s => sign s
  | S754_infinity s => sign s + 255 * 2 ^ 23
  | S754_nan => 255 * 2 ^ 23 + 2 ^ 22
  | S754_finite s m e =>
      if Zpos m <? 2 ^ 23 then sign s + Zpos m
      else sign s + (e + 150) * 2 ^ 23 + (Zpos m - 2 ^ 23)
  end.

(** Little-endian 32-bit words. *)
Definition word_of_bytes (l : list Z) : option Z :=
  match l with
  | [b0; b1; b2; b3] => Some (b0 + 2 ^ 8 * b1 + 2 ^ 16 * b2 + 2 ^ 24 * b3)
  | _ => None
  end.

Definition bytes_of_word (w : Z) : list Z :=
  [w mod 2 ^ 8; (w / 2 ^ 8) mod 2 ^ 8; (w / 2 ^ 16) mod 2 ^ 8; (w / 2 ^ 24) mod 2 ^ 8].

Definition byte_value (v : memval) : option Z :=
  match v with
  | Byte b => Some b
  | Undef => None
  end.

(** The [float] stored at byte offset [4 * k] of [l]. *)
Definition float_at (l : list memval) (k : nat) : option f32 :=
  bs ← mapM byte_value (take 4 (drop (4 * k) l));
  f32_of_bits <$> word_of_bytes bs.

Definition JonesF32_of_bytes (l : list memval) : option JonesF32 :=
  a ← float_at l 0; b ← float_at l 1; c ← float_at l 2; d ← float_at l 3;
  e ← float_at l 4; f ← float_at l 5; g ← float_at l 6; h ← float_at l 7;
  Some (Build_JONES a b c d e f g h).

Definition bytes_of_JonesF32 (j : JonesF32) : list memval :=
  Byte <$> concat (bytes_of_word ∘ bits_of_f32 <$>
    [j00_re j; j00_im j; j01_re j; j01_im j; j10_re j; j10_im j; j11_re j; j11_im j]).

(** Element [i] of a buffer of [JonesF32]. *)
Definition vis_elem (block : list memval) (i : nat) : option JonesF32 :=
  JonesF32_of_bytes (take 32 (drop (32 * i) block)).

(** Element [i] of the device visibility buffer of a context. *)
Definition device_vis (ctx : Addresses) (w : world) (i : nat) : option JonesF32 :=
  block ← block_of (d_vis ctx) (device w);
  vis_elem block i.

Definition zero_JonesF32 : JonesF32 :=
  let z := F32 (S754_zero false) in Build_JONES z z z z z z z z.

(** What [operator+=(JonesF32 &, JonesF64)] is said to leave in its left
    operand: field by field, the double narrowed and then added in single
    precision. *)
Definition narrow_then_add (a : JonesF32) (b : JonesF64) : JonesF32 :=
  {| j00_re := (j00_re a + float_of_double (j00_re b))%F;
     j00_im := (j00_im a + float_of_double (j00_im b))%F;
     j01_re := (j01_re a + float_of_double (j01_re b))%F;
     j01_im := (j01_im a + float_of_double (j01_im b))%F;
     j10_re := (j10_re a + float_of_double (j10_re b))%F;
     j10_im := (j10_im a + float_of_double (j10_im b))%F;
     j11_re := (j11_re a + float_of_double (j11_re b))%F;
     j11_im := (j11_im a + float_of_double (j11_im b))%F |}.

(** The other conceivable accumulation: widen the accumulator, add in
    double precision, narrow the sum. *)
Definition add_then_narrow (a : JonesF32) (b : JonesF64) : JonesF32 :=
  {| j00_re := float_of_double (double_of_float (j00_re a) + j00_re b)%F;
     j00_im := float_of_double (double_of_float (j00_im a) + j00_im b)%F;
     j01_re := float_of_double (double_of_float (j01_re a) + j01_re b)%F;
     j01_im := float_of_double (double_of_float (j01_im a) + j01_im b)%F;
     j10_re := float_of_double (double_of_float (j10_re a) + j10_re b)%F;
     j10_im := float_of_double (double_of_float (j10_im a) + j10_im b)%F;
     j11_re := float_of_double (double_of_float (j11_re a) + j11_re b)%F;
     j11_im := float_of_double (double_of_float (j11_im a) + j11_im b)%F |}.

(** Sample values: a [JONES] with the same scalar in every field; *)
Definition all_fields {F} (v : F) : JONES F := Build_JONES v v v v v v v v.
(** 1.0f; *)
Definition one_f32 : f32 := F32 (S754_finite false (2 ^ 23) (-23)).
(** 2^-24 + 2^-50, a double just above half an ulp of 1.0f; *)
Definition above_half_ulp : f64 := F64 (S754_finite false (2 ^ 52 + 2 ^ 26) (-76)).
(** 1.0f + 2^-23, the float after 1.0f. *)
Definition after_one_f32 : f32 := F32 (S754_finite false (2 ^ 23 + 1) (-23)).

(** ** The modelling entry points of [model.h] *)

Inductive space := HostMemory | DeviceMemory.

Definition memory_of (s : space) (w : world) : gmap loc (list memval) :=
  match s with
  | HostMemory => host w
  | DeviceMemory => device w
  end.

Definition set_memory_of (s : space) (m : gmap loc (list memval)) (w : world) : world :=
  match s with
  | HostMemory => set_host m w
  | DeviceMemory => set_device m w
  end.

(** The read-only arguments of [model_timestep], in the order of its
    declaration. *)
Record timestep_inputs := Build_timestep_inputs {
  ts_num_baselines : Z;
  ts_num_freqs : Z;
  ts_num_points : Z;
  ts_num_gaussians : Z;
  ts_num_shapelets : Z;
  ts_uvws : ptr;
  ts_freqs : ptr;
  ts_point_lmns : ptr;
  ts_point_fds : ptr;
  ts_gaussian_lmns : ptr;
  ts_gaussian_fds : ptr;
  ts_gaussian_gaussian_params : ptr;
  ts_shapelet_lmns : ptr;
  ts_shapelet_fds : ptr;
  ts_shapelet_gaussian_params : ptr;
  ts_shapelet_uvs : ptr;
  ts_shapelet_coeffs : ptr;
  ts_num_shapelet_coeffs : ptr;
  ts_shapelet_basis_values : ptr;
  ts_sbf_l : Z;
  ts_sbf_n : Z;
  ts_sbf_c : spec_float;
  ts_sbf_dx : spec_float;
}.

(** Modelled from the spec: the bodies of [model_points],
    [model_gaussians], [model_shapelets] and [model_timestep] are not among
    the sources; [model.h] only declares them. Following sections 4.4 to
    4.6 and 6 of the specification, a kernel forms for every (baseline,
    frequency) cell the beam-corrected sum of the contributions of its
    components, in double precision, and adds it into that cell of the
    visibility buffer, narrowing field by field; it returns a non-zero
    status when the device reports an error and zero otherwise. The sums
    (phase terms, envelopes, basis-table look-ups, beam correction) are
    calls into the float library and enter as the parameters below: each
    may read all of host and device memory and every argument of its
    kernel, and yields the sum for cell [i]. *)
Class Contributions := {
  points_sum :
    gmap loc (list memval) -> gmap loc (list memval) ->
    Z -> ptr -> ptr -> Addresses -> nat -> JonesF64;
  gaussians_sum :
    gmap loc (list memval) -> gmap loc (list memval) ->
    Z -> ptr -> ptr -> ptr -> Addresses -> nat -> JonesF64;
  shapelets_sum :
    gmap loc (list memval) -> gmap loc (list memval) ->
    Z -> ptr -> ptr -> ptr -> ptr -> ptr -> ptr -> Addresses -> nat -> JonesF64;
  timestep_points_sum : gmap loc (list memval) -> timestep_inputs -> nat -> JonesF64;
  timestep_gaussians_sum : gmap loc (list memval) -> timestep_inputs -> nat -> JonesF64;
  timestep_shapelets_sum : gmap loc (list memval) -> timestep_inputs -> nat -> JonesF64;
}.

(** Modelled from the spec: the new bytes of cell [i] of a visibility
    buffer once [cell i] has been accumulated into it (section 4.4:
    narrowing at the final accumulation step, per field). A cell that was
    never written holds no defined value before or after. *)
Definition accumulate_cell (cell : nat -> JonesF64) (block : list memval) (i : nat) :
    list memval :=
  match vis_elem block i with
  | Some v => bytes_of_JonesF32 (narrow_then_add v (cell i))
  | None => replicate 32 Undef
  end.

(** Modelled from the spec: a visibility buffer after the sums of [cells]
    cells have been accumulated into it, in place. *)
Definition accumulate (cell : nat -> JonesF64) (cells : nat) (block : list memval) :
    list memval :=
  concat (accumulate_cell cell block <$> seq 0 cells) ++ drop (32 * cells) block.

Section Kernels.
Context `{Build} `{Contributions}.
Local Open Scope run_scope.

(** Modelled from the spec: one kernel invocation on the visibility buffer
    [vis] of [cells] cells, held in host or device memory. A device error
    leaves the buffer as it was and gives status 1; a buffer that is not
    there or too short is outside the contract (section 4.2). *)
Definition accumulate_into (s : space) (vis : ptr) (cells : Z) (cell : nat -> JonesF64) :
    run Z :=
  e <- next_result ;;
  if decide (e = cudaSuccess) then
    if cells <=? 0 then ret 0
    else fun w =>
      match vis, block_of vis (memory_of s w) with
      | Ptr b, Some old =>
          if 32 * cells <=? Z.of_nat (length old) then
            Returns 0
              (set_memory_of s
                 (<[b := accumulate cell (Z.to_nat cells) old]> (memory_of s w)) w)
          else Undefined
      | _, _ => Undefined
      end
  else ret 1.

(** Modelled from the spec (section 4.4), with the parameters of the
    declaration in [model.h]:
    [int model_points(num_points, point_lmns, point_fds, const Addresses *a)]. *)
Definition model_points (num_points : Z) (point_lmns point_fds : ptr) (a : loc) : run Z :=
  ctx <- arrow a id ;;
  fun w =>
    accumulate_into DeviceMemory (d_vis ctx) (num_vis ctx)
      (points_sum (host w) (device w) num_points point_lmns point_fds ctx) w.

(** Modelled from the spec (section 4.5):
    [int model_gaussians(num_gaussians, gaussian_lmns, gaussian_fds,
    gaussian_params, const Addresses a)]; the context is passed by value. *)
Definition model_gaussians (num_gaussians : Z)
    (gaussian_lmns gaussian_fds gaussian_params : ptr) (a : Addresses) : run Z :=
  fun w =>
    accumulate_into DeviceMemory (d_vis a) (num_vis a)
      (gaussians_sum (host w) (device w) num_gaussians gaussian_lmns gaussian_fds
         gaussian_params a) w.

(** Modelled from the spec (section 4.6):
    [int model_shapelets(num_shapelets, shapelet_lmns, shapelet_fds,
    gaussian_params, shapelet_uvs, shapelet_coeffs, num_shapelet_coeffs,
    const Addresses a)]. *)
Definition model_shapelets (num_shapelets : Z)
    (shapelet_lmns shapelet_fds gaussian_params shapelet_uvs shapelet_coeffs
       num_shapelet_coeffs : ptr) (a : Addresses) : run Z :=
  fun w =>
    accumulate_into DeviceMemory (d_vis a) (num_vis a)
      (shapelets_sum (host w) (device w) num_shapelets shapelet_lmns shapelet_fds
         gaussian_params shapelet_uvs shapelet_coeffs num_shapelet_coeffs a) w.

(** Modelled from the spec (section 6): [model_timestep] runs the point,
    Gaussian and shapelet kernels in this order on the host arrays it is
    given, accumulating into [vis] ([num_baselines * num_freqs] cells), and
    returns the combined status: the first non-zero one, at which the
    timestep is abandoned (section 7), or zero. *)
Definition model_timestep (num_baselines num_freqs num_points num_gaussians
      num_shapelets : Z)
    (uvws freqs point_lmns point_fds gaussian_lmns gaussian_fds
       gaussian_gaussian_params shapelet_lmns shapelet_fds
       shapelet_gaussian_params shapelet_uvs shapelet_coeffs num_shapelet_coeffs
       shapelet_basis_values : ptr)
    (sbf_l sbf_n : Z) (sbf_c sbf_dx : spec_float) (vis : ptr) : run Z :=
  let inputs :=
    Build_timestep_inputs num_baselines num_freqs num_points num_gaussians
      num_shapelets uvws freqs point_lmns point_fds gaussian_lmns gaussian_fds
      gaussian_gaussian_params shapelet_lmns shapelet_fds shapelet_gaussian_params
      shapelet_uvs shapelet_coeffs num_shapelet_coeffs shapelet_basis_values
      sbf_l sbf_n sbf_c sbf_dx in
  let cells := size_t_mul num_baselines num_freqs in
  status <- (fun w =>
    accumulate_into HostMemory vis cells (timestep_points_sum (host w) inputs) w) ;;
  if status =? 0 then
    status <- (fun w =>
      accumulate_into HostMemory vis cells (timestep_gaussians_sum (host w) inputs) w) ;;
    if status =? 0 then
      fun w =>
        accumulate_into HostMemory vis cells (timestep_shapelets_sum (host w) inputs) w
    else ret status
  else ret status.

(** What a caller may do with a context it keeps at [a]. *)
Inductive operation :=
  | call_clear_vis
  | call_copy_vis
  | call_destroy
  | call_model_points (num_points : Z) (point_lmns point_fds : ptr)
  | call_model_gaussians (num_gaussians : Z)
      (gaussian_lmns gaussian_fds gaussian_params : ptr)
  | call_model_shapelets (num_shapelets : Z)
      (shapelet_lmns shapelet_fds gaussian_params shapelet_uvs shapelet_coeffs
         num_shapelet_coeffs : ptr).

Definition call (a : loc) (op : operation) : run unit :=
  match op with
  | call_clear_vis => clear_vis a
  | call_copy_vis => copy_vis a
  | call_destroy => destroy a
  | call_model_points n lmns fds =>
      _ <- model_points n lmns fds a ;; ret tt
  | call_model_gaussians n lmns fds params =>
      ctx <- arrow a id ;;
      _ <- model_gaussians n lmns fds params ctx ;; ret tt
  | call_model_shapelets n lmns fds params uvs coeffs num_coeffs =>
      ctx <- arrow a id ;;
      _ <- model_shapelets n lmns fds params uvs coeffs num_coeffs ctx ;; ret tt
  end.

Fixpoint calls (a : loc) (ops : list operation) : run unit :=
  match ops with
  | [] => ret tt
  | op :: rest => call a op ;; calls a rest
  end.
End Kernels.

(** ** Assertions about runs *)

(** [wp U c w Q E]: the run of [c] from [w] satisfies [Q] when it returns
    and [E] when a check terminates the process; [U] is what is claimed of
    undefined behaviour ([True]: nothing; [False]: it does not occur). *)
Definition wp {A} (U : Prop) (c : run A) (w : world)
    (Q : A -> world -> Prop) (E : cudaError_t -> world -> Prop) : Prop :=
  match c w with
  | Returns a w' => Q a w'
  | Exits e w' => E e w'
  | Undefined => U
  end.

(** The world once the runtime has answered one call. *)
Definition pop (w : world) : world := set_pending (tl (pending w)) w.

(** The runtime is going to fail the next call. *)
Definition next_fails (w : world) : Prop := hd cudaSuccess (pending w) <> cudaSuccess.

(** The runtime has no failure in store. *)
Definition no_faults (w : world) : Prop :=
  Forall (fun e => e = cudaSuccess) (pending w).

(** The host range of [count] bytes at [p] exists (nothing is asked of an
    empty range). *)
Definition readable (p : ptr) (count : Z) (w : world) : Prop :=
  count = 0 \/ fits count (block_of p (host w)) = true.

(** The [count] bytes a host-to-device copy takes from [p]. *)
Definition host_bytes (p : ptr) (count : Z) (w : world) : list memval :=
  take (Z.to_nat count) (default [] (block_of p (host w))).

(** [w'] is [w] with the device buffer [b] holding [c], after successful
    runtime calls. *)
Definition device_set (b : loc) (c : list memval) (w w' : world) : Prop :=
  host w' = host w /\ contexts w' = contexts w /\ reported w' = reported w /\
  no_faults w' /\ device w' = <[b := c]> (device w).

(** [w'] has every device allocation of [w]. *)
Definition keeps_allocations (w w' : world) : Prop :=
  forall b, is_Some (device w !! b) -> is_Some (device w' !! b).

(** [w'] differs from [w] at most in host blocks satisfying [H] and device
    blocks satisfying [D] (and in what the runtime has in store and what
    has been reported). *)
Definition frame (H D : loc -> Prop) (w w' : world) : Prop :=
  contexts w' = contexts w /\
  (forall b, ~ H b -> host w' !! b = host w !! b) /\
  (forall b, ~ D b -> device w' !! b = device w !! b).

(** [w'] is [w] after runtime calls that released and overwrote nothing
    of it: host memory and the contexts are the same, every device
    allocation of [w] is there with its contents, and the reports of [w]
    have at most been added to. *)
Definition kept (w w' : world) : Prop :=
  host w' = host w /\
  contexts w' = contexts w /\
  (exists errs, reported w' = reported w ++ errs) /\
  (forall b, is_Some (device w !! b) -> device w' !! b = device w !! b).

(** [p] is null or a device buffer of [w'] that was allocated after [w]. *)
Definition null_or_new (w w' : world) (p : ptr) : Prop :=
  p = NULL \/ exists b, p = Ptr b /\ device w !! b = None /\ is_Some (device w' !! b).

(** The claim made of a failed creation, for the run [o] of [init_model]
    from [w]: if it ends having reported an error, then it has not
    returned a context, and no device buffer is live that was not live
    before. *)
Definition fails_without_leaking (o : outcome Addresses) (w : world) : Prop :=
  forall w', final_world o = Some w' -> reported w' <> reported w ->
    (forall ctx, o <> Returns ctx w') /\
    (forall b, is_Some (device w' !! b) -> is_Some (device w !! b)).

(** The counts of a context. *)
Definition counts (ctx : Addresses) : list Z :=
  [num_freqs ctx; num_vis ctx; num_tiles ctx; sbf_l ctx; sbf_n ctx].

(** The four buffer pointers of a context. *)
Definition buffers (ctx : Addresses) : list ptr :=
  [d_uvws ctx; d_freqs ctx; d_shapelet_basis_values ctx; d_vis ctx].

(** What [init_model] needs of its caller to be defined: the products of
    the counts do not overflow, and each host array holds the bytes that
    are copied from it. *)
Definition init_model_defined `{Build} (num_baselines num_freqs sbf_l sbf_n : Z)
    (uvws freqs shapelet_basis_values vis : ptr) (w : world) : Prop :=
  readable uvws (size_t_mul (size_t_of_int num_baselines) sizeof_UVW) w /\
  readable freqs (size_t_mul (size_t_of_int num_freqs) sizeof_FLOAT) w /\
  (exists n, int_mul sbf_l sbf_n = Some n /\
     readable shapelet_basis_values (size_t_mul (size_t_of_int n) sizeof_FLOAT) w) /\
  (exists n, int_mul num_baselines num_freqs = Some n /\
     readable vis (size_t_mul (size_t_of_int n) sizeof_JonesF32) w).

(** The device memory [init_model] leaves when nothing fails: that of [w]
    and four new buffers [b1] to [b4] with the bytes of the host arrays. *)
Definition device_created `{Build} (num_baselines num_freqs sbf_l sbf_n : Z)
    (uvws freqs shapelet_basis_values vis : ptr) (b1 b2 b3 b4 : loc) (w : world) :
    gmap loc (list memval) :=
  <[b4 := host_bytes vis
            (size_t_mul (size_t_of_int (num_baselines * num_freqs)) sizeof_JonesF32) w]>
  (<[b3 := host_bytes shapelet_basis_values
             (size_t_mul (size_t_of_int (sbf_l * sbf_n)) sizeof_FLOAT) w]>
  (<[b2 := host_bytes freqs (size_t_mul (size_t_of_int num_freqs) sizeof_FLOAT) w]>
  (<[b1 := host_bytes uvws (size_t_mul (size_t_of_int num_baselines) sizeof_UVW) w]>
     (device w)))).

(** [w'] is [w] but for device buffers among those of [ctx]. *)
Definition but_for_buffers (ctx : Addresses) (w w' : world) : Prop :=
  host w' = host w /\ contexts w' = contexts w /\
  (forall b, Ptr b ∉ buffers ctx -> device w' !! b = device w !! b).

(** [w'] is [w] with the device buffer [b] freed, after successful runtime
    calls. *)
Definition device_freed (b : loc) (w w' : world) : Prop :=
  host w' = host w /\ contexts w' = contexts w /\ reported w' = reported w /\
  no_faults w' /\ device w' = delete b (device w).

(** However [c] ends, the [Addresses] objects of the caller are as they
    were. *)
Definition keeps_contexts {A} (c : run A) : Prop :=
  forall w,
    wp True c w (fun _ w' => contexts w' = contexts w)
                (fun _ w' => contexts w' = contexts w).

(** ** Sample builds and worlds *)

Definition soft_build : Build := {| SINGLE := false; soft_check_exits := false |}.
Definition fatal_build : Build := {| SINGLE := false; soft_check_exits := true |}.

(** Two visibilities with non-zero fields. *)
Definition sample_vis : list memval :=
  bytes_of_JonesF32 (all_fields one_f32) ++ bytes_of_JonesF32 (all_fields after_one_f32).

(** Host arrays for one baseline, two frequencies and a 1x1 basis table at
    the addresses 1 to 4, a beam table already on the device at address 9,
    and the given results in store at the runtime. *)
Definition sample_world (faults : list cudaError_t) : world :=
  World
    (list_to_map
       [(1%positive, replicate 24 (Byte 7)); (2%positive, replicate 16 (Byte 8));
        (3%positive, replicate 8 (Byte 9)); (4%positive, sample_vis)])
    {[ 9%positive := [Byte 1; Byte 2] ]}
    ∅ faults [].

Definition sample_init_model `{Build} : run Addresses :=
  init_model 1 2 3 1 1 (S754_zero false) (S754_zero false)
    (Ptr 1) (Ptr 2) (Ptr 3) (Ptr 9) 0 0 0 NULL NULL (Ptr 4).

(** The second allocation fails. *)
Definition second_malloc_fails : list cudaError_t :=
  [cudaSuccess; cudaSuccess; cudaErrorMemoryAllocation].

(** Every cell receives the same sum from every kernel. *)
Definition sample_contributions : Contributions := {|
  points_sum _ _ _ _ _ _ _ := all_fields above_half_ulp;
  gaussians_sum _ _ _ _ _ _ _ _ := all_fields above_half_ulp;
  shapelets_sum _ _ _ _ _ _ _ _ _ _ _ := all_fields above_half_ulp;
  timestep_points_sum _ _ _ := all_fields above_half_ulp;
  timestep_gaussians_sum _ _ _ := all_fields above_half_ulp;
  timestep_shapelets_sum _ _ _ := all_fields above_half_ulp;
|}.

(** A context kept at address 1 whose visibility buffer is the device
    buffer 5, holding [sample_vis]; the host arrays of [sample_world]. *)
Definition sample_context : Addresses :=
  Build_Addresses 2 2 3 1 1 (S754_zero false) (S754_zero false)
    (Ptr 6) (Ptr 7) (Ptr 8) (Ptr 9) 0 0 0 NULL NULL (Ptr 5) (Ptr 4).

Definition sample_live_world (faults : list cudaError_t) : world :=
  World
    (host (sample_world []))
    (list_to_map
       [(5%positive, sample_vis); (6%positive, replicate 24 (Byte 7));
        (7%positive, replicate 16 (Byte 8)); (8%positive, replicate 8 (Byte 9));
        (9%positive, [Byte 1; Byte 2])])
    {[ 1%positive := sample_context ]}
    faults [].

(** ** Further definitions: the matrix algebra *)

(** Entrywise sum of the reference matrices. *)
Definition matrix_add {F} `{Scalar F} (a b : matrix2 F) : matrix2 F :=
  fun i k => (a i k + b i k)%C.

(** The matrix [apply_beam] leaves at [j]. *)
Definition beam_sandwich {F} `{Scalar F} (J1 J J2 : JONES F) : JONES F :=
  JONES_of_matrix
    (matrix_mul (matrix_mul (matrix_of_JONES J1) (matrix_of_JONES J))
                (matrix_conj_transpose (matrix_of_JONES J2))).

(** The product of two Jones matrices. *)
Definition jones_product {F} `{Scalar F} (A B : JONES F) : JONES F :=
  JONES_of_matrix (matrix_mul (matrix_of_JONES A) (matrix_of_JONES B)).

(** The sum of two Jones matrices. *)
Definition jones_sum {F} `{Scalar F} (A B : JONES F) : JONES F :=
  JONES_of_matrix (matrix_add (matrix_of_JONES A) (matrix_of_JONES B)).

(** The identity matrix, in exact arithmetic. *)
Definition identity_JONES : JONES Z := Build_JONES 1 0 0 0 0 0 1 0.

(** A matrix equal to its conjugate transpose, in exact arithmetic. *)
Definition hermitian (J : JONES Z) : Prop :=
  j00_im J = 0 /\ j11_im J = 0 /\ j10_re J = j01_re J /\ j10_im J = - j01_im J.

(** [+0.0] for [-0.0], and every other value as it is. *)
Definition without_negative_zero (x : f32) : f32 :=
  match f32_val x with
  | S754_zero true => F32 (S754_zero false)
  | _ => x
  end.

Definition map_JONES {F G} (f : F -> G) (a : JONES F) : JONES G :=
  Build_JONES (f (j00_re a)) (f (j00_im a)) (f (j01_re a)) (f (j01_im a))
              (f (j10_re a)) (f (j10_im a)) (f (j11_re a)) (f (j11_im a)).

Definition zero_JonesF64 : JonesF64 := all_fields (F64 (S754_zero false)).

(** ** Further definitions: creation under failures *)

(** Device memory with the buffer [p] allocated and holding [c], or freed;
    nothing happens for the null pointer. *)
Definition alloc_of (p : ptr) (c : list memval) (m : gmap loc (list memval)) :
    gmap loc (list memval) :=
  match p with
  | NULL => m
  | Ptr b => <[b := c]> m
  end.

Definition free_of (p : ptr) (m : gmap loc (list memval)) : gmap loc (list memval) :=
  match p with
  | NULL => m
  | Ptr b => delete b m
  end.

Definition dead_in (p : ptr) (m : gmap loc (list memval)) : Prop :=
  match p with
  | NULL => True
  | Ptr b => m !! b = None
  end.

Definition live_or_null (p : ptr) (m : gmap loc (list memval)) : Prop :=
  match p with
  | NULL => True
  | Ptr b => is_Some (m !! b)
  end.

(** What one allocate-check-copy-check group of [init_model] has done when
    the next statement is reached, whatever failed: it reported [errs]
    (nothing, if the check is fatal), and [p] is null, with something
    reported, or a new buffer holding [c], which is the bytes of the host
    array if nothing was reported. *)
Definition allocated `{Build} (p src : ptr) (size : Z) (c : list memval)
    (errs : list cudaError_t) (w w' : world) : Prop :=
  host w' = host w /\ contexts w' = contexts w /\
  reported w' = reported w ++ errs /\
  (soft_check_exits = true -> errs = []) /\
  dead_in p (device w) /\
  device w' = alloc_of p c (device w) /\
  (p = NULL -> errs <> []) /\
  (errs = [] -> c = host_bytes src size w).

(** What [init_model] has done when it returns, whatever failed: host
    memory and the contexts are as they were, it reported [errs], and
    device memory has gained, one after the other, the buffers among [p1]
    to [p4] that are not null, each new when it was allocated. *)
Definition creation_chain `{Build} (p1 p2 p3 p4 : ptr) (c1 c2 c3 c4 : list memval)
    (errs : list cudaError_t) (w w' : world) : Prop :=
  host w' = host w /\ contexts w' = contexts w /\
  reported w' = reported w ++ errs /\
  (soft_check_exits = true -> errs = []) /\
  dead_in p1 (device w) /\
  dead_in p2 (alloc_of p1 c1 (device w)) /\
  dead_in p3 (alloc_of p2 c2 (alloc_of p1 c1 (device w))) /\
  dead_in p4 (alloc_of p3 c3 (alloc_of p2 c2 (alloc_of p1 c1 (device w)))) /\
  device w' =
    alloc_of p4 c4 (alloc_of p3 c3 (alloc_of p2 c2 (alloc_of p1 c1 (device w)))).

(** ** Creation against the runtime's schedule *)

(** The result the runtime has in store for the call that follows [i]
    further calls (success, once its schedule is used up). *)
Definition scheduled (i : nat) (w : world) : cudaError_t :=
  hd cudaSuccess (drop i (pending w)).

(** One allocate-check-copy-check group of [init_model], when the next
    statement is reached, against the schedule: it made two runtime calls,
    its pointer [p] is null exactly when the runtime failed the allocation,
    and each of the two calls the runtime failed is among the reports
    [errs], which hold failures only. *)
Definition as_scheduled (p : ptr) (errs : list cudaError_t) (w w' : world) : Prop :=
  pending w' = drop 2 (pending w) /\
  (p = NULL <-> scheduled 0 w <> cudaSuccess) /\
  (forall i, (i < 2)%nat -> scheduled i w <> cudaSuccess -> scheduled i w ∈ errs) /\
  Forall (fun e => e <> cudaSuccess) errs.

(** A fatal check ends the process in a group started in [w]: on the failed
    allocation, with device memory as it was, or on the failed copy, with
    the buffer of the group allocated. *)
Definition stopped_in_group `{Build} (e : cudaError_t) (w w' : world) : Prop :=
  soft_check_exits = true /\ e <> cudaSuccess /\
  host w' = host w /\ contexts w' = contexts w /\
  reported w' = reported w ++ [e] /\
  ((e = scheduled 0 w /\ device w' = device w) \/
   (scheduled 0 w = cudaSuccess /\ e = scheduled 1 w /\
    exists b c, device w !! b = None /\ device w' = <[b := c]> (device w))).

(** [w'] is [w] after [k] groups in which the runtime failed nothing:
    [2 * k] calls were made, nothing was reported, and device memory has
    gained [k] buffers and lost or changed none. *)
Definition quiet_after (k : nat) (w w' : world) : Prop :=
  host w' = host w /\ contexts w' = contexts w /\
  reported w' = reported w /\
  pending w' = drop (2 * k) (pending w) /\
  (forall j, (j < 2 * k)%nat -> scheduled j w = cudaSuccess) /\
  (forall b, is_Some (device w !! b) -> device w' !! b = device w !! b) /\
  size (device w') = (size (device w) + k)%nat.

(** A fatal check ends the process at call [i] (the calls are counted from
    0; the even ones are the allocations): that call is the first one the
    runtime failed, its code [e] is the one report added, and every buffer
    allocated by the [(i + 1) / 2] allocations made before it is still
    allocated, next to the buffers of [w], which are as they were. *)
Definition stopped_at `{Build} (i : nat) (e : cudaError_t) (w w' : world) : Prop :=
  soft_check_exits = true /\
  e = scheduled i w /\ e <> cudaSuccess /\
  (forall j, (j < i)%nat -> scheduled j w = cudaSuccess) /\
  host w' = host w /\ contexts w' = contexts w /\
  reported w' = reported w ++ [e] /\
  (forall b, is_Some (device w !! b) -> device w' !! b = device w !! b) /\
  size (device w') = (size (device w) + (i + 1) / 2)%nat.

(** [init_model], when it returns, against the schedule: it made eight
    runtime calls; the pointers [p1] to [p4] of its buffers are null
    exactly when the runtime failed their allocations, which are the calls
    0, 2, 4 and 6; and each of the eight calls the runtime failed is among
    the reports [errs], which hold failures only. *)
Definition creation_as_scheduled (p1 p2 p3 p4 : ptr) (errs : list cudaError_t)
    (w w' : world) : Prop :=
  pending w' = drop 8 (pending w) /\
  (p1 = NULL <-> scheduled 0 w <> cudaSuccess) /\
  (p2 = NULL <-> scheduled 2 w <> cudaSuccess) /\
  (p3 = NULL <-> scheduled 4 w <> cudaSuccess) /\
  (p4 = NULL <-> scheduled 6 w <> cudaSuccess) /\
  (forall i, (i < 8)%nat -> scheduled i w <> cudaSuccess -> scheduled i w ∈ errs) /\
  Forall (fun e => e <> cudaSuccess) errs.

(** * Properties *)

(** ** Jones and complex algebra *)

Section AlgebraFacts.
Context {F : Type} `{Scalar F}.

Lemma modify_lookup {V} (p : loc) (f : V -> V) (m : gmap loc V) (v : V) :
  m !! p = Some v -> modify p f m = Some (<[p := f v]> m).
Proof. intros Hp. unfold modify. by rewrite Hp. Qed.

Lemma modify_again {V} (p : loc) (f : V -> V) (m : gmap loc V) (v : V) :
  modify p f (<[p := v]> m) = Some (<[p := f v]> m).
Proof.
  unfold modify. rewrite lookup_insert_eq. by rewrite insert_insert_eq.
Qed.

(** C10. The in-place product [a *= b] leaves in [a] the value the pure
    product [a * b] has on the old value of [a]. *)
Theorem complex_mul_assign_agrees (a : loc) (b av : COMPLEX F)
    (m : gmap loc (COMPLEX F)) :
  m !! a = Some av ->
  complex_mul_assign a b m = Some (<[a := (av * b)%C]> m).
Proof.
  intros Ha. unfold complex_mul_assign. rewrite Ha. reflexivity.
Qed.

(** C2. [apply_beam(j1, j, j2)] replaces the matrix at [j] by the product
    [J1 . J . J2^H] of the reference matrix algebra, entry for entry, and
    changes nothing else; the arguments may alias. *)
Theorem apply_beam_is_sandwich (j1 j j2 : loc) (J1 J J2 : JONES F)
    (m : gmap loc (JONES F)) :
  m !! j1 = Some J1 -> m !! j = Some J -> m !! j2 = Some J2 ->
  apply_beam j1 j j2 m =
    Some (<[j := JONES_of_matrix
                   (matrix_mul (matrix_mul (matrix_of_JONES J1) (matrix_of_JONES J))
                               (matrix_conj_transpose (matrix_of_JONES J2)))]> m).
Proof.
  intros H1 Hj H2. unfold apply_beam.
  rewrite H1, Hj. simpl. rewrite H2. simpl.
  rewrite (modify_lookup _ _ _ _ Hj). simpl.
  repeat (rewrite modify_again; simpl).
  reflexivity.
Qed.
End AlgebraFacts.

(** The entries of the matrix a [JONES] stands for are its fields. *)
Lemma matrix_of_JONES_of_matrix {F} (a : matrix2 F) (i k : index2) :
  matrix_of_JONES (JONES_of_matrix a) i k = a i k.
Proof. destruct i, k; simpl; by destruct (a _ _). Qed.

(** In exact arithmetic the product is associative, so the bracketing of
    the sandwich is immaterial there. *)
Lemma matrix_mul_assoc_exact (a b c : matrix2 Z) (i k : index2) :
  matrix_mul (matrix_mul a b) c i k = matrix_mul a (matrix_mul b c) i k.
Proof.
  unfold matrix_mul, complex_mul, complex_add. simpl.
  f_equal; lia.
Qed.

Lemma apply_beam_witness :
  apply_beam 1%positive 2%positive 1%positive
    ({[ 1%positive := Build_JONES 1 2 3 4 5 6 7 8;
        2%positive := Build_JONES 1 0 0 1 0 (-1) 2 0 ]} : gmap loc (JONES Z)) =
  Some ({[ 1%positive := Build_JONES 1 2 3 4 5 6 7 8;
           2%positive := Build_JONES 51 0 119 (-4) 119 4 283 0 ]}).
Proof.
  rewrite (apply_beam_is_sandwich 1 2 1 (Build_JONES 1 2 3 4 5 6 7 8)
             (Build_JONES 1 0 0 1 0 (-1) 2 0) (Build_JONES 1 2 3 4 5 6 7 8)).
  - reflexivity.
  - reflexivity.
  - reflexivity.
  - reflexivity.
Defined.

Lemma complex_mul_assign_witness :
  complex_mul_assign 1%positive (MAKE_COMPLEX 1 2)
    ({[ 1%positive := MAKE_COMPLEX 3 4 ]} : gmap loc (COMPLEX Z)) =
  Some {[ 1%positive := MAKE_COMPLEX (-5) 10 ]}.
Proof.
  rewrite (complex_mul_assign_agrees 1 (MAKE_COMPLEX 1 2) (MAKE_COMPLEX 3 4)).
  - reflexivity.
  - reflexivity.
Defined.

(** ** Accumulating doubles into floats *)

(** C6. [a += b] for a [JonesF32] [a] and a [JonesF64] [b] leaves in each
    of the eight fields of [a] the binary32 sum of its old value and the
    field of [b] narrowed to binary32; nothing else in the store changes. *)
Theorem accumulate_narrows_each_field (a : loc) (b : JonesF64) (A : JonesF32)
    (m : gmap loc JonesF32) :
  m !! a = Some A ->
  jones_add_assign_F32_F64 a b m = Some (<[a := narrow_then_add A b]> m).
Proof.
  intros Ha. unfold jones_add_assign_F32_F64.
  rewrite (modify_lookup _ _ _ _ Ha). simpl.
  repeat (rewrite modify_again; simpl).
  reflexivity.
Qed.

Lemma accumulate_narrows_each_field_witness :
  jones_add_assign_F32_F64 1%positive (all_fields above_half_ulp)
    {[ 1%positive := all_fields one_f32 ]} =
  Some {[ 1%positive := all_fields one_f32 ]}.
Proof.
  rewrite (accumulate_narrows_each_field 1 (all_fields above_half_ulp)
             (all_fields one_f32)).
  - reflexivity.
  - reflexivity.
Defined.

(** The order of narrowing and adding shows in the result: adding in double
    precision and narrowing the sum would have given the next float. *)
Example narrowing_before_adding_matters :
  narrow_then_add (all_fields one_f32) (all_fields above_half_ulp) = all_fields one_f32 /\
  add_then_narrow (all_fields one_f32) (all_fields above_half_ulp) = all_fields after_one_f32.
Proof. split; vm_compute; reflexivity. Qed.

(** ** Rules for runs *)

Section RunRules.
Context `{Build}.
Local Open Scope run_scope.

Lemma wp_ret {A} U (a : A) w Q E : Q a w -> wp U (ret a) w Q E.
Proof. done. Qed.

Lemma wp_seq {A B} U (c : run A) (k : A -> run B) w (R : A -> world -> Prop) Q E :
  wp U c w R E ->
  (forall a w', R a w' -> wp U (k a) w' Q E) ->
  wp U (bind c k) w Q E.
Proof.
  unfold wp, bind. intros Hc Hk. destruct (c w) as [a w'| |]; [|done..].
  by apply Hk.
Qed.

Lemma wp_weaken {A} U (c : run A) w (Q Q' : A -> world -> Prop)
    (E E' : cudaError_t -> world -> Prop) :
  wp U c w Q E ->
  (forall a w', Q a w' -> Q' a w') ->
  (forall e w', E e w' -> E' e w') ->
  wp U c w Q' E'.
Proof.
  unfold wp. intros Hc HQ HE. destruct (c w); auto.
Qed.

(** The three ways a run can end, read off a [wp]. *)
Lemma wp_final {A} (c : run A) w (P : world -> Prop) :
  wp True c w (fun _ => P) (fun _ => P) ->
  forall w', final_world (c w) = Some w' -> P w'.
Proof.
  unfold wp, final_world. destruct (c w); intros HP w' Hw; by simplify_eq.
Qed.

Lemma wp_returns {A} (c : run A) w (Q : A -> world -> Prop) :
  wp False c w Q (fun _ _ => False) ->
  exists a w', c w = Returns a w' /\ Q a w'.
Proof.
  unfold wp. destruct (c w); intros HQ; try done. eauto.
Qed.

Lemma wp_defined {A} U (o : option A) w Q E :
  (forall a, o = Some a -> Q a w) -> (o = None -> U) -> wp U (defined o) w Q E.
Proof.
  intros HQ HU. destruct o; unfold wp; simpl; auto.
Qed.

Lemma wp_arrow {T} U (a : loc) (field : Addresses -> T) w Q E :
  (forall ctx, contexts w !! a = Some ctx -> Q (field ctx) w) ->
  (contexts w !! a = None -> U) ->
  wp U (arrow a field) w Q E.
Proof.
  intros HQ HU. unfold arrow, wp. destruct (contexts w !! a); simpl; auto.
Qed.

Lemma wp_next_result U w Q E :
  Q (hd cudaSuccess (pending w)) (pop w) -> wp U next_result w Q E.
Proof. done. Qed.

Lemma wp_cudaSoftCheck U code w Q E :
  (code = cudaSuccess -> Q tt w) ->
  (code <> cudaSuccess -> soft_check_exits = false ->
     Q tt (set_reported (reported w ++ [code]) w)) ->
  (code <> cudaSuccess -> soft_check_exits = true ->
     E code (set_reported (reported w ++ [code]) w)) ->
  wp U (cudaSoftCheck code) w Q E.
Proof.
  intros Hok Hsoft Hexit. unfold cudaSoftCheck, wp.
  destruct (decide (code = cudaSuccess)); simpl; [auto|].
  destruct soft_check_exits eqn:Hb; auto.
Qed.

Lemma wp_cudaMalloc U p size w Q E :
  (next_fails w -> Q (hd cudaSuccess (pending w), p) (pop w)) ->
  (forall b, ~ next_fails w -> device w !! b = None ->
     Q (cudaSuccess, Ptr b)
       (set_device (<[b := replicate (Z.to_nat size) Undef]> (device w)) (pop w))) ->
  wp U (cudaMalloc p size) w Q E.
Proof.
  intros Hfail Hok. unfold cudaMalloc, wp, bind, next_result.
  destruct (decide (hd cudaSuccess (pending w) = cudaSuccess)) as [He|He]; simpl.
  - apply Hok; [by intros []|]. simpl. apply not_elem_of_dom, is_fresh.
  - by apply Hfail.
Qed.

Lemma wp_cudaMemcpy U dst src count kind w Q E :
  (next_fails w -> Q (hd cudaSuccess (pending w)) (pop w)) ->
  (~ next_fails w -> count = 0 -> Q cudaSuccess (pop w)) ->
  (~ next_fails w -> count <> 0 ->
     fits count
       (block_of match kind with
                 | cudaMemcpyHostToDevice => dst
                 | cudaMemcpyDeviceToHost => src
                 end (device w)) = false ->
     Q cudaErrorInvalidValue (pop w)) ->
  (forall b old from,
     kind = cudaMemcpyHostToDevice -> dst = Ptr b -> ~ next_fails w -> count <> 0 ->
     device w !! b = Some old -> block_of src (host w) = Some from ->
     count <= Z.of_nat (length old) -> count <= Z.of_nat (length from) ->
     Q cudaSuccess (set_device (<[b := overwrite count from old]> (device w)) (pop w))) ->
  (forall b old from,
     kind = cudaMemcpyDeviceToHost -> dst = Ptr b -> ~ next_fails w -> count <> 0 ->
     host w !! b = Some old -> block_of src (device w) = Some from ->
     count <= Z.of_nat (length old) -> count <= Z.of_nat (length from) ->
     Q cudaSuccess (set_host (<[b := overwrite count from old]> (host w)) (pop w))) ->
  (count <> 0 ->
     fits count
       (block_of match kind with
                 | cudaMemcpyHostToDevice => src
                 | cudaMemcpyDeviceToHost => dst
                 end (host w)) = false ->
     U) ->
  wp U (cudaMemcpy dst src count kind) w Q E.
Proof.
  intros Hfail Hzero Hinv Hh2d Hd2h HU. unfold cudaMemcpy, wp, bind, next_result.
  destruct (decide (hd cudaSuccess (pending w) = cudaSuccess)) as [He|He]; simpl;
    [|by apply Hfail].
  assert (~ next_fails w) as Hnf by (by intros []).
  destruct (count =? 0) eqn:Hc; simpl; [apply Hzero; [done|lia]|].
  assert (count <> 0) as Hc' by lia.
  destruct kind; simpl.
  - destruct (fits count (block_of dst (device w))) eqn:Hfd; [|by apply Hinv].
    destruct (fits count (block_of src (host w))) eqn:Hfh; [|by apply HU].
    destruct dst as [|b]; simpl in *; [done|].
    destruct (device w !! b) as [old|] eqn:Hold; [|done].
    destruct (block_of src (host w)) as [from|] eqn:Hfrom; [|done].
    simpl in *. apply (Hh2d b old from); auto; lia.
  - destruct (fits count (block_of src (device w))) eqn:Hfd; [|by apply Hinv].
    destruct (fits count (block_of dst (host w))) eqn:Hfh; [|by apply HU].
    destruct dst as [|b]; simpl in *; [done|].
    destruct (host w !! b) as [old|] eqn:Hold; [|done].
    destruct (block_of src (device w)) as [from|] eqn:Hfrom; [|done].
    simpl in *. apply (Hd2h b old from); auto; lia.
Qed.

Lemma wp_cudaMemset U devPtr value count w Q E :
  (next_fails w -> Q (hd cudaSuccess (pending w)) (pop w)) ->
  (~ next_fails w -> count = 0 -> Q cudaSuccess (pop w)) ->
  (~ next_fails w -> count <> 0 -> fits count (block_of devPtr (device w)) = false ->
     Q cudaErrorInvalidValue (pop w)) ->
  (forall b old,
     devPtr = Ptr b -> ~ next_fails w -> count <> 0 ->
     device w !! b = Some old -> count <= Z.of_nat (length old) ->
     Q cudaSuccess
       (set_device
          (<[b := overwrite count (replicate (Z.to_nat count) (Byte (value mod 256))) old]>
             (device w)) (pop w))) ->
  wp U (cudaMemset devPtr value count) w Q E.
Proof.
  intros Hfail Hzero Hinv Hok. unfold cudaMemset, wp, bind, next_result.
  destruct (decide (hd cudaSuccess (pending w) = cudaSuccess)) as [He|He]; simpl;
    [|by apply Hfail].
  assert (~ next_fails w) as Hnf by (by intros []).
  destruct (count =? 0) eqn:Hc; simpl; [apply Hzero; [done|lia]|].
  assert (count <> 0) as Hc' by lia.
  destruct devPtr as [|b]; simpl; [by apply Hinv|].
  destruct (device w !! b) as [old|] eqn:Hold; [|apply Hinv; simpl; by rewrite ?Hold].
  destruct (count <=? Z.of_nat (length old)) eqn:Hlo;
    [|apply Hinv; simpl; by rewrite ?Hold].
  apply (Hok b old); auto; lia.
Qed.

Lemma wp_cudaFree U devPtr w Q E :
  (next_fails w -> Q (hd cudaSuccess (pending w)) (pop w)) ->
  (~ next_fails w -> devPtr = NULL -> Q cudaSuccess (pop w)) ->
  (forall b, ~ next_fails w -> devPtr = Ptr b -> device w !! b = None ->
     Q cudaErrorInvalidValue (pop w)) ->
  (forall b, ~ next_fails w -> devPtr = Ptr b -> is_Some (device w !! b) ->
     Q cudaSuccess (set_device (delete b (device w)) (pop w))) ->
  wp U (cudaFree devPtr) w Q E.
Proof.
  intros Hfail Hnull Hinv Hok. unfold cudaFree, wp, bind, next_result.
  destruct (decide (hd cudaSuccess (pending w) = cudaSuccess)) as [He|He]; simpl;
    [|by apply Hfail].
  assert (~ next_fails w) as Hnf by (by intros []).
  destruct devPtr as [|b]; simpl; [by apply Hnull|].
  destruct (device w !! b) eqn:Hb; [|by apply (Hinv b)].
  apply Hok; eauto.
Qed.

Lemma no_faults_next w : no_faults w -> ~ next_fails w.
Proof.
  unfold no_faults, next_fails. intros Hf Hn. apply Hn.
  destruct (pending w); simpl; [done|].
  by apply Forall_cons_1 in Hf as [-> _].
Qed.

Lemma no_faults_pop w : no_faults w -> no_faults (pop w).
Proof.
  unfold no_faults. simpl. destruct (pending w); simpl; [done|].
  intros Hf. by apply Forall_cons_1 in Hf as [_ ?].
Qed.
End RunRules.

(** ** Context creation under arbitrary failures *)

Section Creation.
Context `{Build}.
Local Open Scope run_scope.

Lemma kept_refl w : kept w w.
Proof.
  repeat split; auto. exists []. by rewrite app_nil_r.
Qed.

Lemma kept_pop w0 w : kept w0 w -> kept w0 (pop w).
Proof. done. Qed.

Lemma kept_report w0 w e : kept w0 w -> kept w0 (set_reported (reported w ++ [e]) w).
Proof.
  intros (Hh & Hc & [errs He] & Hd). repeat split; auto.
  exists (errs ++ [e]). simpl. rewrite He. by rewrite app_assoc.
Qed.

Lemma kept_insert_new w0 w b c :
  kept w0 w -> device w0 !! b = None ->
  kept w0 (set_device (<[b := c]> (device w)) (pop w)).
Proof.
  intros (Hh & Hc & He & Hd) Hb. repeat split; auto.
  intros b' Hb'. simpl. rewrite lookup_insert_ne; [by apply Hd|].
  intros ->. rewrite Hb in Hb'. by destruct Hb'.
Qed.

Lemma kept_dead w0 w b : kept w0 w -> device w !! b = None -> device w0 !! b = None.
Proof.
  intros (_ & _ & _ & Hd) Hb.
  destruct (device w0 !! b) eqn:Hb0; [|done].
  rewrite <- Hd, Hb in Hb0; [done|]. by rewrite Hb0.
Qed.

(** One buffer of [init_model]: allocate, check, copy, check. Whatever
    fails, nothing of the world [w0] the creation started from is released
    or overwritten, and the pointer handed on is null or a new buffer. *)
Lemma wp_allocate_and_copy {B} w0 size src (K : cudaError_t * ptr -> run B) w Q E :
  kept w0 w ->
  (forall r w', kept w0 w' -> keeps_allocations w w' -> null_or_new w0 w' (snd r) ->
     wp True (K r) w' Q E) ->
  (forall e w', soft_check_exits = true -> e <> cudaSuccess -> kept w0 w' -> E e w') ->
  wp True
    (r <- cudaMalloc NULL size ;;
     cudaSoftCheck (fst r) ;;
     e <- cudaMemcpy (snd r) src size cudaMemcpyHostToDevice ;;
     cudaSoftCheck e ;;
     K r) w Q E.
Proof.
  intros Hw HK HE.
  eapply wp_seq with
    (R := fun r w' => kept w0 w' /\ keeps_allocations w w' /\ null_or_new w0 w' (snd r)).
  { apply wp_cudaMalloc.
    - intros _. split; [done|]. split; [by intros b Hb|]. by left.
    - intros b _ Hb. split; [|split].
      + apply kept_insert_new; [done|]. by eapply kept_dead.
      + intros b' Hb'. simpl. destruct (decide (b = b')) as [->|].
        * by rewrite lookup_insert_eq.
        * by rewrite lookup_insert_ne.
      + right. exists b. simpl. split; [done|]. split; [by eapply kept_dead|].
        by rewrite lookup_insert_eq. }
  intros r w1 (Hk1 & Ha1 & Hp1).
  eapply wp_seq with (R := fun _ w' => kept w0 w' /\ keeps_allocations w w' /\
                                       null_or_new w0 w' (snd r)).
  { apply wp_cudaSoftCheck; intros; auto using kept_report. }
  intros _ w2 (Hk2 & Ha2 & Hp2).
  eapply wp_seq with (R := fun _ w' => kept w0 w' /\ keeps_allocations w w' /\
                                       null_or_new w0 w' (snd r)).
  { apply wp_cudaMemcpy; try done.
    intros b old from _ Hdst _ _ Hold Hfrom _ _.
    destruct Hp2 as [Hnull|(b' & Hb' & Hdead & Hlive)]; [congruence|].
    assert (b' = b) as -> by congruence.
    split; [by apply kept_insert_new|]. split.
    - intros b'' Hb''. simpl. destruct (decide (b = b'')) as [->|].
      + by rewrite lookup_insert_eq.
      + rewrite lookup_insert_ne; [|done]. by apply Ha2.
    - right. exists b. simpl. rewrite lookup_insert_eq. eauto. }
  intros e w3 (Hk3 & Ha3 & Hp3).
  eapply wp_seq with (R := fun _ w' => kept w0 w' /\ keeps_allocations w w' /\
                                       null_or_new w0 w' (snd r)).
  { apply wp_cudaSoftCheck; intros; auto using kept_report. }
  intros _ w4 (Hk4 & Ha4 & Hp4). by apply HK.
Qed.

Lemma null_or_new_later w0 w w' p :
  null_or_new w0 w p -> keeps_allocations w w' -> null_or_new w0 w' p.
Proof.
  intros [->|(b & -> & Hdead & Hlive)] Hkeep; [by left|].
  right. exists b. auto.
Qed.

Lemma int_mul_Some a b n : int_mul a b = Some n -> n = a * b.
Proof. unfold int_mul. case_match; congruence. Qed.

Lemma init_model_wp (num_baselines num_freqs num_tiles sbf_l sbf_n : Z)
    (sbf_c sbf_dx : spec_float)
    (uvws freqs shapelet_basis_values d_fee_coeffs : ptr)
    (num_fee_beam_coeffs num_unique_fee_tiles num_unique_fee_freqs : Z)
    (d_beam_jones_map d_beam_norm_jones vis : ptr) (w : world) :
  wp True
    (init_model num_baselines num_freqs num_tiles sbf_l sbf_n sbf_c sbf_dx
       uvws freqs shapelet_basis_values d_fee_coeffs
       num_fee_beam_coeffs num_unique_fee_tiles num_unique_fee_freqs
       d_beam_jones_map d_beam_norm_jones vis) w
    (fun ctx w' =>
       kept w w' /\ Forall (null_or_new w w') (buffers ctx) /\
       counts ctx = [num_freqs; num_baselines * num_freqs; num_tiles; sbf_l; sbf_n])
    (fun e w' => soft_check_exits = true /\ e <> cudaSuccess /\ kept w w').
Proof.
  unfold init_model.
  apply (wp_allocate_and_copy w); [apply kept_refl| |by auto].
  intros r1 w1 Hk1 Ha1 Hp1.
  apply (wp_allocate_and_copy w); [done| |by auto].
  intros r2 w2 Hk2 Ha2 Hp2.
  eapply wp_seq with (R := fun _ w' => w' = w2);
    [by apply wp_defined|]. intros sbf_l_n ? ->.
  apply (wp_allocate_and_copy w); [done| |by auto].
  intros r3 w3 Hk3 Ha3 Hp3.
  eapply wp_seq with (R := fun n w' => n = num_baselines * num_freqs /\ w' = w3).
  { apply wp_defined; [|done]. intros n Hn. by apply int_mul_Some in Hn. }
  intros nv ? [-> ->].
  apply (wp_allocate_and_copy w); [done| |by auto].
  intros r4 w4 Hk4 Ha4 Hp4.
  apply wp_ret. split; [done|]. split; [|done].
  unfold buffers. simpl.
  repeat apply Forall_cons_2; [..|apply Forall_nil_2]; eauto 6 using null_or_new_later.
Qed.
End Creation.

(** ** Context creation against the runtime's schedule *)

Lemma overwrite_fresh (count : Z) (from : list memval) :
  overwrite count from (replicate (Z.to_nat count) Undef) = take (Z.to_nat count) from.
Proof.
  unfold overwrite. rewrite drop_replicate, Nat.sub_diag. simpl. apply app_nil_r.
Qed.

Lemma scheduled_later (n : nat) (w w' : world) (i : nat) :
  pending w' = drop n (pending w) -> scheduled i w' = scheduled (n + i) w.
Proof. unfold scheduled. intros ->. by rewrite drop_drop. Qed.

Lemma pending_pop (n : nat) (w w' : world) :
  pending w' = drop n (pending w) -> pending (pop w') = drop (S n) (pending w).
Proof.
  simpl. intros ->. replace (S n) with (n + 1)%nat by lia.
  rewrite <- drop_drop. by destruct (drop n (pending w)).
Qed.

Lemma not_failed (e : cudaError_t) : ~ e <> cudaSuccess -> e = cudaSuccess.
Proof. intros He. by destruct (decide (e = cudaSuccess)). Qed.

Section CreationByCalls.
Context `{Build}.
Local Open Scope run_scope.

Lemma wp_allocate_and_copy_scheduled {B} size src (K : cudaError_t * ptr -> run B) w Q E :
  (forall r c errs w',
     allocated (snd r) src size c errs w w' -> as_scheduled (snd r) errs w w' ->
     wp True (K r) w' Q E) ->
  (forall e w', stopped_in_group e w w' -> E e w') ->
  wp True
    (r <- cudaMalloc NULL size ;;
     cudaSoftCheck (fst r) ;;
     e <- cudaMemcpy (snd r) src size cudaMemcpyHostToDevice ;;
     cudaSoftCheck e ;;
     K r) w Q E.
Proof.
  intros HK HE.
  eapply wp_seq with (R := fun r w1 =>
    host w1 = host w /\ contexts w1 = contexts w /\ reported w1 = reported w /\
    pending w1 = drop 1 (pending w) /\
    ((fst r = scheduled 0 w /\ fst r <> cudaSuccess /\ snd r = NULL /\
      device w1 = device w) \/
     (scheduled 0 w = cudaSuccess /\ fst r = cudaSuccess /\
      exists b, snd r = Ptr b /\ device w !! b = None /\
        device w1 = <[b := replicate (Z.to_nat size) Undef]> (device w)))).
  { apply wp_cudaMalloc.
    - intros Hf. split; [done|]. split; [done|]. split; [done|].
      split; [by apply (pending_pop 0 w w)|]. by left.
    - intros b Hnf Hb. split; [done|]. split; [done|]. split; [done|].
      split; [by apply (pending_pop 0 w w)|]. right.
      split; [by apply not_failed|]. split; [done|]. by exists b. }
  intros r w1 (Hh1 & Hc1 & Hr1 & Hp1 &
               [(Hm & He & Hp & Hd1)|(Hs0 & He & b & Hp & Hb & Hd1)]).
  - (* the allocation failed *)
    eapply wp_seq with (R := fun _ w2 =>
      soft_check_exits = false /\ host w2 = host w /\ contexts w2 = contexts w /\
      reported w2 = reported w ++ [fst r] /\ device w2 = device w /\
      pending w2 = drop 1 (pending w)).
    { apply wp_cudaSoftCheck; [done| |].
      - intros _ Hsoft. simpl. repeat split; auto. by rewrite Hr1.
      - intros _ Hsoft. apply HE. split; [done|]. split; [done|]. simpl.
        split; [done|]. split; [done|]. split; [by rewrite Hr1|]. by left. }
    intros _ w2 (Hsoft & Hh2 & Hc2 & Hr2 & Hd2 & Hp2).
    pose proof (scheduled_later 1 w w2 0 Hp2) as H21. simpl in H21.
    eapply wp_seq with (R := fun e w3 =>
      host w3 = host w /\ contexts w3 = contexts w /\
      reported w3 = reported w ++ [fst r] /\ device w3 = device w /\
      pending w3 = drop 2 (pending w) /\
      (scheduled 1 w <> cudaSuccess -> e = scheduled 1 w)).
    { rewrite Hp. apply wp_cudaMemcpy.
      - intros Hf. repeat split; auto. by apply pending_pop.
      - intros Hnf _. repeat split; auto; [by apply pending_pop|].
        intros Hx. destruct Hnf. unfold next_fails. by rewrite <- H21 in Hx.
      - intros Hnf _ _. repeat split; auto; [by apply pending_pop|].
        intros Hx. destruct Hnf. unfold next_fails. by rewrite <- H21 in Hx.
      - intros; discriminate.
      - intros; discriminate.
      - done. }
    intros e w3 (Hh3 & Hc3 & Hr3 & Hd3 & Hp3 & He3).
    eapply wp_seq with (R := fun _ w4 =>
      host w4 = host w /\ contexts w4 = contexts w /\ device w4 = device w /\
      pending w4 = drop 2 (pending w) /\
      exists errs, reported w4 = reported w ++ fst r :: errs /\
        Forall (fun e => e <> cudaSuccess) errs /\
        (e <> cudaSuccess -> e ∈ errs)).
    { apply wp_cudaSoftCheck.
      - intros ->. repeat split; auto. exists []. by repeat split.
      - intros Hne _. simpl. repeat split; auto. exists [e].
        split; [by rewrite Hr3, <- app_assoc|]. split; [by repeat constructor|].
        intros _. by apply list_elem_of_singleton.
      - intros _ Hs. congruence. }
    intros _ w4 (Hh4 & Hc4 & Hd4 & Hp4 & errs & Hr4 & Hall & Hin).
    apply (HK r [] (fst r :: errs)); rewrite Hp.
    + repeat split; simpl; auto; try done. intros Hs. congruence.
    + split; [done|]. split; [split; [intros _; by rewrite <- Hm|done]|]. split.
      * intros [|[|i]] Hi Hx; [rewrite <- Hm; by left| |lia].
        right. rewrite <- (He3 Hx). apply Hin. by rewrite (He3 Hx).
      * by constructor.
  - (* the allocation succeeded *)
    eapply wp_seq with (R := fun _ w2 => w2 = w1); [by apply wp_cudaSoftCheck|].
    intros _ ? ->. rewrite Hp.
    pose proof (scheduled_later 1 w w1 0 Hp1) as H21. simpl in H21.
    eapply wp_seq with (R := fun e w3 =>
      host w3 = host w /\ contexts w3 = contexts w /\ reported w3 = reported w /\
      pending w3 = drop 2 (pending w) /\
      (e <> cudaSuccess -> e = scheduled 1 w) /\
      (scheduled 1 w <> cudaSuccess -> e = scheduled 1 w) /\
      exists c, device w3 = <[b := c]> (device w) /\
                (e = cudaSuccess -> c = host_bytes src size w)).
    { apply wp_cudaMemcpy.
      - intros Hf. repeat split; auto; [by apply pending_pop|].
        eexists. split; [exact Hd1|]. intros Hs. by destruct Hf.
      - intros Hnf ->. repeat split; auto; [by apply pending_pop|done| |].
        + intros Hx. destruct Hnf. unfold next_fails. by rewrite <- H21 in Hx.
        + eexists. split; [exact Hd1|]. done.
      - intros _ _ Hfits. exfalso. simpl in Hfits.
        rewrite Hd1, lookup_insert_eq in Hfits. simpl in Hfits.
        rewrite length_replicate in Hfits. apply Z.leb_gt in Hfits. lia.
      - intros b' old from _ [= <-] Hnf _ Hold Hfrom _ _.
        rewrite Hd1, lookup_insert_eq in Hold. injection Hold as <-.
        repeat split; auto; [by apply pending_pop|done| |].
        + intros Hx. destruct Hnf. unfold next_fails. by rewrite <- H21 in Hx.
        + eexists. simpl. rewrite Hd1, insert_insert_eq.
          split; [done|]. intros _. rewrite overwrite_fresh.
          unfold host_bytes. by rewrite <- Hh1, Hfrom.
      - intros; discriminate.
      - done. }
    intros e w3 (Hh3 & Hc3 & Hr3 & Hp3 & He3 & Hs3 & c & Hd3 & Hc).
    eapply wp_seq with (R := fun _ w4 =>
      host w4 = host w /\ contexts w4 = contexts w /\ device w4 = <[b := c]> (device w) /\
      pending w4 = drop 2 (pending w) /\
      exists errs, reported w4 = reported w ++ errs /\
        (soft_check_exits = true -> errs = []) /\
        (errs = [] -> c = host_bytes src size w) /\
        Forall (fun e => e <> cudaSuccess) errs /\
        (e <> cudaSuccess -> e ∈ errs)).
    { apply wp_cudaSoftCheck.
      - intros He'. repeat split; auto. exists []. rewrite app_nil_r.
        repeat split; auto. intros Hx. by destruct Hx.
      - intros Hne Hsoft. simpl. repeat split; auto. exists [e].
        rewrite Hr3. split; [done|]. split; [congruence|]. split; [done|].
        split; [by repeat constructor|]. intros _. by apply list_elem_of_singleton.
      - intros Hne Hsoft. apply HE. split; [done|]. split; [done|]. simpl.
        split; [done|]. split; [done|]. split; [by rewrite Hr3|]. right.
        split; [done|]. split; [by apply He3|]. by exists b, c. }
    intros _ w4 (Hh4 & Hc4 & Hd4 & Hp4 & errs & Hr4 & Hsoft & Hc' & Hall & Hin).
    apply (HK r c errs); rewrite Hp.
    + repeat split; simpl; auto; done.
    + split; [done|]. split; [split; [done|intros Hx; by destruct Hx]|]. split; [|done].
      intros [|[|i]] Hi Hx; [done| |lia].
      rewrite <- (Hs3 Hx). apply Hin. by rewrite (Hs3 Hx).
Qed.

Lemma quiet_after_refl (w : world) : quiet_after 0 w w.
Proof. repeat split; auto; intros; lia. Qed.

Lemma quiet_group p src size c errs (w w' : world) :
  soft_check_exits = true ->
  allocated p src size c errs w w' -> as_scheduled p errs w w' ->
  errs = [] /\ scheduled 0 w = cudaSuccess /\ scheduled 1 w = cudaSuccess /\
  exists b, p = Ptr b /\ device w !! b = None /\ device w' = <[b := c]> (device w).
Proof.
  intros Hsoft (_ & _ & _ & Hs & Hdead & Hd & _ & _) (_ & Hnull & Hin & _).
  specialize (Hs Hsoft) as ->.
  assert (forall i, (i < 2)%nat -> scheduled i w = cudaSuccess) as Hok.
  { intros i Hi. apply not_failed. intros Hx.
    by apply Hin, elem_of_nil in Hx. }
  split; [done|]. split; [apply Hok; lia|]. split; [apply Hok; lia|].
  destruct p as [|b].
  - destruct Hnull as [Hnull _]. destruct Hnull; [done|]. apply Hok. lia.
  - by exists b.
Qed.

Lemma quiet_after_step k p src size c errs (w0 w w' : world) :
  soft_check_exits = true -> quiet_after k w0 w ->
  allocated p src size c errs w w' -> as_scheduled p errs w w' ->
  quiet_after (S k) w0 w'.
Proof.
  intros Hsoft (Hh & Hc & Hr & Hp & Hok & Hkeep & Hsize) Ha Hs.
  destruct (quiet_group _ _ _ _ _ _ _ Hsoft Ha Hs) as (-> & H0 & H1 & b & -> & Hb & Hd).
  destruct Ha as (Hh' & Hc' & Hr' & _). destruct Hs as (Hp' & _).
  rewrite app_nil_r in Hr'.
  split; [congruence|]. split; [congruence|]. split; [congruence|]. split.
  { rewrite Hp', Hp, drop_drop. f_equal. lia. }
  split.
  { intros j Hj. destruct (decide (j < 2 * k)%nat) as [Hlt|Hge]; [by apply Hok|].
    destruct (decide (j = 2 * k)%nat) as [->|Hne].
    - rewrite <- H0, (scheduled_later _ _ _ 0 Hp). f_equal. lia.
    - rewrite <- H1, (scheduled_later _ _ _ 1 Hp). f_equal. lia. }
  split.
  { intros b' Hb'. rewrite Hd. rewrite <- (Hkeep b' Hb').
    apply lookup_insert_ne. intros ->. rewrite <- (Hkeep b' Hb'), Hb in Hb'.
    by destruct Hb'. }
  rewrite Hd, map_size_insert_None by done. lia.
Qed.

Lemma quiet_after_stop k e (w0 w w' : world) :
  quiet_after k w0 w -> stopped_in_group e w w' ->
  exists i, (i < 2 * k + 2)%nat /\ stopped_at i e w0 w'.
Proof.
  intros (Hh & Hc & Hr & Hp & Hok & Hkeep & Hsize)
         (Hsoft & He & Hh' & Hc' & Hr' & [[Hs Hd]|(Hs0 & Hs & b & c & Hb & Hd)]).
  - exists (2 * k)%nat. split; [lia|].
    split; [done|]. split.
    { rewrite Hs, (scheduled_later _ _ _ 0 Hp). f_equal. lia. }
    split; [done|]. split; [done|]. split; [congruence|]. split; [congruence|].
    split; [congruence|]. split; [by rewrite Hd|].
    rewrite Hd, Hsize. f_equal.
    replace (2 * k + 1)%nat with (1 + k * 2)%nat by lia.
    by rewrite Nat.div_add.
  - exists (2 * k + 1)%nat. split; [lia|].
    split; [done|]. split.
    { by rewrite Hs, (scheduled_later _ _ _ 1 Hp). }
    split; [done|]. split.
    { intros j Hj. destruct (decide (j = 2 * k)%nat) as [->|Hne]; [|apply Hok; lia].
      rewrite <- Hs0, (scheduled_later _ _ _ 0 Hp). f_equal. lia. }
    split; [congruence|]. split; [congruence|].
    split; [congruence|]. split.
    { intros b' Hb'. rewrite Hd. rewrite <- (Hkeep b' Hb').
      apply lookup_insert_ne. intros ->. rewrite <- (Hkeep b' Hb'), Hb in Hb'.
      by destruct Hb'. }
    rewrite Hd, map_size_insert_None, Hsize by done.
    replace (2 * k + 1 + 1)%nat with (0 + (k + 1) * 2)%nat by lia.
    rewrite Nat.div_add by done. simpl. lia.
Qed.

Lemma init_model_scheduled (num_baselines num_freqs num_tiles sbf_l sbf_n : Z)
    (sbf_c sbf_dx : spec_float)
    (uvws freqs shapelet_basis_values d_fee_coeffs : ptr)
    (num_fee_beam_coeffs num_unique_fee_tiles num_unique_fee_freqs : Z)
    (d_beam_jones_map d_beam_norm_jones vis : ptr) (w : world) :
  wp True
    (init_model num_baselines num_freqs num_tiles sbf_l sbf_n sbf_c sbf_dx
       uvws freqs shapelet_basis_values d_fee_coeffs
       num_fee_beam_coeffs num_unique_fee_tiles num_unique_fee_freqs
       d_beam_jones_map d_beam_norm_jones vis) w
    (fun ctx w' =>
       exists p1 p2 p3 p4 c1 c2 c3 c4 errs,
         buffers ctx = [p1; p2; p3; p4] /\
         creation_chain p1 p2 p3 p4 c1 c2 c3 c4 errs w w' /\
         creation_as_scheduled p1 p2 p3 p4 errs w w')
    (fun e w' => exists i, (i < 8)%nat /\ stopped_at i e w w').
Proof.
  unfold init_model.
  pose proof (quiet_after_refl w) as Hq0.
  apply wp_allocate_and_copy_scheduled.
  2:{ intros e w' Hstop.
      destruct (quiet_after_stop _ _ _ _ _ Hq0 Hstop) as (i & Hi & Hat).
      exists i. split; [lia|done]. }
  intros r1 c1 e1 w1 Ha1 Hs1.
  apply wp_allocate_and_copy_scheduled.
  2:{ intros e w' Hstop. pose proof Hstop as (Hsoft & _).
      pose proof (quiet_after_step _ _ _ _ _ _ _ _ _ Hsoft Hq0 Ha1 Hs1) as Hq1.
      destruct (quiet_after_stop _ _ _ _ _ Hq1 Hstop) as (i & Hi & Hat).
      exists i. split; [lia|done]. }
  intros r2 c2 e2 w2 Ha2 Hs2.
  eapply wp_seq with (R := fun n w' => n = sbf_l * sbf_n /\ w' = w2).
  { apply wp_defined; [|done]. intros n Hn. by apply int_mul_Some in Hn. }
  intros ? ? [-> ->].
  apply wp_allocate_and_copy_scheduled.
  2:{ intros e w' Hstop. pose proof Hstop as (Hsoft & _).
      pose proof (quiet_after_step _ _ _ _ _ _ _ _ _ Hsoft Hq0 Ha1 Hs1) as Hq1.
      pose proof (quiet_after_step _ _ _ _ _ _ _ _ _ Hsoft Hq1 Ha2 Hs2) as Hq2.
      destruct (quiet_after_stop _ _ _ _ _ Hq2 Hstop) as (i & Hi & Hat).
      exists i. split; [lia|done]. }
  intros r3 c3 e3 w3 Ha3 Hs3.
  eapply wp_seq with (R := fun n w' => n = num_baselines * num_freqs /\ w' = w3).
  { apply wp_defined; [|done]. intros n Hn. by apply int_mul_Some in Hn. }
  intros ? ? [-> ->].
  apply wp_allocate_and_copy_scheduled.
  2:{ intros e w' Hstop. pose proof Hstop as (Hsoft & _).
      pose proof (quiet_after_step _ _ _ _ _ _ _ _ _ Hsoft Hq0 Ha1 Hs1) as Hq1.
      pose proof (quiet_after_step _ _ _ _ _ _ _ _ _ Hsoft Hq1 Ha2 Hs2) as Hq2.
      pose proof (quiet_after_step _ _ _ _ _ _ _ _ _ Hsoft Hq2 Ha3 Hs3) as Hq3.
      destruct (quiet_after_stop _ _ _ _ _ Hq3 Hstop) as (i & Hi & Hat).
      exists i. split; [lia|done]. }
  intros r4 c4 e4 w4 Ha4 Hs4.
  apply wp_ret.
  destruct Ha1 as (Hh1 & Hc1 & Hr1 & Hf1 & Hdead1 & Hd1 & _ & _).
  destruct Ha2 as (Hh2 & Hc2 & Hr2 & Hf2 & Hdead2 & Hd2 & _ & _).
  destruct Ha3 as (Hh3 & Hc3 & Hr3 & Hf3 & Hdead3 & Hd3 & _ & _).
  destruct Ha4 as (Hh4 & Hc4 & Hr4 & Hf4 & Hdead4 & Hd4 & _ & _).
  destruct Hs1 as (Hp1 & Hn1 & Hin1 & Hall1).
  destruct Hs2 as (Hp2 & Hn2 & Hin2 & Hall2).
  destruct Hs3 as (Hp3 & Hn3 & Hin3 & Hall3).
  destruct Hs4 as (Hp4 & Hn4 & Hin4 & Hall4).
  assert (pending w2 = drop 4 (pending w)) as Hp2' by (by rewrite Hp2, Hp1, drop_drop).
  assert (pending w3 = drop 6 (pending w)) as Hp3' by (by rewrite Hp3, Hp2', drop_drop).
  pose proof (scheduled_later 2 w w1 0 Hp1) as S20.
  pose proof (scheduled_later 2 w w1 1 Hp1) as S21.
  pose proof (scheduled_later 4 w w2 0 Hp2') as S40.
  pose proof (scheduled_later 4 w w2 1 Hp2') as S41.
  pose proof (scheduled_later 6 w w3 0 Hp3') as S60.
  pose proof (scheduled_later 6 w w3 1 Hp3') as S61.
  simpl in S20, S21, S40, S41, S60, S61.
  exists (snd r1), (snd r2), (snd r3), (snd r4), c1, c2, c3, c4, (e1 ++ e2 ++ e3 ++ e4).
  split; [done|]. split.
  { unfold creation_chain. rewrite <- Hd1, <- Hd2, <- Hd3.
    repeat split; try congruence.
    - rewrite Hr4, Hr3, Hr2, Hr1. by rewrite <- !app_assoc.
    - intros Hs. by rewrite Hf1, Hf2, Hf3, Hf4. }
  split; [by rewrite Hp4, Hp3', drop_drop|].
  split; [done|].
  split; [by rewrite <- S20|].
  split; [by rewrite <- S40|].
  split; [by rewrite <- S60|].
  split.
  { intros i Hi Hx. rewrite !elem_of_app.
    destruct i as [|[|[|[|[|[|[|[|i]]]]]]]]; [..|lia].
    - left. by apply Hin1; [lia|].
    - left. by apply Hin1; [lia|].
    - right; left. rewrite <- S20 in Hx |- *. by apply Hin2; [lia|].
    - right; left. rewrite <- S21 in Hx |- *. by apply Hin2; [lia|].
    - right; right; left.
      rewrite <- S40 in Hx |- *. by apply Hin3; [lia|].
    - right; right; left.
      rewrite <- S41 in Hx |- *. by apply Hin3; [lia|].
    - right; right; right.
      rewrite <- S60 in Hx |- *. by apply Hin4; [lia|].
    - right; right; right.
      rewrite <- S61 in Hx |- *. by apply Hin4; [lia|]. }
  by rewrite !Forall_app.
Qed.
Lemma wp_allocate_and_copy_defined {B} size src (K : cudaError_t * ptr -> run B) w Q :
  readable src size w ->
  (forall r w', host w' = host w -> wp False (K r) w' Q (fun _ _ => True)) ->
  wp False
    (r <- cudaMalloc NULL size ;;
     cudaSoftCheck (fst r) ;;
     e <- cudaMemcpy (snd r) src size cudaMemcpyHostToDevice ;;
     cudaSoftCheck e ;;
     K r) w Q (fun _ _ => True).
Proof.
  intros Hread HK.
  eapply wp_seq with (R := fun _ w1 => host w1 = host w).
  { apply wp_cudaMalloc; intros; done. }
  intros r w1 Hh1.
  eapply wp_seq with (R := fun _ w2 => host w2 = host w).
  { apply wp_cudaSoftCheck; intros; done. }
  intros _ w2 Hh2.
  eapply wp_seq with (R := fun _ w3 => host w3 = host w).
  { apply wp_cudaMemcpy; try (intros; done).
    intros Hne Hfits. destruct Hread as [?|Hread]; [done|].
    rewrite Hh2 in Hfits. congruence. }
  intros e w3 Hh3.
  eapply wp_seq with (R := fun _ w4 => host w4 = host w).
  { apply wp_cudaSoftCheck; intros; done. }
  intros _ w4 Hh4. by apply HK.
Qed.

Lemma init_model_is_defined (num_baselines num_freqs num_tiles sbf_l sbf_n : Z)
    (sbf_c sbf_dx : spec_float)
    (uvws freqs shapelet_basis_values d_fee_coeffs : ptr)
    (num_fee_beam_coeffs num_unique_fee_tiles num_unique_fee_freqs : Z)
    (d_beam_jones_map d_beam_norm_jones vis : ptr) (w : world) :
  init_model_defined num_baselines num_freqs sbf_l sbf_n
    uvws freqs shapelet_basis_values vis w ->
  wp False
    (init_model num_baselines num_freqs num_tiles sbf_l sbf_n sbf_c sbf_dx
       uvws freqs shapelet_basis_values d_fee_coeffs
       num_fee_beam_coeffs num_unique_fee_tiles num_unique_fee_freqs
       d_beam_jones_map d_beam_norm_jones vis) w
    (fun _ _ => True) (fun _ _ => True).
Proof.
  intros (Hr1 & Hr2 & (ln & Hln & Hr3) & (nv & Hnv & Hr4)).
  unfold init_model, readable in *.
  apply wp_allocate_and_copy_defined; [done|]. intros r1 w1 Hh1.
  apply wp_allocate_and_copy_defined; [unfold readable; by rewrite Hh1|].
  intros r2 w2 Hh2.
  rewrite Hln. eapply wp_seq with (R := fun n w' => n = ln /\ w' = w2); [done|].
  intros ? ? [-> ->].
  apply wp_allocate_and_copy_defined; [unfold readable; by rewrite Hh2, Hh1|].
  intros r3 w3 Hh3.
  rewrite Hnv. eapply wp_seq with (R := fun n w' => n = nv /\ w' = w3); [done|].
  intros ? ? [-> ->].
  apply wp_allocate_and_copy_defined; [unfold readable; by rewrite Hh3, Hh2, Hh1|].
  intros r4 w4 Hh4. by apply wp_ret.
Qed.
End CreationByCalls.

Section CreationClaims.
Context `{Build}.
Variables (num_baselines num_freqs num_tiles sbf_l sbf_n : Z).
Variables (sbf_c sbf_dx : spec_float).
Variables (uvws freqs shapelet_basis_values d_fee_coeffs : ptr).
Variables (num_fee_beam_coeffs num_unique_fee_tiles num_unique_fee_freqs : Z).
Variables (d_beam_jones_map d_beam_norm_jones vis : ptr).

Let create : run Addresses :=
  init_model num_baselines num_freqs num_tiles sbf_l sbf_n sbf_c sbf_dx
    uvws freqs shapelet_basis_values d_fee_coeffs
    num_fee_beam_coeffs num_unique_fee_tiles num_unique_fee_freqs
    d_beam_jones_map d_beam_norm_jones vis.

(** C1, as the code has it. [init_model] hands the result of each of its
    eight runtime calls (four allocations, each followed by its copy) to
    [cudaSoftCheck], and releases nothing.

    However it ends, host memory and every device buffer that was live
    before are as they were; when it returns, each of the four buffer
    pointers of the context is null or a buffer allocated by this call and
    still live; and only a fatal check, on a failed call, keeps it from
    returning a context.

    When it returns: the reports have grown by a list of failures that
    holds the result of every call the runtime failed (and is empty in a
    build whose check is fatal); the pointer of a buffer is null exactly
    when the runtime failed its allocation; and device memory is the
    earlier memory with exactly the buffers that are not null added, each
    one new when it was allocated: a buffer whose copy failed, or whose
    successors failed, is still allocated.

    When a fatal check ends the process, at call [i]: that call is the
    first one the runtime failed, its result is the one report added, and
    device memory holds the earlier buffers unchanged and [(i + 1) / 2]
    more, one for each allocation made before call [i].

    And it has no status to give back: when the products of the counts do
    not overflow and the host arrays hold the bytes to copy, the call is
    defined, and in a build whose check is not fatal it returns a context
    whatever the runtime failed. *)
Theorem init_model_releases_nothing (w : world) :
  (forall w', final_world (create w) = Some w' -> kept w w') /\
  (forall ctx w', create w = Returns ctx w' -> Forall (null_or_new w w') (buffers ctx)) /\
  (forall e w', create w = Exits e w' -> soft_check_exits = true /\ e <> cudaSuccess) /\
  (forall ctx w', create w = Returns ctx w' ->
     exists p1 p2 p3 p4 c1 c2 c3 c4 errs,
       buffers ctx = [p1; p2; p3; p4] /\
       creation_chain p1 p2 p3 p4 c1 c2 c3 c4 errs w w' /\
       creation_as_scheduled p1 p2 p3 p4 errs w w') /\
  (forall e w', create w = Exits e w' ->
     exists i, (i < 8)%nat /\ stopped_at i e w w') /\
  (init_model_defined num_baselines num_freqs sbf_l sbf_n
     uvws freqs shapelet_basis_values vis w ->
   create w <> Undefined /\
   (soft_check_exits = false -> exists ctx w', create w = Returns ctx w')).
Proof.
  pose proof (init_model_is_defined num_baselines num_freqs num_tiles sbf_l sbf_n
    sbf_c sbf_dx uvws freqs shapelet_basis_values d_fee_coeffs
    num_fee_beam_coeffs num_unique_fee_tiles num_unique_fee_freqs
    d_beam_jones_map d_beam_norm_jones vis w) as Hdef.
  pose proof (init_model_wp num_baselines num_freqs num_tiles sbf_l sbf_n sbf_c sbf_dx
    uvws freqs shapelet_basis_values d_fee_coeffs
    num_fee_beam_coeffs num_unique_fee_tiles num_unique_fee_freqs
    d_beam_jones_map d_beam_norm_jones vis w) as Hwp.
  pose proof (init_model_scheduled num_baselines num_freqs num_tiles sbf_l sbf_n
    sbf_c sbf_dx uvws freqs shapelet_basis_values d_fee_coeffs
    num_fee_beam_coeffs num_unique_fee_tiles num_unique_fee_freqs
    d_beam_jones_map d_beam_norm_jones vis w) as Hsched.
  unfold wp in Hwp, Hsched, Hdef. fold create in Hwp, Hsched, Hdef.
  destruct (create w) as [ctx w1|e w1|]; simpl.
  - destruct Hwp as (Hk & Hb & _). repeat apply conj.
    + intros w' [= <-]. exact Hk.
    + intros ctx' w' [= <- <-]. exact Hb.
    + intros e w' [=].
    + intros ctx' w' [= <- <-]. exact Hsched.
    + intros e w' [=].
    + intros _. split; [discriminate|]. intros _. by exists ctx, w1.
  - destruct Hwp as (Hx & He & Hk). repeat apply conj.
    + intros w' [= <-]. exact Hk.
    + intros ctx' w' [=].
    + intros e' w' [= <- <-]. split; assumption.
    + intros ctx' w' [=].
    + intros e' w' [= <- <-]. exact Hsched.
    + intros _. split; [discriminate|]. intros Hsoft. congruence.
  - repeat apply conj; try (intros; discriminate).
    intros Hd. destruct (Hdef Hd).
Qed.
End CreationClaims.

(** C1, as claimed, fails: when the second allocation fails, the first
    buffer stays allocated, whether the check lets [init_model] return its
    context or ends the process. *)
Lemma init_model_leaks_on_failure :
  ~ fails_without_leaking
      (@sample_init_model soft_build (sample_world second_malloc_fails))
      (sample_world second_malloc_fails) /\
  ~ fails_without_leaking
      (@sample_init_model fatal_build (sample_world second_malloc_fails))
      (sample_world second_malloc_fails).
Proof.
  split; intros Hclaim.
  - edestruct Hclaim as [Hfails _]; [vm_compute; reflexivity|vm_compute; discriminate|].
    eapply Hfails. vm_compute. reflexivity.
  - edestruct Hclaim as [_ Hfreed]; [vm_compute; reflexivity|vm_compute; discriminate|].
    assert (is_Some (device (sample_world second_malloc_fails) !! 10%positive))
      as [l Hl] by (apply Hfreed; vm_compute; eauto).
    vm_compute in Hl. discriminate.
Qed.

Lemma init_model_releases_nothing_witness :
  exists ctx w',
    @sample_init_model soft_build (sample_world second_malloc_fails) = Returns ctx w' /\
    kept (sample_world second_malloc_fails) w' /\
    Forall (null_or_new (sample_world second_malloc_fails) w') (buffers ctx) /\
    exists p1 p2 p3 p4 c1 c2 c3 c4 errs,
      buffers ctx = [p1; p2; p3; p4] /\
      @creation_chain soft_build p1 p2 p3 p4 c1 c2 c3 c4 errs
        (sample_world second_malloc_fails) w' /\
      creation_as_scheduled p1 p2 p3 p4 errs (sample_world second_malloc_fails) w'.
Proof.
  destruct (@init_model_releases_nothing soft_build 1 2 3 1 1
              (S754_zero false) (S754_zero false) (Ptr 1) (Ptr 2) (Ptr 3) (Ptr 9)
              0 0 0 NULL NULL (Ptr 4) (sample_world second_malloc_fails))
    as (Hkept & Hbuffers & _ & Hsched & _).
  eexists _, _. split; [vm_compute; reflexivity|]. split; [|split].
  - apply Hkept. vm_compute. reflexivity.
  - apply Hbuffers. vm_compute. reflexivity.
  - apply Hsched. vm_compute. reflexivity.
Defined.

(** ** Context creation when the runtime does not fail *)

Section CreationSucceeds.
Context `{Build}.
Local Open Scope run_scope.

Lemma wp_allocate_and_copy_ok {B} size src (K : cudaError_t * ptr -> run B) w Q E :
  no_faults w -> readable src size w -> 0 <= size ->
  (forall b w', device w !! b = None -> device_set b (host_bytes src size w) w w' ->
     wp False (K (cudaSuccess, Ptr b)) w' Q E) ->
  wp False
    (r <- cudaMalloc NULL size ;;
     cudaSoftCheck (fst r) ;;
     e <- cudaMemcpy (snd r) src size cudaMemcpyHostToDevice ;;
     cudaSoftCheck e ;;
     K r) w Q E.
Proof.
  intros Hnf Hread Hsize HK.
  pose (R := fun c (r : cudaError_t * ptr) w' =>
    exists b, r = (cudaSuccess, Ptr b) /\ device w !! b = None /\ device_set b c w w').
  eapply wp_seq with (R := R (replicate (Z.to_nat size) Undef)).
  { apply wp_cudaMalloc.
    - intros Hf. by apply no_faults_next in Hf.
    - intros b _ Hb. exists b. repeat split; auto. by apply no_faults_pop. }
  intros r w1 (b & -> & Hb & Hh1 & Hc1 & Hr1 & Hnf1 & Hd1). simpl.
  eapply wp_seq with (R := fun _ w' => w' = w1).
  { apply wp_cudaSoftCheck; done. }
  intros _ ? ->.
  eapply wp_seq with (R := fun e w' => e = cudaSuccess /\
                                       device_set b (host_bytes src size w) w w').
  { apply wp_cudaMemcpy.
    - intros Hf. by apply no_faults_next in Hf.
    - intros _ ->. split; [done|]. repeat split; simpl; try done.
      by apply no_faults_pop.
    - intros _ Hne Hfits. simpl in Hfits. rewrite Hd1, lookup_insert_eq in Hfits.
      simpl in Hfits. rewrite length_replicate in Hfits.
      apply Z.leb_gt in Hfits. lia.
    - intros b' old from _ [= <-] _ _ Hold Hfrom _ Hlen. split; [done|].
      rewrite Hd1, lookup_insert_eq in Hold. injection Hold as <-.
      repeat split; simpl; try done; [by apply no_faults_pop|].
      rewrite Hd1, insert_insert_eq, overwrite_fresh.
      unfold host_bytes. rewrite <- Hh1, Hfrom. done.
    - done.
    - intros Hne Hfits. destruct Hread as [?|Hread]; [done|].
      rewrite Hh1 in Hfits. congruence. }
  intros e w2 [-> Hset].
  eapply wp_seq with (R := fun _ w' => w' = w2).
  { apply wp_cudaSoftCheck; done. }
  intros _ ? ->. by apply HK.
Qed.

Lemma size_t_mul_nonneg a b : 0 <= size_t_mul a b.
Proof. unfold size_t_mul, SIZE_MODULUS. apply Z.mod_pos_bound. lia. Qed.

Lemma readable_same_host p count w w' :
  host w' = host w -> readable p count w -> readable p count w'.
Proof. unfold readable. by intros ->. Qed.

Lemma host_bytes_same_host p count w w' :
  host w' = host w -> host_bytes p count w' = host_bytes p count w.
Proof. unfold host_bytes. by intros ->. Qed.

(** When the runtime has no failure in store and the arguments are well
    formed, [init_model] returns a context of four new, distinct device
    buffers holding the bytes of the host arrays, with the counts it was
    given, and touches nothing else. *)
Lemma init_model_succeeds (num_baselines num_freqs num_tiles sbf_l sbf_n : Z)
    (sbf_c sbf_dx : spec_float)
    (uvws freqs shapelet_basis_values d_fee_coeffs : ptr)
    (num_fee_beam_coeffs num_unique_fee_tiles num_unique_fee_freqs : Z)
    (d_beam_jones_map d_beam_norm_jones vis : ptr) (w : world) :
  no_faults w ->
  init_model_defined num_baselines num_freqs sbf_l sbf_n
    uvws freqs shapelet_basis_values vis w ->
  exists b1 b2 b3 b4 w',
    init_model num_baselines num_freqs num_tiles sbf_l sbf_n sbf_c sbf_dx
      uvws freqs shapelet_basis_values d_fee_coeffs
      num_fee_beam_coeffs num_unique_fee_tiles num_unique_fee_freqs
      d_beam_jones_map d_beam_norm_jones vis w =
    Returns
      (Build_Addresses num_freqs (num_baselines * num_freqs) num_tiles sbf_l sbf_n
         sbf_c sbf_dx (Ptr b1) (Ptr b2) (Ptr b3) d_fee_coeffs
         num_fee_beam_coeffs num_unique_fee_tiles num_unique_fee_freqs
         d_beam_jones_map d_beam_norm_jones (Ptr b4) vis) w' /\
    NoDup [b1; b2; b3; b4] /\
    Forall (fun b => device w !! b = None) [b1; b2; b3; b4] /\
    host w' = host w /\ contexts w' = contexts w /\ reported w' = reported w /\
    no_faults w' /\
    device w' =
      device_created num_baselines num_freqs sbf_l sbf_n
        uvws freqs shapelet_basis_values vis b1 b2 b3 b4 w.
Proof.
  intros Hnf (Hr1 & Hr2 & (ln & Hln & Hr3) & (nv & Hnv & Hr4)).
  apply int_mul_Some in Hln as Eln. apply int_mul_Some in Hnv as Env. subst ln nv.
  match goal with |- exists b1 b2 b3 b4 w', ?c w = Returns (@?a b1 b2 b3 b4) w' /\ @?P b1 b2 b3 b4 w' =>
    cut (exists ctx w', c w = Returns ctx w' /\
           exists b1 b2 b3 b4, ctx = a b1 b2 b3 b4 /\ P b1 b2 b3 b4 w')
  end.
  { intros (ctx & w' & Hrun & b1 & b2 & b3 & b4 & -> & HP). by exists b1, b2, b3, b4, w'. }
  apply wp_returns. unfold init_model.
  apply wp_allocate_and_copy_ok; [done|done|apply size_t_mul_nonneg|].
  intros b1 w1 Hb1 (Hh1 & Hc1 & Hp1 & Hnf1 & Hd1).
  apply wp_allocate_and_copy_ok;
    [done|by eapply readable_same_host|apply size_t_mul_nonneg|].
  intros b2 w2 Hb2 (Hh2 & Hc2 & Hp2 & Hnf2 & Hd2).
  rewrite Hln. eapply wp_seq with (R := fun n w' => n = sbf_l * sbf_n /\ w' = w2); [done|].
  intros ? ? [-> ->].
  apply wp_allocate_and_copy_ok;
    [done|eapply readable_same_host; [|done]; congruence|apply size_t_mul_nonneg|].
  intros b3 w3 Hb3 (Hh3 & Hc3 & Hp3 & Hnf3 & Hd3).
  rewrite Hnv.
  eapply wp_seq with (R := fun n w' => n = num_baselines * num_freqs /\ w' = w3); [done|].
  intros ? ? [-> ->].
  apply wp_allocate_and_copy_ok;
    [done|eapply readable_same_host; [|done]; congruence|apply size_t_mul_nonneg|].
  intros b4 w4 Hb4 (Hh4 & Hc4 & Hp4 & Hnf4 & Hd4).
  apply wp_ret. exists b1, b2, b3, b4. simpl.
  rewrite Hd1 in Hb2. rewrite Hd2, Hd1 in Hb3. rewrite Hd3, Hd2, Hd1 in Hb4.
  apply lookup_insert_None in Hb2 as [Hb2 Hn21].
  apply lookup_insert_None in Hb3 as [Hb3 Hn32].
  apply lookup_insert_None in Hb3 as [Hb3 Hn31].
  apply lookup_insert_None in Hb4 as [Hb4 Hn43].
  apply lookup_insert_None in Hb4 as [Hb4 Hn42].
  apply lookup_insert_None in Hb4 as [Hb4 Hn41].
  split; [done|]. split.
  { repeat (apply NoDup_cons_2;
              [rewrite ?not_elem_of_cons; repeat split; try congruence;
               apply not_elem_of_nil|]).
    apply NoDup_nil_2. }
  split; [by repeat constructor|].
  repeat split; try congruence.
  unfold device_created. rewrite Hd4, Hd3, Hd2, Hd1.
  rewrite !(host_bytes_same_host _ _ w w3) by congruence.
  rewrite !(host_bytes_same_host _ _ w w2) by congruence.
  rewrite !(host_bytes_same_host _ _ w w1) by congruence.
  reflexivity.
Qed.
End CreationSucceeds.

(** ** Read-back *)

Section ReadBack.
Context `{Build}.
Local Open Scope run_scope.

Lemma overwrite_same (count : Z) (l : list memval) :
  overwrite count (take (Z.to_nat count) l) l = l.
Proof.
  unfold overwrite. rewrite take_take, Nat.min_id. apply take_drop.
Qed.

Lemma overwrite_twice (count : Z) (from old : list memval) :
  count <= Z.of_nat (length from) ->
  overwrite count from (overwrite count from old) = overwrite count from old.
Proof.
  intros Hlen. unfold overwrite. f_equal.
  rewrite drop_app_length'; [done|]. rewrite length_take. lia.
Qed.

Lemma fits_host_bytes p count w :
  0 <= count -> count <> 0 -> readable p count w ->
  exists l, block_of p (host w) = Some l /\ count <= Z.of_nat (length l) /\
            host_bytes p count w = take (Z.to_nat count) l /\
            length (host_bytes p count w) = Z.to_nat count.
Proof.
  intros Hpos Hne [?|Hfits]; [done|]. unfold fits in Hfits. unfold host_bytes.
  destruct (block_of p (host w)) as [l|]; [|done]. simpl.
  apply Z.leb_le in Hfits. exists l. repeat split; auto.
  rewrite length_take. lia.
Qed.

(** C3. When the runtime does not fail and the arguments are well formed,
    creating a context and reading back at once returns, leaves host
    memory (so the visibility buffer) exactly as it was, and the device
    visibility buffer holds the bytes of the host one. *)
Theorem create_then_copy_vis_roundtrip
    (num_baselines num_freqs num_tiles sbf_l sbf_n : Z) (sbf_c sbf_dx : spec_float)
    (uvws freqs shapelet_basis_values d_fee_coeffs : ptr)
    (num_fee_beam_coeffs num_unique_fee_tiles num_unique_fee_freqs : Z)
    (d_beam_jones_map d_beam_norm_jones vis : ptr) (a : loc) (w : world) :
  no_faults w ->
  init_model_defined num_baselines num_freqs sbf_l sbf_n
    uvws freqs shapelet_basis_values vis w ->
  exists ctx w1 w2,
    init_model num_baselines num_freqs num_tiles sbf_l sbf_n sbf_c sbf_dx
      uvws freqs shapelet_basis_values d_fee_coeffs
      num_fee_beam_coeffs num_unique_fee_tiles num_unique_fee_freqs
      d_beam_jones_map d_beam_norm_jones vis w = Returns ctx w1 /\
    (keep_context a ctx ;; copy_vis a) w1 = Returns tt w2 /\
    host w2 = host w /\
    reported w2 = reported w /\
    block_of (d_vis ctx) (device w2) =
      Some (host_bytes vis
              (size_t_mul (size_t_of_int (num_baselines * num_freqs)) sizeof_JonesF32) w).
Proof.
  intros Hnf Hdef.
  destruct (init_model_succeeds num_baselines num_freqs num_tiles sbf_l sbf_n
              sbf_c sbf_dx uvws freqs shapelet_basis_values d_fee_coeffs
              num_fee_beam_coeffs num_unique_fee_tiles num_unique_fee_freqs
              d_beam_jones_map d_beam_norm_jones vis w Hnf Hdef)
    as (b1 & b2 & b3 & b4 & w1 & Hrun & Hnd & Hfresh & Hh & Hc & Hr & Hnf1 & Hd).
  destruct Hdef as (_ & _ & _ & (nv & Hnv & Hread)).
  apply int_mul_Some in Hnv as ->.
  set (size := size_t_mul (size_t_of_int (num_baselines * num_freqs)) sizeof_JonesF32) in *.
  match type of Hrun with _ = Returns ?c _ => set (ctx := c) in * end.
  exists ctx, w1.
  cut (exists u w2, (keep_context a ctx ;; copy_vis a) w1 = Returns u w2 /\
         (host w2 = host w /\ reported w2 = reported w /\
          device w2 !! b4 = Some (host_bytes vis size w))).
  { intros ([] & w2 & Hcopy & Hpost). exists w2. split; [exact Hrun|]. by split. }
  apply wp_returns.
  assert (device w1 !! b4 = Some (host_bytes vis size w)) as Hb4.
  { rewrite Hd. unfold device_created. by rewrite lookup_insert_eq. }
  eapply wp_seq with (R := fun _ w' =>
    host w' = host w /\ reported w' = reported w /\ no_faults w' /\
    device w' = device w1 /\ contexts w' !! a = Some ctx).
  { unfold keep_context, wp. simpl. rewrite lookup_insert_eq. by repeat split. }
  intros _ w1' (Hh' & Hr' & Hnf' & Hd' & Ha').
  unfold copy_vis.
  eapply wp_seq with (R := fun p w' => p = vis /\ w' = w1');
    [apply wp_arrow; [intros c Hc'; rewrite Ha' in Hc'; by injection Hc' as <-|congruence]|]. intros ? ? [-> ->].
  eapply wp_seq with (R := fun p w' => p = Ptr b4 /\ w' = w1');
    [apply wp_arrow; [intros c Hc'; rewrite Ha' in Hc'; by injection Hc' as <-|congruence]|]. intros ? ? [-> ->].
  eapply wp_seq with (R := fun n w' => n = num_baselines * num_freqs /\ w' = w1');
    [apply wp_arrow; [intros c Hc'; rewrite Ha' in Hc'; by injection Hc' as <-|congruence]|]. intros ? ? [-> ->].
  fold size.
  eapply wp_seq with (R := fun e w' => e = cudaSuccess /\
    host w' = host w /\ reported w' = reported w /\
    device w' !! b4 = Some (host_bytes vis size w)).
  { apply wp_cudaMemcpy.
    - intros Hf. by apply no_faults_next in Hf.
    - intros _ _. simpl. rewrite Hd'. by repeat split.
    - intros _ Hne Hfits. simpl in Hfits. rewrite Hd', Hb4 in Hfits. simpl in Hfits.
      destruct (fits_host_bytes vis size w) as (l & _ & _ & _ & Hlen);
        [apply size_t_mul_nonneg|done|done|].
      rewrite Hlen in Hfits. apply Z.leb_gt in Hfits.
      pose proof (size_t_mul_nonneg (size_t_of_int (num_baselines * num_freqs))
                    sizeof_JonesF32). fold size in H0. lia.
    - intros; discriminate.
    - intros b old from _ -> _ Hne Hold Hfrom _ _. simpl in Hfrom.
      rewrite Hd', Hb4 in Hfrom. injection Hfrom as <-.
      simpl. rewrite Hd'. split; [done|]. split; [|by split].
      destruct (fits_host_bytes (Ptr b) size w) as (l & Hl & _ & -> & _);
        [apply size_t_mul_nonneg|done|done|].
      simpl in Hl. rewrite Hh' in Hold.
      assert (l = old) as -> by congruence.
      rewrite overwrite_same, Hh'. by apply insert_id.
    - intros Hne Hfits. destruct Hread as [?|Hread]; [done|].
      rewrite Hh' in Hfits. congruence. }
  intros e w2 (-> & Hh2 & Hr2 & Hd2).
  apply wp_cudaSoftCheck; done.
Qed.

Lemma wp_ends {A} (c : run A) w (P : world -> Prop) :
  wp False c w (fun _ => P) (fun _ => P) ->
  exists w', final_world (c w) = Some w' /\ P w'.
Proof.
  unfold wp, final_world. destruct (c w); intros HP; try done; eauto.
Qed.

Lemma report_changes (l : list cudaError_t) e : l ++ [e] <> l.
Proof.
  intros Heq. apply (f_equal length) in Heq. rewrite length_app in Heq. simpl in Heq. lia.
Qed.

Lemma length_overwrite (count : Z) (from old : list memval) :
  count <= Z.of_nat (length from) -> count <= Z.of_nat (length old) ->
  length (overwrite count from old) = length old.
Proof.
  intros Hf Ho. unfold overwrite. rewrite length_app, length_take, length_drop. lia.
Qed.

(** What a read-back that reported nothing has done: nothing if the
    buffer is empty, and otherwise copied the device buffer over the host
    one. *)
Lemma copy_vis_quiet (a : loc) (w : world) :
  wp True (copy_vis a) w
    (fun _ w1 =>
       reported w1 = reported w ->
       exists ctx, contexts w !! a = Some ctx /\ contexts w1 = contexts w /\
         device w1 = device w /\
         let n := size_t_mul (size_t_of_int (num_vis ctx)) sizeof_JonesF32 in
         (n = 0 /\ host w1 = host w) \/
         (n <> 0 /\ exists b old from,
            host_vis ctx = Ptr b /\ block_of (d_vis ctx) (device w) = Some from /\
            n <= Z.of_nat (length from) /\ host w !! b = Some old /\
            n <= Z.of_nat (length old) /\
            host w1 = <[b := overwrite n from old]> (host w)))
    (fun _ _ => True).
Proof.
  unfold copy_vis.
  eapply wp_seq with (R := fun p w' => w' = w /\
    exists ctx, contexts w !! a = Some ctx /\ p = host_vis ctx);
    [apply wp_arrow; [by eauto|done]|]. intros dst ? [-> (ctx & Hctx & ->)].
  eapply wp_seq with (R := fun p w' => w' = w /\ p = d_vis ctx);
    [apply wp_arrow; [intros c Hc; rewrite Hctx in Hc; by injection Hc as <-|done]|].
  intros src ? [-> ->].
  eapply wp_seq with (R := fun p w' => w' = w /\ p = num_vis ctx);
    [apply wp_arrow; [intros c Hc; rewrite Hctx in Hc; by injection Hc as <-|done]|].
  intros n ? [-> ->].
  set (n := size_t_mul (size_t_of_int (num_vis ctx)) sizeof_JonesF32).
  eapply wp_seq with (R := fun e w1 =>
    reported w1 = reported w /\
    (e = cudaSuccess ->
       contexts w1 = contexts w /\ device w1 = device w /\
       ((n = 0 /\ host w1 = host w) \/
        (n <> 0 /\ exists b old from,
           host_vis ctx = Ptr b /\ block_of (d_vis ctx) (device w) = Some from /\
           n <= Z.of_nat (length from) /\ host w !! b = Some old /\
           n <= Z.of_nat (length old) /\
           host w1 = <[b := overwrite n from old]> (host w))))).
  { apply wp_cudaMemcpy.
    - intros Hf. split; [done|]. intros He. by destruct Hf.
    - intros _ Hz. split; [done|]. intros _. repeat split; auto.
    - intros _ _ _. split; [done|]. intros [=].
    - intros; discriminate.
    - intros b old from _ Hb _ Hne Hold Hfrom Hlo Hlf. split; [done|]. intros _.
      repeat split; auto. right. split; [done|]. exists b, old, from. by repeat split.
    - done. }
  intros e w1 [Hr1 Hok].
  apply wp_cudaSoftCheck.
  - intros -> _. destruct Hok as (Hc1 & Hd1 & Hcases); [done|]. exists ctx. by repeat split.
  - intros _ _. simpl. rewrite Hr1. intros Hrep. by apply report_changes in Hrep.
  - done.
Qed.

(** [copy_vis] writes neither device memory nor the context. *)
Lemma copy_vis_reads_device (a : loc) (w : world) :
  wp True (copy_vis a) w
    (fun _ w' => device w' = device w /\ contexts w' = contexts w)
    (fun _ w' => device w' = device w /\ contexts w' = contexts w).
Proof.
  unfold copy_vis.
  eapply wp_seq with (R := fun _ w' => w' = w); [by apply wp_arrow|]. intros dst ? ->.
  eapply wp_seq with (R := fun _ w' => w' = w); [by apply wp_arrow|]. intros src ? ->.
  eapply wp_seq with (R := fun _ w' => w' = w); [by apply wp_arrow|]. intros n ? ->.
  eapply wp_seq with (R := fun _ w' => device w' = device w /\ contexts w' = contexts w).
  { apply wp_cudaMemcpy; done. }
  intros e w1 [Hd1 Hc1].
  apply wp_cudaSoftCheck; done.
Qed.

(** C8. [copy_vis] never writes device memory (nor the context); and after
    a read-back that returned without an error, a second read-back ends
    (whatever the runtime does to it) with host memory exactly as the first
    one left it. *)
Theorem copy_vis_twice (a : loc) (w : world) :
  (forall w', final_world (copy_vis a w) = Some w' ->
     device w' = device w /\ contexts w' = contexts w) /\
  (forall w1, copy_vis a w = Returns tt w1 -> reported w1 = reported w ->
     exists w2, final_world (copy_vis a w1) = Some w2 /\
                host w2 = host w1 /\ device w2 = device w1).
Proof.
  split.
  { apply wp_final, copy_vis_reads_device. }
  intros w1 Hrun Hquiet.
  pose proof (copy_vis_quiet a w) as Hfirst. unfold wp in Hfirst. rewrite Hrun in Hfirst.
  destruct (Hfirst Hquiet) as (ctx & Hctx & Hc1 & Hd1 & Hcases). clear Hfirst.
  set (n := size_t_mul (size_t_of_int (num_vis ctx)) sizeof_JonesF32) in *.
  apply wp_ends. unfold copy_vis.
  assert (contexts w1 !! a = Some ctx) as Hctx1 by (by rewrite Hc1).
  eapply wp_seq with (R := fun p w' => w' = w1 /\ p = host_vis ctx);
    [apply wp_arrow; [intros c Hc; rewrite Hctx1 in Hc; by injection Hc as <-|congruence]|].
  intros dst ? [-> ->].
  eapply wp_seq with (R := fun p w' => w' = w1 /\ p = d_vis ctx);
    [apply wp_arrow; [intros c Hc; rewrite Hctx1 in Hc; by injection Hc as <-|congruence]|].
  intros src ? [-> ->].
  eapply wp_seq with (R := fun p w' => w' = w1 /\ p = num_vis ctx);
    [apply wp_arrow; [intros c Hc; rewrite Hctx1 in Hc; by injection Hc as <-|congruence]|].
  intros ? ? [-> ->]. fold n.
  eapply wp_seq with (R := fun _ w2 => host w2 = host w1 /\ device w2 = device w1).
  { apply wp_cudaMemcpy; try done.
    - intros b' old' from' _ Hb' _ Hne Hold' Hfrom' _ _. simpl. split; [|done].
      destruct Hcases as [[Hz _]|(_ & b & old & from & Hb & Hfrom & Hlf & Hold & Hlo & Hh1)];
        [done|].
      assert (b' = b) as -> by congruence.
      rewrite Hd1, Hfrom in Hfrom'. injection Hfrom' as <-.
      rewrite Hh1, lookup_insert_eq in Hold'. injection Hold' as <-.
      rewrite overwrite_twice by done. rewrite Hh1. by rewrite insert_insert_eq.
    - intros Hne Hfits. simpl in Hfits.
      destruct Hcases as [[Hz _]|(_ & b & old & from & Hb & Hfrom & Hlf & Hold & Hlo & Hh1)];
        [done|].
      rewrite Hb in Hfits. simpl in Hfits. rewrite Hh1, lookup_insert_eq in Hfits.
      simpl in Hfits. rewrite length_overwrite in Hfits by done.
      apply Z.leb_gt in Hfits. lia. }
  intros e w2 [Hh2 Hd2].
  apply wp_cudaSoftCheck; done.
Qed.
End ReadBack.

(** ** Clearing *)

Section Clearing.
Context `{Build}.
Local Open Scope run_scope.

Lemma size_of_vis (n : Z) :
  0 < n <= INT_MAX -> size_t_mul (size_t_of_int n) sizeof_JonesF32 = 32 * n.
Proof.
  unfold size_t_mul, size_t_of_int, sizeof_JonesF32, SIZE_MODULUS, INT_MAX.
  intros Hn. rewrite (Z.mod_small n) by lia. rewrite Z.mod_small by lia. lia.
Qed.

Lemma vis_elem_zeroed (n i : nat) (rest : list memval) :
  (32 * i + 32 <= n)%nat ->
  vis_elem (replicate n (Byte 0) ++ rest) i = Some zero_JonesF32.
Proof.
  intros Hi. unfold vis_elem.
  rewrite drop_app_le by (rewrite length_replicate; lia).
  rewrite drop_replicate.
  rewrite take_app_le by (rewrite length_replicate; lia).
  rewrite take_replicate, Nat.min_l by lia.
  reflexivity.
Qed.

(** What [clear_vis] does to a live context: it returns, having written
    nothing but, when the buffer is not empty and the runtime does not
    fail, zeros over the [num_vis] elements. *)
Lemma clear_vis_wp (a : loc) (ctx : Addresses) (b : loc) (old : list memval) (w : world) :
  contexts w !! a = Some ctx -> d_vis ctx = Ptr b -> device w !! b = Some old ->
  size_t_mul (size_t_of_int (num_vis ctx)) sizeof_JonesF32 <= Z.of_nat (length old) ->
  let n := size_t_mul (size_t_of_int (num_vis ctx)) sizeof_JonesF32 in
  let zeroed := overwrite n (replicate (Z.to_nat n) (Byte 0)) old in
  wp False (clear_vis a) w
    (fun _ w1 =>
       host w1 = host w /\ contexts w1 = contexts w /\ reported w1 = reported w /\
       (device w1 = device w \/ device w1 = <[b := zeroed]> (device w)) /\
       (~ next_fails w -> n <> 0 -> device w1 = <[b := zeroed]> (device w)))
    (fun _ _ => False).
Proof.
  intros Hctx Hb Hold Hlen n zeroed. unfold clear_vis.
  eapply wp_seq with (R := fun p w' => w' = w /\ p = Ptr b);
    [apply wp_arrow; [intros c Hc; rewrite Hctx in Hc; injection Hc as <-; by split|congruence]|].
  intros ? ? [-> ->].
  eapply wp_seq with (R := fun p w' => w' = w /\ p = num_vis ctx);
    [apply wp_arrow; [intros c Hc; rewrite Hctx in Hc; by injection Hc as <-|congruence]|].
  intros ? ? [-> ->]. fold n.
  eapply wp_seq; [|intros e w1 Hpost; apply wp_ret; exact Hpost].
  apply wp_cudaMemset.
  - intros Hf. repeat split; auto. by intros Hnf.
  - intros _ Hz. repeat split; auto. by intros _ Hnz.
  - intros _ Hne Hfits. simpl in Hfits. rewrite Hold in Hfits. simpl in Hfits.
    apply Z.leb_gt in Hfits. lia.
  - intros b' old' [= <-] _ _ Hold' _. rewrite Hold in Hold'. injection Hold' as <-.
    repeat split; auto.
Qed.

(** C4. On a live context whose buffer has the size the context says,
    when the runtime does not fail the call, [clear_vis] returns with every
    one of the [num_vis] visibilities of the device buffer equal to zero in
    all eight fields; and a second [clear_vis], whatever the runtime does
    to it, returns with the device, host memory, context and reports as the
    first one left them. *)
Theorem clear_vis_zeroes_and_is_idempotent (a : loc) (ctx : Addresses) (b : loc)
    (old : list memval) (w : world) :
  contexts w !! a = Some ctx -> INT_MIN <= num_vis ctx <= INT_MAX ->
  d_vis ctx = Ptr b -> device w !! b = Some old ->
  size_t_mul (size_t_of_int (num_vis ctx)) sizeof_JonesF32 <= Z.of_nat (length old) ->
  ~ next_fails w ->
  exists w1, clear_vis a w = Returns tt w1 /\
    (forall i : nat, Z.of_nat i < num_vis ctx ->
       device_vis ctx w1 i = Some zero_JonesF32) /\
    exists w2, clear_vis a w1 = Returns tt w2 /\
      device w2 = device w1 /\ host w2 = host w1 /\
      contexts w2 = contexts w1 /\ reported w2 = reported w1.
Proof.
  intros Hctx Hint Hb Hold Hlen Hnf.
  set (n := size_t_mul (size_t_of_int (num_vis ctx)) sizeof_JonesF32) in *.
  set (zeros := replicate (Z.to_nat n) (Byte 0)).
  assert (0 <= n) as Hn0 by apply size_t_mul_nonneg.
  assert (Z.of_nat (length zeros) = n) as Hzl
    by (unfold zeros; rewrite length_replicate; lia).
  destruct (wp_returns _ _ _ (clear_vis_wp a ctx b old w Hctx Hb Hold Hlen))
    as ([] & w1 & Hrun1 & Hh1 & Hc1 & Hr1 & _ & Hz1).
  fold n zeros in Hz1. specialize (Hz1 Hnf).
  assert (device w1 = <[b := overwrite n zeros old]> (device w)) as Hd1.
  { destruct (decide (n = 0)) as [Hz|Hnz]; [|by apply Hz1].
    pose proof (wp_returns _ _ _ (clear_vis_wp a ctx b old w Hctx Hb Hold Hlen))
      as ([] & w1' & Hrun1' & _ & _ & _ & Hd1' & _).
    rewrite Hrun1 in Hrun1'. injection Hrun1' as <-. fold n zeros in Hd1'.
    assert (overwrite n zeros old = old) as Hsame
      by (unfold overwrite; rewrite Hz; simpl; done).
    rewrite Hsame in *. rewrite insert_id in * by done. by destruct Hd1'. }
  exists w1. split; [done|]. split.
  { intros i Hi. unfold device_vis. rewrite Hb. simpl.
    rewrite Hd1, lookup_insert_eq. simpl.
    assert (n = 32 * num_vis ctx) as Hn by (apply size_of_vis; lia).
    unfold overwrite, zeros. rewrite take_replicate, Nat.min_id.
    apply vis_elem_zeroed. lia. }
  assert (device w1 !! b = Some (overwrite n zeros old)) as Hold1
    by (by rewrite Hd1, lookup_insert_eq).
  assert (n <= Z.of_nat (length (overwrite n zeros old))) as Hlen1
    by (rewrite length_overwrite; lia).
  assert (contexts w1 !! a = Some ctx) as Hctx1 by (by rewrite Hc1).
  destruct (wp_returns _ _ _
              (clear_vis_wp a ctx b (overwrite n zeros old) w1 Hctx1 Hb Hold1 Hlen1))
    as ([] & w2 & Hrun2 & Hh2 & Hc2 & Hr2 & Hd2 & _).
  exists w2. repeat split; auto.
  fold n zeros in Hd2. rewrite overwrite_twice in Hd2 by lia.
  destruct Hd2 as [Hd2|Hd2]; [done|].
  rewrite Hd2, Hd1. by rewrite insert_insert_eq.
Qed.
End Clearing.

(** ** Destruction *)

Section Destruction.
Context `{Build}.
Local Open Scope run_scope.

Lemma wp_free (ctx : Addresses) (p : ptr) (w0 w : world) E :
  p ∈ buffers ctx -> but_for_buffers ctx w0 w ->
  wp True (cudaFree p) w (fun _ => but_for_buffers ctx w0) E.
Proof.
  intros Hp (Hh & Hc & Hd).
  apply wp_cudaFree; try done.
  intros b _ Hb _. repeat split; auto. intros b' Hb'. simpl.
  rewrite lookup_delete_ne; [by apply Hd|]. intros ->. by rewrite Hb in Hp.
Qed.

Lemma wp_arrow_live {T} (a : loc) (ctx : Addresses) (field : Addresses -> T) (w0 w : world) E :
  contexts w0 !! a = Some ctx -> but_for_buffers ctx w0 w ->
  wp True (arrow a field) w (fun p w' => w' = w /\ p = field ctx) E.
Proof.
  intros Hctx (Hh & Hc & Hd).
  apply wp_arrow; [|done]. intros c Hc'. rewrite Hc, Hctx in Hc'. by injection Hc' as <-.
Qed.

(** One [cudaSoftCheck(cudaFree(a->field))] of [destroy], for a field that
    is one of the four buffers, followed by the rest. *)
Lemma wp_free_buffer_then {B} (a : loc) (ctx : Addresses) (field : Addresses -> ptr)
    (k : run B) (w0 w : world) Q E :
  contexts w0 !! a = Some ctx -> field ctx ∈ buffers ctx ->
  but_for_buffers ctx w0 w ->
  (forall w', but_for_buffers ctx w0 w' -> wp True k w' Q E) ->
  (forall e w', but_for_buffers ctx w0 w' -> E e w') ->
  wp True (p <- arrow a field ;; e <- cudaFree p ;; cudaSoftCheck e ;; k) w Q E.
Proof.
  intros Hctx Hfield Hw Hk HE.
  eapply wp_seq; [by eapply wp_arrow_live|]. intros ? ? [-> ->].
  eapply wp_seq; [by eapply wp_free|]. intros e w1 Hw1.
  eapply wp_seq with (R := fun _ => but_for_buffers ctx w0).
  { apply wp_cudaSoftCheck; intros; auto. }
  intros _ w2 Hw2. by apply Hk.
Qed.

Lemma destroy_wp (a : loc) (ctx : Addresses) (w : world) :
  contexts w !! a = Some ctx ->
  wp True (destroy a) w (fun _ => but_for_buffers ctx w) (fun _ => but_for_buffers ctx w).
Proof.
  intros Hctx. unfold destroy.
  apply (wp_free_buffer_then a ctx d_uvws _ w);
    [done|unfold buffers; by repeat constructor|done| |done]. intros w1 Hw1.
  apply (wp_free_buffer_then a ctx d_freqs _ w);
    [done|unfold buffers; by repeat constructor|done| |done]. intros w2 Hw2.
  apply (wp_free_buffer_then a ctx d_shapelet_basis_values _ w);
    [done|unfold buffers; by repeat constructor|done| |done]. intros w3 Hw3.
  eapply wp_seq; [by eapply wp_arrow_live|]. intros ? ? [-> ->].
  eapply wp_seq; [eapply wp_free; [|done]; unfold buffers; by repeat constructor|]. intros e w4 Hw4.
  apply wp_cudaSoftCheck; intros; auto.
Qed.
Lemma wp_free_ok (b : loc) (w : world) E :
  no_faults w -> is_Some (device w !! b) ->
  wp False (cudaFree (Ptr b)) w (fun e w' => e = cudaSuccess /\ device_freed b w w') E.
Proof.
  intros Hnf Hlive. apply wp_cudaFree.
  - intros Hf. by apply no_faults_next in Hf.
  - intros _ [=].
  - intros b' _ [= <-] Hdead. rewrite Hdead in Hlive. by destruct Hlive.
  - intros b' _ [= <-] _. split; [done|]. repeat split; auto. by apply no_faults_pop.
Qed.

Lemma wp_free_buffer_ok_then {B} (a : loc) (ctx : Addresses) (field : Addresses -> ptr)
    (k : run B) (b : loc) (w : world) Q E :
  contexts w !! a = Some ctx -> field ctx = Ptr b ->
  no_faults w -> is_Some (device w !! b) ->
  (forall w', device_freed b w w' -> wp False k w' Q E) ->
  wp False (p <- arrow a field ;; e <- cudaFree p ;; cudaSoftCheck e ;; k) w Q E.
Proof.
  intros Hctx Hfield Hnf Hlive Hk.
  eapply wp_seq with (R := fun p w' => w' = w /\ p = Ptr b).
  { apply wp_arrow; [|congruence]. intros c Hc. rewrite Hctx in Hc. injection Hc as <-.
    by rewrite Hfield. }
  intros ? ? [-> ->].
  eapply wp_seq; [by apply wp_free_ok|]. intros e w1 [-> Hfreed].
  eapply wp_seq with (R := fun _ w' => w' = w1); [by apply wp_cudaSoftCheck|].
  intros _ ? ->. by apply Hk.
Qed.

(** C9. [destroy] changes nothing but device buffers among the four of the
    context, whatever fails; and on a context just made by [init_model],
    when the runtime does not fail, it returns having freed the four
    buffers [init_model] had allocated, leaving device memory as it was
    before the creation, host memory and the context with its externally
    supplied pointers untouched. *)
Theorem destroy_frees_the_four_buffers
    (num_baselines num_freqs num_tiles sbf_l sbf_n : Z) (sbf_c sbf_dx : spec_float)
    (uvws freqs shapelet_basis_values d_fee_coeffs : ptr)
    (num_fee_beam_coeffs num_unique_fee_tiles num_unique_fee_freqs : Z)
    (d_beam_jones_map d_beam_norm_jones vis : ptr) (a : loc) (w : world) :
  (forall ctx w', contexts w !! a = Some ctx -> final_world (destroy a w) = Some w' ->
     but_for_buffers ctx w w') /\
  (no_faults w ->
   init_model_defined num_baselines num_freqs sbf_l sbf_n
     uvws freqs shapelet_basis_values vis w ->
   exists b1 b2 b3 b4 w1 w2,
     let ctx :=
       Build_Addresses num_freqs (num_baselines * num_freqs) num_tiles sbf_l sbf_n
         sbf_c sbf_dx (Ptr b1) (Ptr b2) (Ptr b3) d_fee_coeffs
         num_fee_beam_coeffs num_unique_fee_tiles num_unique_fee_freqs
         d_beam_jones_map d_beam_norm_jones (Ptr b4) vis in
     init_model num_baselines num_freqs num_tiles sbf_l sbf_n sbf_c sbf_dx
       uvws freqs shapelet_basis_values d_fee_coeffs
       num_fee_beam_coeffs num_unique_fee_tiles num_unique_fee_freqs
       d_beam_jones_map d_beam_norm_jones vis w = Returns ctx w1 /\
     (keep_context a ctx ;; destroy a) w1 = Returns tt w2 /\
     Forall (fun b => device w !! b = None /\ is_Some (device w1 !! b) /\
                      device w2 !! b = None) [b1; b2; b3; b4] /\
     device w2 = device w /\ host w2 = host w /\ reported w2 = reported w /\
     contexts w2 !! a = Some ctx).
Proof.
  split.
  { intros ctx w' Hctx. revert w'. apply wp_final. by apply destroy_wp. }
  intros Hnf Hdef.
  destruct (init_model_succeeds num_baselines num_freqs num_tiles sbf_l sbf_n
              sbf_c sbf_dx uvws freqs shapelet_basis_values d_fee_coeffs
              num_fee_beam_coeffs num_unique_fee_tiles num_unique_fee_freqs
              d_beam_jones_map d_beam_norm_jones vis w Hnf Hdef)
    as (b1 & b2 & b3 & b4 & w1 & Hrun & Hnd & Hfresh & Hh & Hc & Hr & Hnf1 & Hd).
  match type of Hrun with _ = Returns ?c _ => set (ctx := c) in * end.
  pose proof (NoDup_cons_1_1 _ _ Hnd) as Hn1. apply NoDup_cons_1_2 in Hnd.
  pose proof (NoDup_cons_1_1 _ _ Hnd) as Hn2. apply NoDup_cons_1_2 in Hnd.
  pose proof (NoDup_cons_1_1 _ _ Hnd) as Hn3.
  rewrite !not_elem_of_cons in Hn1. rewrite !not_elem_of_cons in Hn2.
  rewrite !not_elem_of_cons in Hn3.
  destruct Hn1 as (Hn12 & Hn13 & Hn14 & _), Hn2 as (Hn23 & Hn24 & _), Hn3 as (Hn34 & _).
  apply Forall_cons_1 in Hfresh as [Hf1 Hfresh].
  apply Forall_cons_1 in Hfresh as [Hf2 Hfresh].
  apply Forall_cons_1 in Hfresh as [Hf3 Hfresh].
  apply Forall_cons_1 in Hfresh as [Hf4 _].
  unfold device_created in Hd.
  exists b1, b2, b3, b4, w1.
  cut (exists u w2, (keep_context a ctx ;; destroy a) w1 = Returns u w2 /\
         (host w2 = host w /\ reported w2 = reported w /\
          contexts w2 !! a = Some ctx /\ device w2 = device w)).
  { intros ([] & w2 & Hdestroy & Hh2 & Hr2 & Hc2 & Hd2). exists w2.
    split; [exact Hrun|]. split; [exact Hdestroy|]. split; [|by repeat split].
    repeat apply Forall_cons_2; [..|apply Forall_nil_2];
      rewrite Hd2, Hd; (split; [done|]); (split; [|done]);
      rewrite !lookup_insert; repeat case_decide; eauto; congruence. }
  apply wp_returns.
  eapply wp_seq with (R := fun _ w' =>
    host w' = host w /\ reported w' = reported w /\ no_faults w' /\
    device w' = device w1 /\ contexts w' !! a = Some ctx).
  { unfold keep_context, wp. simpl. rewrite lookup_insert_eq. by repeat split. }
  intros _ w1' (Hh' & Hr' & Hnf' & Hd' & Ha').
  unfold destroy.
  apply (wp_free_buffer_ok_then a ctx d_uvws _ b1); [done|done|done| |].
  { rewrite Hd', Hd, !lookup_insert. repeat case_decide; eauto; congruence. }
  intros w2 (Hh2 & Hc2 & Hr2 & Hnf2 & Hd2).
  apply (wp_free_buffer_ok_then a ctx d_freqs _ b2); [congruence|done|done| |].
  { rewrite Hd2, Hd', Hd, lookup_delete_ne, !lookup_insert by done.
    repeat case_decide; eauto; congruence. }
  intros w3 (Hh3 & Hc3 & Hr3 & Hnf3 & Hd3).
  apply (wp_free_buffer_ok_then a ctx d_shapelet_basis_values _ b3);
    [congruence|done|done| |].
  { rewrite Hd3, Hd2, Hd', Hd, !lookup_delete_ne, !lookup_insert by done.
    repeat case_decide; eauto; congruence. }
  intros w4 (Hh4 & Hc4 & Hr4 & Hnf4 & Hd4).
  eapply wp_seq with (R := fun p w' => w' = w4 /\ p = Ptr b4).
  { apply wp_arrow; [|congruence]. intros c Hc'.
    rewrite Hc4, Hc3, Hc2, Ha' in Hc'. by injection Hc' as <-. }
  intros ? ? [-> ->].
  eapply wp_seq; [apply wp_free_ok; [done|]|].
  { rewrite Hd4, Hd3, Hd2, Hd', Hd, !lookup_delete_ne, !lookup_insert by done.
    repeat case_decide; eauto; congruence. }
  intros e w5 (-> & Hh5 & Hc5 & Hr5 & Hnf5 & Hd5).
  apply wp_cudaSoftCheck; try done. intros _.
  split; [congruence|]. split; [congruence|]. split; [congruence|].
  rewrite Hd5, Hd4, Hd3, Hd2, Hd', Hd.
  apply map_eq. intros i.
  rewrite !lookup_delete, !lookup_insert.
  repeat case_decide; subst; congruence.
Qed.
End Destruction.

(** ** The counts of a context *)

Section Counts.
Context `{Build} `{Contributions}.
Local Open Scope run_scope.

Lemma keeps_contexts_ret {A} (a : A) : keeps_contexts (ret a).
Proof. by intros w. Qed.

Lemma keeps_contexts_bind {A B} (c : run A) (k : A -> run B) :
  keeps_contexts c -> (forall a, keeps_contexts (k a)) -> keeps_contexts (bind c k).
Proof.
  intros Hc Hk w. eapply wp_seq; [apply Hc|].
  intros a w1 Hw1. simpl in Hw1. rewrite <- Hw1.
  eapply wp_weaken; [apply Hk|..]; done.
Qed.

Lemma keeps_contexts_arrow {T} (a : loc) (field : Addresses -> T) :
  keeps_contexts (arrow a field).
Proof. intros w. by apply wp_arrow. Qed.

Lemma keeps_contexts_cudaMemcpy dst src count kind :
  keeps_contexts (cudaMemcpy dst src count kind).
Proof. intros w. by apply wp_cudaMemcpy. Qed.

Lemma keeps_contexts_cudaMemset devPtr value count :
  keeps_contexts (cudaMemset devPtr value count).
Proof. intros w. by apply wp_cudaMemset. Qed.

Lemma keeps_contexts_cudaFree devPtr : keeps_contexts (cudaFree devPtr).
Proof. intros w. by apply wp_cudaFree. Qed.

Lemma keeps_contexts_cudaSoftCheck code : keeps_contexts (cudaSoftCheck code).
Proof. intros w. by apply wp_cudaSoftCheck. Qed.

Lemma keeps_contexts_accumulate_into s vis cells cell :
  keeps_contexts (accumulate_into s vis cells cell).
Proof.
  intros w. unfold accumulate_into, wp, bind, next_result.
  destruct (decide (hd cudaSuccess (pending w) = cudaSuccess)); simpl; [|done].
  destruct (cells <=? 0); simpl; [done|].
  destruct vis as [|b]; [done|]. simpl.
  destruct (memory_of s (set_pending (tl (pending w)) w) !! b) as [old|]; [|done].
  destruct (32 * cells <=? Z.of_nat (length old)); [|done].
  by destruct s.
Qed.

Lemma keeps_contexts_reading {A} (c : world -> run A) :
  (forall w0, keeps_contexts (c w0)) -> keeps_contexts (fun w => c w w).
Proof. intros Hc w. apply (Hc w w). Qed.

Ltac keeps_contexts_step :=
  lazymatch goal with
  | |- keeps_contexts (ret _) => apply keeps_contexts_ret
  | |- keeps_contexts (arrow _ _) => apply keeps_contexts_arrow
  | |- keeps_contexts (cudaMemcpy _ _ _ _) => apply keeps_contexts_cudaMemcpy
  | |- keeps_contexts (cudaMemset _ _ _) => apply keeps_contexts_cudaMemset
  | |- keeps_contexts (cudaFree _) => apply keeps_contexts_cudaFree
  | |- keeps_contexts (cudaSoftCheck _) => apply keeps_contexts_cudaSoftCheck
  | |- keeps_contexts (fun w => accumulate_into _ _ _ _ w) =>
      apply (keeps_contexts_reading (fun w0 => accumulate_into _ _ _ _)); intros ?;
      apply keeps_contexts_accumulate_into
  | |- keeps_contexts (bind _ _) => apply keeps_contexts_bind; [|intros ?]
  end.

Ltac keeps_contexts_steps := repeat keeps_contexts_step.

Lemma keeps_contexts_copy_vis a : keeps_contexts (copy_vis a).
Proof. unfold copy_vis. keeps_contexts_steps. Qed.

Lemma keeps_contexts_clear_vis a : keeps_contexts (clear_vis a).
Proof. unfold clear_vis. keeps_contexts_steps. Qed.

Lemma keeps_contexts_destroy a : keeps_contexts (destroy a).
Proof. unfold destroy. keeps_contexts_steps. Qed.

Lemma keeps_contexts_call a op : keeps_contexts (call a op).
Proof.
  destruct op; unfold call.
  - apply keeps_contexts_clear_vis.
  - apply keeps_contexts_copy_vis.
  - apply keeps_contexts_destroy.
  - unfold model_points. keeps_contexts_steps.
  - unfold model_gaussians. keeps_contexts_steps.
  - unfold model_shapelets. keeps_contexts_steps.
Qed.

Lemma keeps_contexts_calls a ops : keeps_contexts (calls a ops).
Proof.
  induction ops as [|op ops IH]; simpl.
  - apply keeps_contexts_ret.
  - apply keeps_contexts_bind; [apply keeps_contexts_call|]. by intros [].
Qed.
(** C5. The counts of a context returned by [init_model] are the ones it
    was given, with [num_vis] the product of [num_baselines] and
    [num_freqs]; and whatever sequence of [clear_vis], [copy_vis],
    [destroy] and modelling kernels the caller then runs on the context it
    keeps, and however the run ends, the context object still is the one
    [init_model] returned. *)
Theorem context_counts_never_change
    (num_baselines num_freqs num_tiles sbf_l sbf_n : Z) (sbf_c sbf_dx : spec_float)
    (uvws freqs shapelet_basis_values d_fee_coeffs : ptr)
    (num_fee_beam_coeffs num_unique_fee_tiles num_unique_fee_freqs : Z)
    (d_beam_jones_map d_beam_norm_jones vis : ptr)
    (a : loc) (ops : list operation) (w w1 w' : world) (ctx : Addresses) :
  init_model num_baselines num_freqs num_tiles sbf_l sbf_n sbf_c sbf_dx
    uvws freqs shapelet_basis_values d_fee_coeffs
    num_fee_beam_coeffs num_unique_fee_tiles num_unique_fee_freqs
    d_beam_jones_map d_beam_norm_jones vis w = Returns ctx w1 ->
  final_world ((keep_context a ctx ;; calls a ops) w1) = Some w' ->
  counts ctx = [num_freqs; num_baselines * num_freqs; num_tiles; sbf_l; sbf_n] /\
  contexts w' !! a = Some ctx.
Proof.
  intros Hrun Hend. split.
  - pose proof (init_model_wp num_baselines num_freqs num_tiles sbf_l sbf_n sbf_c sbf_dx
      uvws freqs shapelet_basis_values d_fee_coeffs
      num_fee_beam_coeffs num_unique_fee_tiles num_unique_fee_freqs
      d_beam_jones_map d_beam_norm_jones vis w) as Hwp.
    unfold wp in Hwp. rewrite Hrun in Hwp. by destruct Hwp as (_ & _ & ?).
  - unfold bind, keep_context in Hend.
    pose proof (wp_final _ _ _ (keeps_contexts_calls a ops _) _ Hend) as Hsame.
    rewrite Hsame. simpl. by rewrite lookup_insert_eq.
Qed.
End Counts.

(** ** What the modelling entry points write *)

Section KernelFrame.
Context `{Build} `{Contributions}.
Local Open Scope run_scope.

Lemma frame_refl (P D : loc -> Prop) w : frame P D w w.
Proof. by repeat split. Qed.

Lemma frame_trans (P D : loc -> Prop) w1 w2 w3 :
  frame P D w1 w2 -> frame P D w2 w3 -> frame P D w1 w3.
Proof.
  intros (Hc1 & Hh1 & Hd1) (Hc2 & Hh2 & Hd2). split; [congruence|].
  split; intros b Hb.
  - rewrite Hh2 by done. by apply Hh1.
  - rewrite Hd2 by done. by apply Hd1.
Qed.

(** An accumulation writes the block of the visibility buffer, in the
    memory that holds it, and nothing else. *)
Lemma accumulate_into_frame s vis cells cell w :
  wp True (accumulate_into s vis cells cell) w
    (fun _ => frame (fun b => s = HostMemory /\ vis = Ptr b)
                    (fun b => s = DeviceMemory /\ vis = Ptr b) w)
    (fun _ _ => False).
Proof.
  unfold accumulate_into, wp, bind, next_result.
  destruct (decide (hd cudaSuccess (pending w) = cudaSuccess)); simpl;
    [|by repeat split].
  destruct (cells <=? 0); simpl; [by repeat split|].
  destruct vis as [|b]; [done|]. simpl.
  destruct (memory_of s (set_pending (tl (pending w)) w) !! b) as [old|]; [|done].
  destruct (32 * cells <=? Z.of_nat (length old)); [|done].
  destruct s; simpl; (split; [done|]); split; intros b' Hb'; simpl; try done;
    (rewrite lookup_insert_ne; [done|]); intros ->; by apply Hb'.
Qed.

(** C7. However they end, [model_points], [model_gaussians] and
    [model_shapelets] leave host memory, the context and every device
    buffer but the visibility buffer of the context as they were, and
    [model_timestep] leaves device memory and every host array but [vis]
    as they were. *)
Theorem kernels_write_only_the_visibilities :
  (forall num_points point_lmns point_fds a ctx w w',
     contexts w !! a = Some ctx ->
     final_world (model_points num_points point_lmns point_fds a w) = Some w' ->
     frame (fun _ => False) (fun b => d_vis ctx = Ptr b) w w') /\
  (forall num_gaussians gaussian_lmns gaussian_fds gaussian_params ctx w w',
     final_world (model_gaussians num_gaussians gaussian_lmns gaussian_fds
                    gaussian_params ctx w) = Some w' ->
     frame (fun _ => False) (fun b => d_vis ctx = Ptr b) w w') /\
  (forall num_shapelets shapelet_lmns shapelet_fds gaussian_params shapelet_uvs
          shapelet_coeffs num_shapelet_coeffs ctx w w',
     final_world (model_shapelets num_shapelets shapelet_lmns shapelet_fds
                    gaussian_params shapelet_uvs shapelet_coeffs num_shapelet_coeffs
                    ctx w) = Some w' ->
     frame (fun _ => False) (fun b => d_vis ctx = Ptr b) w w') /\
  (forall num_baselines num_freqs num_points num_gaussians num_shapelets
          uvws freqs point_lmns point_fds gaussian_lmns gaussian_fds
          gaussian_gaussian_params shapelet_lmns shapelet_fds
          shapelet_gaussian_params shapelet_uvs shapelet_coeffs num_shapelet_coeffs
          shapelet_basis_values sbf_l sbf_n sbf_c sbf_dx vis w w',
     final_world (model_timestep num_baselines num_freqs num_points num_gaussians
                    num_shapelets uvws freqs point_lmns point_fds gaussian_lmns
                    gaussian_fds gaussian_gaussian_params shapelet_lmns shapelet_fds
                    shapelet_gaussian_params shapelet_uvs shapelet_coeffs
                    num_shapelet_coeffs shapelet_basis_values sbf_l sbf_n sbf_c sbf_dx
                    vis w) = Some w' ->
     frame (fun b => vis = Ptr b) (fun _ => False) w w').
Proof.
  assert (forall vis cells cell w,
            match accumulate_into DeviceMemory vis cells cell w with
            | Returns _ w' | Exits _ w' =>
                frame (fun _ => False) (fun b => vis = Ptr b) w w'
            | Undefined => True
            end) as Hdevice.
  { intros vis cells cell w.
    pose proof (accumulate_into_frame DeviceMemory vis cells cell w) as Hacc.
    unfold wp in Hacc. destruct (accumulate_into DeviceMemory vis cells cell w); [|done..].
    destruct Hacc as (Hc & Hh & Hd). split; [done|]. split; intros b Hb.
    - apply Hh. by intros [[=] _].
    - apply Hd. intros [_ ?]. by apply Hb. }
  assert (forall vis cells cell w,
            match accumulate_into HostMemory vis cells cell w with
            | Returns _ w' | Exits _ w' =>
                frame (fun b => vis = Ptr b) (fun _ => False) w w'
            | Undefined => True
            end) as Hhost.
  { intros vis cells cell w.
    pose proof (accumulate_into_frame HostMemory vis cells cell w) as Hacc.
    unfold wp in Hacc. destruct (accumulate_into HostMemory vis cells cell w); [|done..].
    destruct Hacc as (Hc & Hh & Hd). split; [done|]. split; intros b Hb.
    - apply Hh. intros [_ ?]. by apply Hb.
    - apply Hd. by intros [[=] _]. }
  split; [|split; [|split]].
  - intros num_points point_lmns point_fds a ctx w w' Hctx. revert w'. apply wp_final.
    unfold model_points. eapply wp_seq with (R := fun c w1 => w1 = w /\ c = ctx).
    { apply wp_arrow; [|done]. intros c Hc. rewrite Hctx in Hc. by injection Hc as <-. }
    intros ? ? [-> ->]. unfold wp. cbv beta. apply Hdevice.
  - intros ? ? ? ? ctx w w'. revert w'. apply wp_final.
    unfold model_gaussians, wp. cbv beta. apply Hdevice.
  - intros ? ? ? ? ? ? ? ctx w w'. revert w'. apply wp_final.
    unfold model_shapelets, wp. cbv beta. apply Hdevice.
  - intros num_baselines num_freqs num_points num_gaussians num_shapelets
      uvws freqs point_lmns point_fds gaussian_lmns gaussian_fds
      gaussian_gaussian_params shapelet_lmns shapelet_fds
      shapelet_gaussian_params shapelet_uvs shapelet_coeffs num_shapelet_coeffs
      shapelet_basis_values sbf_l sbf_n sbf_c sbf_dx vis w w'.
    revert w'. apply wp_final. unfold model_timestep.
    eapply wp_seq with (R := fun _ w1 => frame (fun b => vis = Ptr b) (fun _ => False) w w1).
    { unfold wp. cbv beta. apply Hhost. }
    intros s1 w1 Hw1.
    destruct (s1 =? 0); [|by apply wp_ret].
    eapply wp_seq with (R := fun _ w2 => frame (fun b => vis = Ptr b) (fun _ => False) w w2).
    { unfold wp. cbv beta.
      match goal with
      | |- match accumulate_into ?s ?v ?c ?f ?w0 with _ => _ end =>
          pose proof (Hhost v c f w0) as Hstep; destruct (accumulate_into s v c f w0)
      end;
        [by eapply frame_trans..|done]. }
    intros s2 w2 Hw2.
    destruct (s2 =? 0); [|by apply wp_ret].
    unfold wp. cbv beta.
    match goal with
      | |- match accumulate_into ?s ?v ?c ?f ?w0 with _ => _ end =>
          pose proof (Hhost v c f w0) as Hstep; destruct (accumulate_into s v c f w0)
      end;
      [by eapply frame_trans..|done].
Qed.
End KernelFrame.

(** ** The theorems at sample inputs *)

Lemma create_then_copy_vis_roundtrip_witness :
  exists ctx w1 w2,
    @sample_init_model soft_build (sample_world []) = Returns ctx w1 /\
    (keep_context 1 ctx ;; @copy_vis soft_build 1)%run w1 = Returns tt w2 /\
    host w2 = host (sample_world []) /\
    reported w2 = reported (sample_world []) /\
    block_of (d_vis ctx) (device w2) = Some sample_vis.
Proof.
  apply (@create_then_copy_vis_roundtrip soft_build 1 2 3 1 1
           (S754_zero false) (S754_zero false) (Ptr 1) (Ptr 2) (Ptr 3) (Ptr 9)
           0 0 0 NULL NULL (Ptr 4) 1%positive (sample_world [])).
  - constructor.
  - repeat split; try (right; reflexivity);
      (eexists; split; [reflexivity|right; reflexivity]).
Defined.

Lemma clear_vis_zeroes_and_is_idempotent_witness :
  exists w1, clear_vis 1 (sample_live_world []) = Returns tt w1 /\
    (forall i : nat, Z.of_nat i < 2 -> device_vis sample_context w1 i = Some zero_JonesF32) /\
    exists w2, clear_vis 1 w1 = Returns tt w2 /\
      device w2 = device w1 /\ host w2 = host w1 /\
      contexts w2 = contexts w1 /\ reported w2 = reported w1.
Proof.
  apply (clear_vis_zeroes_and_is_idempotent 1%positive sample_context
           5%positive sample_vis (sample_live_world [])).
  - reflexivity.
  - unfold INT_MIN, INT_MAX. simpl. lia.
  - reflexivity.
  - reflexivity.
  - vm_compute. discriminate.
  - unfold next_fails. simpl. intros Hn. by apply Hn.
Defined.

Lemma context_counts_never_change_witness :
  exists ctx w',
    counts ctx = [2; 2; 3; 1; 1] /\ contexts w' !! 1%positive = Some ctx.
Proof.
  eexists _, _.
  eapply (@context_counts_never_change soft_build sample_contributions 1 2 3 1 1
            (S754_zero false) (S754_zero false) (Ptr 1) (Ptr 2) (Ptr 3) (Ptr 9)
            0 0 0 NULL NULL (Ptr 4) 1%positive
            [call_clear_vis; call_model_points 1 (Ptr 1) (Ptr 2);
             call_model_gaussians 1 (Ptr 1) (Ptr 2) (Ptr 3); call_copy_vis; call_destroy]
            (sample_world [])).
  - vm_compute. reflexivity.
  - vm_compute. reflexivity.
Defined.

Lemma kernels_write_only_the_visibilities_witness :
  (exists w',
     final_world (@model_points sample_contributions 1 (Ptr 1) (Ptr 2)
                    1%positive (sample_live_world [])) = Some w' /\
     frame (fun _ => False) (fun b => Ptr 5 = Ptr b) (sample_live_world []) w') /\
  (exists w',
     final_world (@model_timestep sample_contributions 1 2 1 0 0
                    (Ptr 1) (Ptr 2) (Ptr 1) (Ptr 2) NULL NULL NULL NULL NULL NULL
                    NULL NULL NULL (Ptr 3) 1 1 (S754_zero false) (S754_zero false)
                    (Ptr 4) (sample_world [])) = Some w' /\
     frame (fun b => Ptr 4 = Ptr b) (fun _ => False) (sample_world []) w').
Proof.
  destruct (@kernels_write_only_the_visibilities sample_contributions)
    as (Hpoints & _ & _ & Htimestep).
  split.
  - eexists. split; [vm_compute; reflexivity|].
    apply (Hpoints 1 (Ptr 1) (Ptr 2) 1%positive sample_context); [reflexivity|].
    vm_compute. reflexivity.
  - eexists. split; [vm_compute; reflexivity|].
    apply (Htimestep 1 2 1 0 0 (Ptr 1) (Ptr 2) (Ptr 1) (Ptr 2) NULL NULL NULL NULL NULL
             NULL NULL NULL NULL (Ptr 3) 1 1 (S754_zero false) (S754_zero false)).
    vm_compute. reflexivity.
Defined.

Lemma copy_vis_twice_witness :
  exists w1 w2,
    @copy_vis soft_build 1 (sample_live_world []) = Returns tt w1 /\
    final_world (@copy_vis soft_build 1 w1) = Some w2 /\
    host w2 = host w1 /\ device w2 = device w1.
Proof.
  destruct (@copy_vis_twice soft_build 1%positive (sample_live_world [])) as [_ Hsecond].
  edestruct Hsecond as (w2 & Hend & Hhost & Hdevice).
  - vm_compute. reflexivity.
  - vm_compute. reflexivity.
  - eexists _, w2. split; [vm_compute; reflexivity|]. by repeat split.
Defined.

Lemma destroy_frees_the_four_buffers_witness :
  exists b1 b2 b3 b4 w1 w2,
    let ctx :=
      Build_Addresses 2 2 3 1 1 (S754_zero false) (S754_zero false)
        (Ptr b1) (Ptr b2) (Ptr b3) (Ptr 9) 0 0 0 NULL NULL (Ptr b4) (Ptr 4) in
    @sample_init_model soft_build (sample_world []) = Returns ctx w1 /\
    (keep_context 1 ctx ;; @destroy soft_build 1)%run w1 = Returns tt w2 /\
    Forall (fun b => device (sample_world []) !! b = None /\ is_Some (device w1 !! b) /\
                     device w2 !! b = None) [b1; b2; b3; b4] /\
    device w2 = device (sample_world []) /\ host w2 = host (sample_world []) /\
    reported w2 = reported (sample_world []) /\
    contexts w2 !! 1%positive = Some ctx.
Proof.
  destruct (@destroy_frees_the_four_buffers soft_build 1 2 3 1 1
              (S754_zero false) (S754_zero false) (Ptr 1) (Ptr 2) (Ptr 3) (Ptr 9)
              0 0 0 NULL NULL (Ptr 4) 1%positive (sample_world [])) as [_ Hcycle].
  apply Hcycle.
  - constructor.
  - repeat split; try (right; reflexivity);
      (eexists; split; [reflexivity|right; reflexivity]).
Defined.

(** * Further properties *)

(** ** The operators of [common.cuh] *)

Section OperatorFacts.
Context {F : Type} `{Scalar F}.

(** X1. [a += b] on complex numbers leaves in [a] the sum [a + b] of
    [operator+], and changes nothing else in the store. *)
Theorem complex_add_assign_agrees (a : loc) (b av : COMPLEX F)
    (m : gmap loc (COMPLEX F)) :
  m !! a = Some av ->
  complex_add_assign a b m = Some (<[a := (av + b)%C]> m).
Proof.
  intros Ha. unfold complex_add_assign.
  rewrite (modify_lookup _ _ _ _ Ha). simpl.
  rewrite modify_again. reflexivity.
Qed.

(** X2. [a += b] on Jones matrices leaves in [a] the entrywise complex sum
    of the two matrices, and changes nothing else in the store. *)
Theorem jones_add_assign_is_sum (a : loc) (b A : JONES F) (m : gmap loc (JONES F)) :
  m !! a = Some A ->
  jones_add_assign a b m = Some (<[a := jones_sum A b]> m).
Proof.
  intros Ha. unfold jones_add_assign.
  rewrite (modify_lookup _ _ _ _ Ha). simpl.
  repeat (rewrite modify_again; simpl).
  reflexivity.
Qed.

(** X3. The products of a Jones matrix by a complex and by a real number
    act entry by entry, as [operator*] on complex numbers does. *)
Theorem jones_products_entrywise (a : JONES F) (b : COMPLEX F) (c : F) (i k : index2) :
  matrix_of_JONES (jones_mul_complex a b) i k = (matrix_of_JONES a i k * b)%C /\
  matrix_of_JONES (jones_scale a c) i k = complex_scale (matrix_of_JONES a i k) c.
Proof. destruct i, k; split; reflexivity. Qed.

Lemma apply_beam_value (j1 j j2 : loc) (J1 J J2 : JONES F) (m : gmap loc (JONES F)) :
  m !! j1 = Some J1 -> m !! j = Some J -> m !! j2 = Some J2 ->
  apply_beam j1 j j2 m = Some (<[j := beam_sandwich J1 J J2]> m).
Proof.
  intros H1 Hj H2. unfold apply_beam.
  rewrite H1, Hj. simpl. rewrite H2. simpl.
  rewrite (modify_lookup _ _ _ _ Hj). simpl.
  repeat (rewrite modify_again; simpl).
  reflexivity.
Qed.
End OperatorFacts.

Lemma complex_add_assign_witness :
  complex_add_assign 1%positive (MAKE_COMPLEX 1 2)
    ({[ 1%positive := MAKE_COMPLEX 3 4 ]} : gmap loc (COMPLEX Z)) =
  Some {[ 1%positive := MAKE_COMPLEX 4 6 ]}.
Proof.
  rewrite (complex_add_assign_agrees 1 (MAKE_COMPLEX 1 2) (MAKE_COMPLEX 3 4)).
  - reflexivity.
  - reflexivity.
Defined.

Lemma jones_add_assign_witness :
  jones_add_assign 1%positive (Build_JONES 1 2 3 4 5 6 7 8)
    ({[ 1%positive := Build_JONES 10 20 30 40 50 60 70 80 ]} : gmap loc (JONES Z)) =
  Some {[ 1%positive := Build_JONES 11 22 33 44 55 66 77 88 ]}.
Proof.
  rewrite (jones_add_assign_is_sum 1 (Build_JONES 1 2 3 4 5 6 7 8)
             (Build_JONES 10 20 30 40 50 60 70 80)).
  - reflexivity.
  - reflexivity.
Defined.

(** ** The beam sandwich in exact arithmetic *)

Lemma JONES_ext {F} (a b : JONES F) :
  j00_re a = j00_re b -> j00_im a = j00_im b -> j01_re a = j01_re b ->
  j01_im a = j01_im b -> j10_re a = j10_re b -> j10_im a = j10_im b ->
  j11_re a = j11_re b -> j11_im a = j11_im b -> a = b.
Proof. destruct a, b; simpl; intros; congruence. Qed.

(** X4. With the identity as both beams, [apply_beam] leaves the store as
    it is (in exact arithmetic). *)
Theorem apply_beam_identity (j1 j j2 : loc) (J : JONES Z) (m : gmap loc (JONES Z)) :
  m !! j1 = Some identity_JONES -> m !! j = Some J -> m !! j2 = Some identity_JONES ->
  apply_beam j1 j j2 m = Some m.
Proof.
  intros H1 Hj H2. rewrite (apply_beam_value _ _ _ _ _ _ _ H1 Hj H2).
  f_equal. apply insert_id. rewrite Hj. f_equal.
  apply JONES_ext; destruct J; simpl; lia.
Qed.

(** X5. With the same beam on both sides, [apply_beam] turns a Hermitian
    matrix into a Hermitian matrix (in exact arithmetic). *)
Theorem apply_beam_keeps_hermitian (j1 j : loc) (B J : JONES Z) (m : gmap loc (JONES Z)) :
  m !! j1 = Some B -> m !! j = Some J -> hermitian J ->
  exists J', apply_beam j1 j j1 m = Some (<[j := J']> m) /\ hermitian J'.
Proof.
  intros H1 Hj (H00 & H11 & Hre & Him).
  exists (beam_sandwich B J B). split; [by apply apply_beam_value|].
  destruct B, J; simpl in *. subst.
  unfold hermitian; simpl. repeat split; lia.
Qed.

(** X6. Two beam corrections in a row are one correction by the products
    of the beams: [C (A J B^H) D^H = (C A) J (D B)^H] (in exact
    arithmetic; the beams are not at [j]). *)
Theorem apply_beam_twice (la lb lc ld j : loc) (A B C D J : JONES Z)
    (m : gmap loc (JONES Z)) :
  m !! la = Some A -> m !! lb = Some B -> m !! lc = Some C -> m !! ld = Some D ->
  m !! j = Some J -> j <> lc -> j <> ld ->
  apply_beam la j lb m ≫= apply_beam lc j ld =
  Some (<[j := beam_sandwich (jones_product C A) J (jones_product D B)]> m).
Proof.
  intros Ha Hb Hc Hd Hj Hjc Hjd.
  rewrite (apply_beam_value _ _ _ _ _ _ _ Ha Hj Hb). simpl.
  rewrite (apply_beam_value lc j ld C (beam_sandwich A J B) D);
    [|by rewrite lookup_insert_ne|by rewrite lookup_insert_eq|by rewrite lookup_insert_ne].
  rewrite insert_insert_eq. do 2 f_equal.
  destruct A, B, C, D, J.
  apply JONES_ext; simpl; ring.
Qed.

(** X7. The beam correction is linear: correcting a sum of two matrices
    gives the sum of the two corrected matrices, which is why a kernel may
    sum its components before it applies the beam (in exact arithmetic;
    the beams are not at [j]). *)
Theorem apply_beam_of_sum (j1 j j2 : loc) (J1 J2 J K : JONES Z) (m : gmap loc (JONES Z)) :
  m !! j1 = Some J1 -> m !! j2 = Some J2 -> j <> j1 -> j <> j2 ->
  apply_beam j1 j j2 (<[j := jones_sum J K]> m) =
  Some (<[j := jones_sum (beam_sandwich J1 J J2) (beam_sandwich J1 K J2)]> m).
Proof.
  intros H1 H2 Hn1 Hn2.
  rewrite (apply_beam_value j1 j j2 J1 (jones_sum J K) J2);
    [|by rewrite lookup_insert_ne|by rewrite lookup_insert_eq|by rewrite lookup_insert_ne].
  rewrite insert_insert_eq. do 2 f_equal.
  destruct J1, J2, J, K.
  apply JONES_ext; simpl; ring.
Qed.

(** X8. The beam correction commutes with the product by a complex number
    (a phase factor may be applied before or after the beam; in exact
    arithmetic; the beams are not at [j]). *)
Theorem apply_beam_of_complex_multiple (j1 j j2 : loc) (J1 J2 J : JONES Z)
    (c : COMPLEX Z) (m : gmap loc (JONES Z)) :
  m !! j1 = Some J1 -> m !! j2 = Some J2 -> j <> j1 -> j <> j2 ->
  apply_beam j1 j j2 (<[j := jones_mul_complex J c]> m) =
  Some (<[j := jones_mul_complex (beam_sandwich J1 J J2) c]> m).
Proof.
  intros H1 H2 Hn1 Hn2.
  rewrite (apply_beam_value j1 j j2 J1 (jones_mul_complex J c) J2);
    [|by rewrite lookup_insert_ne|by rewrite lookup_insert_eq|by rewrite lookup_insert_ne].
  rewrite insert_insert_eq. do 2 f_equal.
  destruct J1, J2, J, c.
  apply JONES_ext; simpl; ring.
Qed.

Lemma apply_beam_identity_witness :
  apply_beam 1%positive 2%positive 1%positive
    ({[ 1%positive := identity_JONES; 2%positive := Build_JONES 1 2 3 4 5 6 7 8 ]}
       : gmap loc (JONES Z)) =
  Some {[ 1%positive := identity_JONES; 2%positive := Build_JONES 1 2 3 4 5 6 7 8 ]}.
Proof.
  apply (apply_beam_identity 1 2 1 (Build_JONES 1 2 3 4 5 6 7 8)); reflexivity.
Defined.

Lemma apply_beam_keeps_hermitian_witness :
  exists J',
    apply_beam 1%positive 2%positive 1%positive
      ({[ 1%positive := Build_JONES 1 2 3 4 5 6 7 8;
          2%positive := Build_JONES 2 0 1 1 1 (-1) 3 0 ]} : gmap loc (JONES Z)) =
    Some (<[2%positive := J']>
            {[ 1%positive := Build_JONES 1 2 3 4 5 6 7 8;
               2%positive := Build_JONES 2 0 1 1 1 (-1) 3 0 ]}) /\
    hermitian J'.
Proof.
  apply (apply_beam_keeps_hermitian 1 2 (Build_JONES 1 2 3 4 5 6 7 8)
           (Build_JONES 2 0 1 1 1 (-1) 3 0)).
  - reflexivity.
  - reflexivity.
  - unfold hermitian. simpl. lia.
Defined.

Lemma apply_beam_twice_witness :
  apply_beam 1%positive 5%positive 2%positive
    ({[ 1%positive := Build_JONES 1 2 3 4 5 6 7 8;
        2%positive := Build_JONES 1 0 2 0 0 1 1 1;
        3%positive := Build_JONES 0 1 1 0 2 0 0 (-1);
        4%positive := Build_JONES 1 1 0 0 0 0 1 (-1);
        5%positive := Build_JONES 1 0 0 1 0 (-1) 2 0 ]} : gmap loc (JONES Z))
    ≫= apply_beam 3%positive 5%positive 4%positive =
  Some (<[5%positive :=
            beam_sandwich
              (jones_product (Build_JONES 0 1 1 0 2 0 0 (-1)) (Build_JONES 1 2 3 4 5 6 7 8))
              (Build_JONES 1 0 0 1 0 (-1) 2 0)
              (jones_product (Build_JONES 1 1 0 0 0 0 1 (-1)) (Build_JONES 1 0 2 0 0 1 1 1))]>
          {[ 1%positive := Build_JONES 1 2 3 4 5 6 7 8;
             2%positive := Build_JONES 1 0 2 0 0 1 1 1;
             3%positive := Build_JONES 0 1 1 0 2 0 0 (-1);
             4%positive := Build_JONES 1 1 0 0 0 0 1 (-1);
             5%positive := Build_JONES 1 0 0 1 0 (-1) 2 0 ]}).
Proof.
  apply (apply_beam_twice 1 2 3 4 5); try reflexivity; discriminate.
Defined.

Lemma apply_beam_of_sum_witness :
  apply_beam 1%positive 3%positive 2%positive
    (<[3%positive := jones_sum (Build_JONES 1 0 0 1 0 (-1) 2 0) (Build_JONES 0 1 1 0 2 0 0 (-1))]>
       ({[ 1%positive := Build_JONES 1 2 3 4 5 6 7 8;
           2%positive := Build_JONES 1 0 2 0 0 1 1 1 ]} : gmap loc (JONES Z))) =
  Some (<[3%positive :=
            jones_sum
              (beam_sandwich (Build_JONES 1 2 3 4 5 6 7 8) (Build_JONES 1 0 0 1 0 (-1) 2 0)
                 (Build_JONES 1 0 2 0 0 1 1 1))
              (beam_sandwich (Build_JONES 1 2 3 4 5 6 7 8) (Build_JONES 0 1 1 0 2 0 0 (-1))
                 (Build_JONES 1 0 2 0 0 1 1 1))]>
          {[ 1%positive := Build_JONES 1 2 3 4 5 6 7 8;
             2%positive := Build_JONES 1 0 2 0 0 1 1 1 ]}).
Proof.
  apply (apply_beam_of_sum 1 3 2); try reflexivity; discriminate.
Defined.

Lemma apply_beam_of_complex_multiple_witness :
  apply_beam 1%positive 3%positive 2%positive
    (<[3%positive := jones_mul_complex (Build_JONES 1 0 0 1 0 (-1) 2 0) (MAKE_COMPLEX 0 1)]>
       ({[ 1%positive := Build_JONES 1 2 3 4 5 6 7 8;
           2%positive := Build_JONES 1 0 2 0 0 1 1 1 ]} : gmap loc (JONES Z))) =
  Some (<[3%positive :=
            jones_mul_complex
              (beam_sandwich (Build_JONES 1 2 3 4 5 6 7 8) (Build_JONES 1 0 0 1 0 (-1) 2 0)
                 (Build_JONES 1 0 2 0 0 1 1 1))
              (MAKE_COMPLEX 0 1)]>
          {[ 1%positive := Build_JONES 1 2 3 4 5 6 7 8;
             2%positive := Build_JONES 1 0 2 0 0 1 1 1 ]}).
Proof.
  apply (apply_beam_of_complex_multiple 1 3 2); try reflexivity; discriminate.
Defined.

(** ** Accumulating into and from zero *)

Lemma f32_add_zero_r (x : f32) :
  (x + F32 (S754_zero false))%F = without_negative_zero x.
Proof. by destruct x as [[[]|[]| |[] m e]]. Qed.

Lemma f32_add_zero_l (y : f32) :
  (F32 (S754_zero false) + y)%F = without_negative_zero y.
Proof. by destruct y as [[[]|[]| |[] m e]]. Qed.

(** X9. Accumulating an all-zero double-precision sum leaves every field
    of the visibility as it was, except that a negative zero becomes
    [+0.0]. *)
Theorem accumulate_zero_sum (a : loc) (A : JonesF32) (m : gmap loc JonesF32) :
  m !! a = Some A ->
  jones_add_assign_F32_F64 a zero_JonesF64 m =
  Some (<[a := map_JONES without_negative_zero A]> m).
Proof.
  intros Ha. unfold jones_add_assign_F32_F64.
  rewrite (modify_lookup _ _ _ _ Ha). simpl.
  repeat (rewrite modify_again; simpl).
  change (Some (<[a := narrow_then_add A zero_JonesF64]> m) =
          Some (<[a := map_JONES without_negative_zero A]> m)).
  unfold narrow_then_add, zero_JonesF64, all_fields, map_JONES. simpl j00_re.
  change (float_of_double (F64 (S754_zero false))) with (F32 (S754_zero false)).
  rewrite !f32_add_zero_r. reflexivity.
Qed.

(** X10. The first accumulation into a cleared visibility stores each
    field of the sum narrowed to single precision, with [+0.0] for a
    negative zero. *)
Theorem accumulate_into_cleared (a : loc) (b : JonesF64) (m : gmap loc JonesF32) :
  m !! a = Some zero_JonesF32 ->
  jones_add_assign_F32_F64 a b m =
  Some (<[a := map_JONES (fun d => without_negative_zero (float_of_double d)) b]> m).
Proof.
  intros Ha. unfold jones_add_assign_F32_F64.
  rewrite (modify_lookup _ _ _ _ Ha). simpl.
  repeat (rewrite modify_again; simpl).
  change (Some (<[a := narrow_then_add zero_JonesF32 b]> m) =
          Some (<[a := map_JONES (fun d => without_negative_zero (float_of_double d)) b]> m)).
  unfold narrow_then_add, zero_JonesF32, map_JONES. simpl j00_re.
  rewrite !f32_add_zero_l. reflexivity.
Qed.

Lemma accumulate_zero_sum_witness :
  jones_add_assign_F32_F64 1%positive zero_JonesF64
    {[ 1%positive := Build_JONES one_f32 (F32 (S754_zero true)) one_f32 one_f32
                       one_f32 one_f32 one_f32 (F32 S754_nan) ]} =
  Some {[ 1%positive := Build_JONES one_f32 (F32 (S754_zero false)) one_f32 one_f32
                          one_f32 one_f32 one_f32 (F32 S754_nan) ]}.
Proof.
  rewrite (accumulate_zero_sum 1
             (Build_JONES one_f32 (F32 (S754_zero true)) one_f32 one_f32
                one_f32 one_f32 one_f32 (F32 S754_nan))).
  - reflexivity.
  - reflexivity.
Defined.

Lemma accumulate_into_cleared_witness :
  jones_add_assign_F32_F64 1%positive (all_fields above_half_ulp)
    {[ 1%positive := zero_JonesF32 ]} =
  Some {[ 1%positive := all_fields (float_of_double above_half_ulp) ]}.
Proof.
  rewrite (accumulate_into_cleared 1 (all_fields above_half_ulp)).
  - reflexivity.
  - reflexivity.
Defined.

(** ** Creation under failures, exactly *)

Section CreationExact.
Context `{Build}.
Local Open Scope run_scope.

Lemma wp_allocate_and_copy_exact {B} size src (K : cudaError_t * ptr -> run B) w Q :
  (forall r c errs w', allocated (snd r) src size c errs w w' ->
     wp True (K r) w' Q (fun _ _ => True)) ->
  wp True
    (r <- cudaMalloc NULL size ;;
     cudaSoftCheck (fst r) ;;
     e <- cudaMemcpy (snd r) src size cudaMemcpyHostToDevice ;;
     cudaSoftCheck e ;;
     K r) w Q (fun _ _ => True).
Proof.
  intros HK.
  eapply wp_seq with (R := fun r w1 =>
    host w1 = host w /\ contexts w1 = contexts w /\ reported w1 = reported w /\
    ((fst r <> cudaSuccess /\ snd r = NULL /\ device w1 = device w) \/
     (fst r = cudaSuccess /\ exists b, snd r = Ptr b /\ device w !! b = None /\
        device w1 = <[b := replicate (Z.to_nat size) Undef]> (device w)))).
  { apply wp_cudaMalloc.
    - intros Hf. repeat split; auto.
    - intros b _ Hb. repeat split; auto. right. split; [done|]. by exists b. }
  intros r w1 (Hh1 & Hc1 & Hr1 & [(He & Hp & Hd1)|(He & b & Hp & Hb & Hd1)]).
  - (* the allocation failed *)
    eapply wp_seq with (R := fun _ w2 =>
      soft_check_exits = false /\ host w2 = host w /\ contexts w2 = contexts w /\
      reported w2 = reported w ++ [fst r] /\ device w2 = device w).
    { apply wp_cudaSoftCheck; [done| |done]. intros _ Hsoft. simpl.
      repeat split; auto. by rewrite Hr1. }
    intros _ w2 (Hsoft & Hh2 & Hc2 & Hr2 & Hd2).
    eapply wp_seq with (R := fun _ w3 =>
      host w3 = host w /\ contexts w3 = contexts w /\
      reported w3 = reported w ++ [fst r] /\ device w3 = device w).
    { apply wp_cudaMemcpy; try done. intros; congruence. }
    intros e w3 (Hh3 & Hc3 & Hr3 & Hd3).
    eapply wp_seq with (R := fun _ w4 =>
      host w4 = host w /\ contexts w4 = contexts w /\
      (exists errs, reported w4 = reported w ++ fst r :: errs) /\ device w4 = device w).
    { apply wp_cudaSoftCheck; [| |done].
      - intros _. repeat split; auto. by exists [].
      - intros _ _. simpl. repeat split; auto. exists [e].
        rewrite Hr3, <- app_assoc. done. }
    intros _ w4 (Hh4 & Hc4 & [errs Hr4] & Hd4).
    apply (HK r [] (fst r :: errs)). rewrite Hp.
    repeat split; simpl; auto; try done. intros Hx. congruence.
  - (* the allocation succeeded *)
    eapply wp_seq with (R := fun _ w2 => w2 = w1); [by apply wp_cudaSoftCheck|].
    intros _ ? ->. rewrite Hp.
    eapply wp_seq with (R := fun e w3 =>
      host w3 = host w /\ contexts w3 = contexts w /\ reported w3 = reported w /\
      exists c, device w3 = <[b := c]> (device w) /\
                (e = cudaSuccess -> c = host_bytes src size w)).
    { apply wp_cudaMemcpy.
      - intros Hf. repeat split; auto. eexists. split; [exact Hd1|]. intros Hs. by destruct Hf.
      - intros _ ->. repeat split; auto. eexists. split; [exact Hd1|]. done.
      - intros _ _ _. repeat split; auto. eexists. split; [exact Hd1|]. intros [=].
      - intros b' old from _ [= <-] _ _ Hold Hfrom _ _.
        rewrite Hd1, lookup_insert_eq in Hold. injection Hold as <-.
        repeat split; auto. eexists. simpl. rewrite Hd1, insert_insert_eq.
        split; [done|]. intros _. rewrite overwrite_fresh.
        unfold host_bytes. by rewrite <- Hh1, Hfrom.
      - intros; discriminate.
      - done. }
    intros e w3 (Hh3 & Hc3 & Hr3 & c & Hd3 & Hc).
    eapply wp_seq with (R := fun _ w4 =>
      host w4 = host w /\ contexts w4 = contexts w /\ device w4 = <[b := c]> (device w) /\
      exists errs, reported w4 = reported w ++ errs /\
        (soft_check_exits = true -> errs = []) /\
        (errs = [] -> c = host_bytes src size w)).
    { apply wp_cudaSoftCheck; [| |done].
      - intros He'. repeat split; auto. exists []. rewrite app_nil_r. auto.
      - intros _ Hsoft. simpl. repeat split; auto. exists [e].
        rewrite Hr3. repeat split; auto; [congruence|done]. }
    intros _ w4 (Hh4 & Hc4 & Hd4 & errs & Hr4 & Hsoft & Hc').
    apply (HK r c errs). rewrite Hp.
    repeat split; simpl; auto; done.
Qed.
End CreationExact.

Section CreationExactly.
Context `{Build}.
Local Open Scope run_scope.

Lemma init_model_exact (num_baselines num_freqs num_tiles sbf_l sbf_n : Z)
    (sbf_c sbf_dx : spec_float)
    (uvws freqs shapelet_basis_values d_fee_coeffs : ptr)
    (num_fee_beam_coeffs num_unique_fee_tiles num_unique_fee_freqs : Z)
    (d_beam_jones_map d_beam_norm_jones vis : ptr) (w : world) :
  wp True
    (init_model num_baselines num_freqs num_tiles sbf_l sbf_n sbf_c sbf_dx
       uvws freqs shapelet_basis_values d_fee_coeffs
       num_fee_beam_coeffs num_unique_fee_tiles num_unique_fee_freqs
       d_beam_jones_map d_beam_norm_jones vis) w
    (fun ctx w' =>
       exists p1 p2 p3 p4 c1 c2 c3 c4 errs,
         ctx = Build_Addresses num_freqs (num_baselines * num_freqs) num_tiles
                 sbf_l sbf_n sbf_c sbf_dx p1 p2 p3 d_fee_coeffs
                 num_fee_beam_coeffs num_unique_fee_tiles num_unique_fee_freqs
                 d_beam_jones_map d_beam_norm_jones p4 vis /\
         creation_chain p1 p2 p3 p4 c1 c2 c3 c4 errs w w' /\
         (errs = [] ->
            exists b1 b2 b3 b4,
              p1 = Ptr b1 /\ p2 = Ptr b2 /\ p3 = Ptr b3 /\ p4 = Ptr b4 /\
              device w' =
                device_created num_baselines num_freqs sbf_l sbf_n
                  uvws freqs shapelet_basis_values vis b1 b2 b3 b4 w))
    (fun _ _ => True).
Proof.
  unfold init_model.
  apply wp_allocate_and_copy_exact.
  intros r1 c1 e1 w1 (Hh1 & Hc1 & Hr1 & Hs1 & Hdead1 & Hd1 & Hn1 & Hq1).
  apply wp_allocate_and_copy_exact.
  intros r2 c2 e2 w2 (Hh2 & Hc2 & Hr2 & Hs2 & Hdead2 & Hd2 & Hn2 & Hq2).
  eapply wp_seq with (R := fun n w' => n = sbf_l * sbf_n /\ w' = w2).
  { apply wp_defined; [|done]. intros n Hn. by apply int_mul_Some in Hn. }
  intros ? ? [-> ->].
  apply wp_allocate_and_copy_exact.
  intros r3 c3 e3 w3 (Hh3 & Hc3 & Hr3 & Hs3 & Hdead3 & Hd3 & Hn3 & Hq3).
  eapply wp_seq with (R := fun n w' => n = num_baselines * num_freqs /\ w' = w3).
  { apply wp_defined; [|done]. intros n Hn. by apply int_mul_Some in Hn. }
  intros ? ? [-> ->].
  apply wp_allocate_and_copy_exact.
  intros r4 c4 e4 w4 (Hh4 & Hc4 & Hr4 & Hs4 & Hdead4 & Hd4 & Hn4 & Hq4).
  apply wp_ret.
  exists (snd r1), (snd r2), (snd r3), (snd r4), c1, c2, c3, c4, (e1 ++ e2 ++ e3 ++ e4).
  split; [done|]. split.
  { unfold creation_chain. rewrite <- Hd1, <- Hd2, <- Hd3.
    repeat split; try congruence.
    - rewrite Hr4, Hr3, Hr2, Hr1. by rewrite <- !app_assoc.
    - intros Hs. by rewrite Hs1, Hs2, Hs3, Hs4. }
  intros Hquiet.
  apply app_eq_nil in Hquiet as [-> Hquiet].
  apply app_eq_nil in Hquiet as [-> Hquiet].
  apply app_eq_nil in Hquiet as [-> ->].
  destruct (snd r1) as [|b1]; [by destruct Hn1|].
  destruct (snd r2) as [|b2]; [by destruct Hn2|].
  destruct (snd r3) as [|b3]; [by destruct Hn3|].
  destruct (snd r4) as [|b4]; [by destruct Hn4|].
  exists b1, b2, b3, b4. repeat split.
  unfold device_created. rewrite Hd4, Hd3, Hd2, Hd1. simpl.
  rewrite Hq1, Hq2, Hq3, Hq4 by done.
  rewrite !(host_bytes_same_host _ _ w w3) by congruence.
  rewrite !(host_bytes_same_host _ _ w w2) by congruence.
  rewrite !(host_bytes_same_host _ _ w w1) by congruence.
  reflexivity.
Qed.
End CreationExactly.

Lemma free_the_chain (p1 p2 p3 p4 : ptr) (c1 c2 c3 c4 : list memval)
    (d : gmap loc (list memval)) :
  dead_in p1 d ->
  dead_in p2 (alloc_of p1 c1 d) ->
  dead_in p3 (alloc_of p2 c2 (alloc_of p1 c1 d)) ->
  dead_in p4 (alloc_of p3 c3 (alloc_of p2 c2 (alloc_of p1 c1 d))) ->
  let d4 := alloc_of p4 c4 (alloc_of p3 c3 (alloc_of p2 c2 (alloc_of p1 c1 d))) in
  live_or_null p1 d4 /\
  live_or_null p2 (free_of p1 d4) /\
  live_or_null p3 (free_of p2 (free_of p1 d4)) /\
  live_or_null p4 (free_of p3 (free_of p2 (free_of p1 d4))) /\
  free_of p4 (free_of p3 (free_of p2 (free_of p1 d4))) = d.
Proof.
  destruct p1 as [|b1], p2 as [|b2], p3 as [|b3], p4 as [|b4]; simpl; intros;
    repeat match goal with
           | Hx : <[_ := _]> _ !! _ = None |- _ => apply lookup_insert_None in Hx as [? ?]
           end;
    repeat split; try done;
    try (rewrite ?lookup_delete, ?lookup_insert; repeat case_decide; by eauto);
    apply map_eq; intros i; rewrite ?lookup_delete, ?lookup_insert;
    repeat case_decide; subst; congruence.
Qed.

Section DestructionAfterFailures.
Context `{Build}.
Local Open Scope run_scope.

Lemma wp_free_any_ok (p : ptr) (w : world) E :
  no_faults w -> live_or_null p (device w) ->
  wp False (cudaFree p) w
    (fun e w' => e = cudaSuccess /\ host w' = host w /\ contexts w' = contexts w /\
                 reported w' = reported w /\ no_faults w' /\
                 device w' = free_of p (device w)) E.
Proof.
  intros Hnf Hlive. apply wp_cudaFree.
  - intros Hf. by apply no_faults_next in Hf.
  - intros _ ->. repeat split; auto. by apply no_faults_pop.
  - intros b _ -> Hdead. simpl in Hlive. rewrite Hdead in Hlive. by destruct Hlive.
  - intros b _ -> _. repeat split; auto. by apply no_faults_pop.
Qed.

Lemma wp_free_field_any_ok_then {B} (a : loc) (ctx : Addresses) (field : Addresses -> ptr)
    (k : run B) (w : world) Q E :
  contexts w !! a = Some ctx -> no_faults w -> live_or_null (field ctx) (device w) ->
  (forall w', host w' = host w -> contexts w' = contexts w -> reported w' = reported w ->
     no_faults w' -> device w' = free_of (field ctx) (device w) -> wp False k w' Q E) ->
  wp False (p <- arrow a field ;; e <- cudaFree p ;; cudaSoftCheck e ;; k) w Q E.
Proof.
  intros Hctx Hnf Hlive Hk.
  eapply wp_seq with (R := fun p w' => w' = w /\ p = field ctx).
  { apply wp_arrow; [|congruence]. intros c Hc. rewrite Hctx in Hc. by injection Hc as <-. }
  intros ? ? [-> ->].
  eapply wp_seq; [by apply wp_free_any_ok|].
  intros e w1 (-> & Hh & Hc & Hr & Hnf1 & Hd).
  eapply wp_seq with (R := fun _ w' => w' = w1); [by apply wp_cudaSoftCheck|].
  intros _ ? ->. by apply Hk.
Qed.

(** X11. If [init_model] returns without having reported an error, or
    returns at all in a build whose check is fatal, then the context is
    complete: its four buffers are new, distinct device buffers holding
    the bytes of the host arrays, and nothing else has changed. *)
Theorem init_model_quiet_is_valid
    (num_baselines num_freqs num_tiles sbf_l sbf_n : Z) (sbf_c sbf_dx : spec_float)
    (uvws freqs shapelet_basis_values d_fee_coeffs : ptr)
    (num_fee_beam_coeffs num_unique_fee_tiles num_unique_fee_freqs : Z)
    (d_beam_jones_map d_beam_norm_jones vis : ptr) (w w' : world) (ctx : Addresses) :
  init_model num_baselines num_freqs num_tiles sbf_l sbf_n sbf_c sbf_dx
    uvws freqs shapelet_basis_values d_fee_coeffs
    num_fee_beam_coeffs num_unique_fee_tiles num_unique_fee_freqs
    d_beam_jones_map d_beam_norm_jones vis w = Returns ctx w' ->
  reported w' = reported w \/ soft_check_exits = true ->
  exists b1 b2 b3 b4,
    ctx = Build_Addresses num_freqs (num_baselines * num_freqs) num_tiles
            sbf_l sbf_n sbf_c sbf_dx (Ptr b1) (Ptr b2) (Ptr b3) d_fee_coeffs
            num_fee_beam_coeffs num_unique_fee_tiles num_unique_fee_freqs
            d_beam_jones_map d_beam_norm_jones (Ptr b4) vis /\
    NoDup [b1; b2; b3; b4] /\
    Forall (fun b => device w !! b = None) [b1; b2; b3; b4] /\
    host w' = host w /\ contexts w' = contexts w /\ reported w' = reported w /\
    device w' =
      device_created num_baselines num_freqs sbf_l sbf_n
        uvws freqs shapelet_basis_values vis b1 b2 b3 b4 w.
Proof.
  intros Hrun Hquiet.
  pose proof (init_model_exact num_baselines num_freqs num_tiles sbf_l sbf_n
                sbf_c sbf_dx uvws freqs shapelet_basis_values d_fee_coeffs
                num_fee_beam_coeffs num_unique_fee_tiles num_unique_fee_freqs
                d_beam_jones_map d_beam_norm_jones vis w) as Hwp.
  unfold wp in Hwp. rewrite Hrun in Hwp.
  destruct Hwp as (p1 & p2 & p3 & p4 & c1 & c2 & c3 & c4 & errs & -> & Hchain & Hvalid).
  destruct Hchain as (Hh & Hc & Hr & Hs & Hd1 & Hd2 & Hd3 & Hd4 & Hd).
  assert (errs = []) as ->.
  { destruct Hquiet as [Hq|Hq]; [|by apply Hs].
    rewrite Hr in Hq. rewrite <- (app_nil_r (reported w)) in Hq at 2.
    by apply app_inv_head in Hq. }
  destruct Hvalid as (b1 & b2 & b3 & b4 & -> & -> & -> & -> & Hcreated); [done|].
  simpl in *.
  repeat match goal with
         | Hx : <[_ := _]> _ !! _ = None |- _ => apply lookup_insert_None in Hx as [? ?]
         end.
  exists b1, b2, b3, b4. rewrite app_nil_r in Hr. repeat split; auto.
  repeat (apply NoDup_cons_2;
            [rewrite ?not_elem_of_cons; repeat split; try congruence;
             apply not_elem_of_nil|]).
  apply NoDup_nil_2.
Qed.

(** X12. Whatever failed while [init_model] made the context it returned,
    a [destroy] that the runtime does not fail frees every buffer that was
    allocated (a null pointer is passed to [cudaFree], which ignores it),
    reports nothing, and leaves device memory as it was before the
    creation. *)
Theorem destroy_undoes_any_creation
    (num_baselines num_freqs num_tiles sbf_l sbf_n : Z) (sbf_c sbf_dx : spec_float)
    (uvws freqs shapelet_basis_values d_fee_coeffs : ptr)
    (num_fee_beam_coeffs num_unique_fee_tiles num_unique_fee_freqs : Z)
    (d_beam_jones_map d_beam_norm_jones vis : ptr) (a : loc) (w w1 : world)
    (ctx : Addresses) :
  init_model num_baselines num_freqs num_tiles sbf_l sbf_n sbf_c sbf_dx
    uvws freqs shapelet_basis_values d_fee_coeffs
    num_fee_beam_coeffs num_unique_fee_tiles num_unique_fee_freqs
    d_beam_jones_map d_beam_norm_jones vis w = Returns ctx w1 ->
  no_faults w1 ->
  exists w2,
    (keep_context a ctx ;; destroy a) w1 = Returns tt w2 /\
    device w2 = device w /\ host w2 = host w /\ reported w2 = reported w1 /\
    contexts w2 !! a = Some ctx.
Proof.
  intros Hrun Hnf.
  pose proof (init_model_exact num_baselines num_freqs num_tiles sbf_l sbf_n
                sbf_c sbf_dx uvws freqs shapelet_basis_values d_fee_coeffs
                num_fee_beam_coeffs num_unique_fee_tiles num_unique_fee_freqs
                d_beam_jones_map d_beam_norm_jones vis w) as Hwp.
  unfold wp in Hwp. rewrite Hrun in Hwp.
  destruct Hwp as (p1 & p2 & p3 & p4 & c1 & c2 & c3 & c4 & errs & Hctx & Hchain & _).
  destruct Hchain as (Hh & Hc & Hr & Hs & Hd1 & Hd2 & Hd3 & Hd4 & Hd).
  destruct (free_the_chain p1 p2 p3 p4 c1 c2 c3 c4 (device w) Hd1 Hd2 Hd3 Hd4)
    as (Hl1 & Hl2 & Hl3 & Hl4 & Hfreed).
  rewrite <- Hd in Hl1, Hl2, Hl3, Hl4, Hfreed.
  cut (exists u w2, (keep_context a ctx ;; destroy a) w1 = Returns u w2 /\
         (device w2 = device w /\ host w2 = host w /\ reported w2 = reported w1 /\
          contexts w2 !! a = Some ctx)).
  { intros ([] & w2 & Hdestroy & Hpost). by exists w2. }
  apply wp_returns.
  eapply wp_seq with (R := fun _ w' =>
    host w' = host w /\ reported w' = reported w1 /\ no_faults w' /\
    device w' = device w1 /\ contexts w' !! a = Some ctx).
  { unfold keep_context, wp. simpl. rewrite lookup_insert_eq. by repeat split. }
  intros _ w1' (Hh' & Hr' & Hnf' & Hd' & Ha').
  assert (d_uvws ctx = p1 /\ d_freqs ctx = p2 /\ d_shapelet_basis_values ctx = p3 /\
          d_vis ctx = p4) as (Hp1 & Hp2 & Hp3 & Hp4) by (by rewrite Hctx).
  unfold destroy.
  apply (wp_free_field_any_ok_then a ctx d_uvws); [done|done|by rewrite Hp1, Hd'|].
  intros w2 Hh2 Hc2 Hr2 Hnf2 Hd2'. rewrite Hp1, Hd' in Hd2'.
  apply (wp_free_field_any_ok_then a ctx d_freqs);
    [congruence|done|by rewrite Hp2, Hd2'|].
  intros w3 Hh3 Hc3 Hr3 Hnf3 Hd3'. rewrite Hp2, Hd2' in Hd3'.
  apply (wp_free_field_any_ok_then a ctx d_shapelet_basis_values);
    [congruence|done|by rewrite Hp3, Hd3'|].
  intros w4 Hh4 Hc4 Hr4 Hnf4 Hd4'. rewrite Hp3, Hd3' in Hd4'.
  eapply wp_seq with (R := fun p w' => w' = w4 /\ p = p4).
  { apply wp_arrow; [|congruence]. intros c Hc'.
    rewrite Hc4, Hc3, Hc2, Ha' in Hc'. injection Hc' as <-. by split. }
  intros ? ? [-> ->].
  eapply wp_seq; [apply wp_free_any_ok; [done|by rewrite Hd4']|].
  intros e w5 (-> & Hh5 & Hc5 & Hr5 & Hnf5 & Hd5).
  apply wp_cudaSoftCheck; try done. intros _.
  split; [by rewrite Hd5, Hd4'|]. split; [congruence|]. split; congruence.
Qed.
End DestructionAfterFailures.

(** ** More on clearing, sizes and the cleared read-back *)

(** X13. [clear_vis] on a context the caller holds always returns, and
    never reports anything: the result of [cudaMemset] is dropped, so that
    a failed call leaves the device as it was without a trace. It writes no
    host memory, no context and no device buffer but the visibility
    buffer. *)
Theorem clear_vis_reports_nothing (a : loc) (ctx : Addresses) (w : world) :
  contexts w !! a = Some ctx ->
  exists w', clear_vis a w = Returns tt w' /\
    reported w' = reported w /\ host w' = host w /\ contexts w' = contexts w /\
    (forall b, d_vis ctx <> Ptr b -> device w' !! b = device w !! b) /\
    (next_fails w -> device w' = device w).
Proof.
  intros Hctx.
  cut (exists u w', clear_vis a w = Returns u w' /\
         (reported w' = reported w /\ host w' = host w /\ contexts w' = contexts w /\
          (forall b, d_vis ctx <> Ptr b -> device w' !! b = device w !! b) /\
          (next_fails w -> device w' = device w))).
  { intros ([] & w' & Hrun & Hpost). by exists w'. }
  apply wp_returns. unfold clear_vis.
  eapply wp_seq with (R := fun p w' => w' = w /\ p = d_vis ctx);
    [apply wp_arrow; [intros c Hc; rewrite Hctx in Hc; by injection Hc as <-|congruence]|].
  intros ? ? [-> ->].
  eapply wp_seq with (R := fun p w' => w' = w /\ p = num_vis ctx);
    [apply wp_arrow; [intros c Hc; rewrite Hctx in Hc; by injection Hc as <-|congruence]|].
  intros ? ? [-> ->].
  eapply wp_seq; [|intros e w1 Hpost; apply wp_ret; exact Hpost].
  apply wp_cudaMemset.
  - intros _. by repeat split.
  - intros _ _. by repeat split.
  - intros _ _ _. by repeat split.
  - intros b old Hb Hnf _ Hold _. repeat split; auto.
    + intros b' Hb'. simpl. rewrite lookup_insert_ne; [done|]. congruence.
    + intros Hf. by destruct Hnf.
Qed.

Lemma clear_vis_reports_nothing_witness :
  exists w', clear_vis 1 (sample_live_world [cudaErrorLaunchFailure]) = Returns tt w' /\
    reported w' = [] /\ device w' = device (sample_live_world [cudaErrorLaunchFailure]).
Proof.
  destruct (clear_vis_reports_nothing 1%positive sample_context
              (sample_live_world [cudaErrorLaunchFailure]))
    as (w' & Hrun & Hreported & _ & _ & _ & Hsame); [reflexivity|].
  exists w'. split; [exact Hrun|]. split; [exact Hreported|].
  apply Hsame. unfold next_fails. simpl. discriminate.
Defined.

Section Sizes.
Context `{Build}.
Local Open Scope run_scope.

Lemma int_mul_range a b n : int_mul a b = Some n -> INT_MIN <= a * b <= INT_MAX.
Proof. unfold int_mul. case_match; [lia|done]. Qed.

Lemma size_exact (k s : Z) :
  0 <= k <= INT_MAX -> 0 < s <= 32 -> size_t_mul (size_t_of_int k) s = k * s.
Proof.
  unfold size_t_mul, size_t_of_int, SIZE_MODULUS, INT_MAX.
  intros Hk Hs. rewrite (Z.mod_small k) by lia. rewrite Z.mod_small by nia. lia.
Qed.

Lemma sizeof_FLOAT_range : 0 < sizeof_FLOAT <= 32.
Proof. unfold sizeof_FLOAT. destruct SINGLE; lia. Qed.

Lemma sizeof_UVW_range : 0 < sizeof_UVW <= 32.
Proof. unfold sizeof_UVW, sizeof_FLOAT. destruct SINGLE; lia. Qed.

Lemma length_host_bytes p count w :
  0 <= count -> readable p count w ->
  Z.of_nat (length (host_bytes p count w)) = count.
Proof.
  intros Hpos [->|Hfits]; unfold host_bytes; [by rewrite take_0|].
  unfold fits in Hfits. destruct (block_of p (host w)) as [l|]; [|done]. simpl.
  apply Z.leb_le in Hfits. rewrite length_take. lia.
Qed.

(** X14. When nothing fails and the counts are not negative, the four
    device buffers of the context [init_model] returns have exactly
    [num_baselines * sizeof(UVW)], [num_freqs * sizeof(FLOAT)],
    [sbf_l * sbf_n * sizeof(FLOAT)] and
    [num_baselines * num_freqs * sizeof(JonesF32)] bytes: no size wraps
    around. *)
Theorem init_model_buffer_sizes
    (num_baselines num_freqs num_tiles sbf_l sbf_n : Z) (sbf_c sbf_dx : spec_float)
    (uvws freqs shapelet_basis_values d_fee_coeffs : ptr)
    (num_fee_beam_coeffs num_unique_fee_tiles num_unique_fee_freqs : Z)
    (d_beam_jones_map d_beam_norm_jones vis : ptr) (w : world) :
  no_faults w ->
  init_model_defined num_baselines num_freqs sbf_l sbf_n
    uvws freqs shapelet_basis_values vis w ->
  0 <= num_baselines <= INT_MAX -> 0 <= num_freqs <= INT_MAX -> 0 <= sbf_l * sbf_n ->
  exists ctx w',
    init_model num_baselines num_freqs num_tiles sbf_l sbf_n sbf_c sbf_dx
      uvws freqs shapelet_basis_values d_fee_coeffs
      num_fee_beam_coeffs num_unique_fee_tiles num_unique_fee_freqs
      d_beam_jones_map d_beam_norm_jones vis w = Returns ctx w' /\
    Forall2 (fun p n => exists block, block_of p (device w') = Some block /\
                                      Z.of_nat (length block) = n)
      (buffers ctx)
      [num_baselines * sizeof_UVW; num_freqs * sizeof_FLOAT;
       sbf_l * sbf_n * sizeof_FLOAT; num_baselines * num_freqs * sizeof_JonesF32].
Proof.
  intros Hnf Hdef Hnb Hnfr Hsbf.
  destruct (init_model_succeeds num_baselines num_freqs num_tiles sbf_l sbf_n
              sbf_c sbf_dx uvws freqs shapelet_basis_values d_fee_coeffs
              num_fee_beam_coeffs num_unique_fee_tiles num_unique_fee_freqs
              d_beam_jones_map d_beam_norm_jones vis w Hnf Hdef)
    as (b1 & b2 & b3 & b4 & w1 & Hrun & Hnd & Hfresh & Hh & Hc & Hr & Hnf1 & Hd).
  destruct Hdef as (Hr1 & Hr2 & (ln & Hln & Hr3) & (nv & Hnv & Hr4)).
  pose proof (int_mul_range _ _ _ Hln) as Hlr. pose proof (int_mul_range _ _ _ Hnv) as Hvr.
  apply int_mul_Some in Hln as ->. apply int_mul_Some in Hnv as ->.
  pose proof (NoDup_cons_1_1 _ _ Hnd) as Hn1. apply NoDup_cons_1_2 in Hnd.
  pose proof (NoDup_cons_1_1 _ _ Hnd) as Hn2. apply NoDup_cons_1_2 in Hnd.
  pose proof (NoDup_cons_1_1 _ _ Hnd) as Hn3.
  rewrite !not_elem_of_cons in Hn1. rewrite !not_elem_of_cons in Hn2.
  rewrite !not_elem_of_cons in Hn3.
  destruct Hn1 as (Hn12 & Hn13 & Hn14 & _), Hn2 as (Hn23 & Hn24 & _), Hn3 as (Hn34 & _).
  eexists _, w1. split; [exact Hrun|].
  unfold buffers, device_created in *. simpl.
  assert (0 <= num_baselines * num_freqs) by nia.
  repeat apply Forall2_cons_2; [..|apply Forall2_nil_2]; simpl; rewrite Hd.
  - eexists. rewrite !lookup_insert_ne, lookup_insert_eq by done. split; [done|].
    rewrite length_host_bytes; [|apply size_t_mul_nonneg|done].
    apply size_exact; [lia|apply sizeof_UVW_range].
  - eexists. rewrite !lookup_insert_ne, lookup_insert_eq by done. split; [done|].
    rewrite length_host_bytes; [|apply size_t_mul_nonneg|done].
    apply size_exact; [lia|apply sizeof_FLOAT_range].
  - eexists. rewrite !lookup_insert_ne, lookup_insert_eq by done. split; [done|].
    rewrite length_host_bytes; [|apply size_t_mul_nonneg|done].
    apply size_exact; [lia|apply sizeof_FLOAT_range].
  - eexists. rewrite lookup_insert_eq. split; [done|].
    rewrite length_host_bytes; [|apply size_t_mul_nonneg|done].
    apply size_exact; [lia|]. unfold sizeof_JonesF32. lia.
Qed.
End Sizes.

Section ClearedReadBack.
Context `{Build}.
Local Open Scope run_scope.

(** X15. When nothing fails, creating a context, clearing it and reading
    it back returns with the host visibility buffer holding zero in all
    eight fields of each of its [num_baselines * num_freqs] elements,
    whatever it held before; no other host array is written and nothing is
    reported. *)
Theorem create_clear_copy_gives_zeros
    (num_baselines num_freqs num_tiles sbf_l sbf_n : Z) (sbf_c sbf_dx : spec_float)
    (uvws freqs shapelet_basis_values d_fee_coeffs : ptr)
    (num_fee_beam_coeffs num_unique_fee_tiles num_unique_fee_freqs : Z)
    (d_beam_jones_map d_beam_norm_jones vis : ptr) (a : loc) (w : world) :
  no_faults w ->
  init_model_defined num_baselines num_freqs sbf_l sbf_n
    uvws freqs shapelet_basis_values vis w ->
  exists ctx w1 w2,
    init_model num_baselines num_freqs num_tiles sbf_l sbf_n sbf_c sbf_dx
      uvws freqs shapelet_basis_values d_fee_coeffs
      num_fee_beam_coeffs num_unique_fee_tiles num_unique_fee_freqs
      d_beam_jones_map d_beam_norm_jones vis w = Returns ctx w1 /\
    (keep_context a ctx ;; clear_vis a ;; copy_vis a) w1 = Returns tt w2 /\
    reported w2 = reported w /\
    (forall b, vis <> Ptr b -> host w2 !! b = host w !! b) /\
    (forall i : nat, Z.of_nat i < num_baselines * num_freqs ->
       exists block, block_of vis (host w2) = Some block /\
                     vis_elem block i = Some zero_JonesF32).
Proof.
  intros Hnf Hdef.
  destruct (init_model_succeeds num_baselines num_freqs num_tiles sbf_l sbf_n
              sbf_c sbf_dx uvws freqs shapelet_basis_values d_fee_coeffs
              num_fee_beam_coeffs num_unique_fee_tiles num_unique_fee_freqs
              d_beam_jones_map d_beam_norm_jones vis w Hnf Hdef)
    as (b1 & b2 & b3 & b4 & w1 & Hrun & Hnd & Hfresh & Hh & Hc & Hr & Hnf1 & Hd).
  destruct Hdef as (_ & _ & _ & (nv & Hnv & Hread)).
  pose proof (int_mul_range _ _ _ Hnv) as Hrange.
  apply int_mul_Some in Hnv as ->.
  set (n := size_t_mul (size_t_of_int (num_baselines * num_freqs)) sizeof_JonesF32) in *.
  assert (0 <= n) as Hn0 by apply size_t_mul_nonneg.
  set (zeros := replicate (Z.to_nat n) (Byte 0)).
  assert (length zeros = Z.to_nat n) as Hzl by apply length_replicate.
  assert (device w1 !! b4 = Some (host_bytes vis n w)) as Hb4.
  { rewrite Hd. unfold device_created. by rewrite lookup_insert_eq. }
  pose proof (length_host_bytes vis n w Hn0 Hread) as Hdl.
  match type of Hrun with _ = Returns ?c _ => set (ctx := c) in * end.
  exists ctx, w1.
  cut (exists u w2, (keep_context a ctx ;; clear_vis a ;; copy_vis a) w1 = Returns u w2 /\
         (reported w2 = reported w /\
          ((n = 0 /\ host w2 = host w) \/
           (n <> 0 /\ exists h hv, vis = Ptr h /\ host w !! h = Some hv /\
              host w2 = <[h := zeros ++ drop (Z.to_nat n) hv]> (host w))))).
  { intros ([] & w2 & Hall & Hr2 & Hcases). exists w2.
    split; [exact Hrun|]. split; [exact Hall|]. split; [exact Hr2|]. split.
    - intros b Hb. destruct Hcases as [[_ ->]|(_ & h & hv & -> & _ & ->)]; [done|].
      rewrite lookup_insert_ne; [done|]. congruence.
    - intros i Hi.
      assert (n = 32 * (num_baselines * num_freqs)) as Hn by (apply size_of_vis; lia).
      destruct Hcases as [[Hz _]|(_ & h & hv & -> & _ & ->)]; [lia|].
      eexists. simpl. rewrite lookup_insert_eq. split; [done|].
      apply vis_elem_zeroed. lia. }
  apply wp_returns.
  eapply wp_seq with (R := fun _ w' =>
    host w' = host w /\ reported w' = reported w /\ no_faults w' /\
    device w' = device w1 /\ contexts w' !! a = Some ctx).
  { unfold keep_context, wp. simpl. rewrite lookup_insert_eq. by repeat split. }
  intros _ w1' (Hh' & Hr' & Hnf' & Hd' & Ha').
  eapply wp_seq with (R := fun _ w2 =>
    host w2 = host w /\ reported w2 = reported w /\ no_faults w2 /\
    contexts w2 !! a = Some ctx /\
    ((n = 0 /\ device w2 = device w1) \/
     (n <> 0 /\ device w2 = <[b4 := zeros]> (device w1)))).
  { unfold clear_vis.
    eapply wp_seq with (R := fun p w' => w' = w1' /\ p = Ptr b4);
      [apply wp_arrow; [intros c Hc'; rewrite Ha' in Hc'; by injection Hc' as <-|congruence]|].
    intros ? ? [-> ->].
    eapply wp_seq with (R := fun p w' => w' = w1' /\ p = num_baselines * num_freqs);
      [apply wp_arrow; [intros c Hc'; rewrite Ha' in Hc'; by injection Hc' as <-|congruence]|].
    intros ? ? [-> ->]. fold n.
    eapply wp_seq; [|intros e w2 Hpost; apply wp_ret; exact Hpost].
    apply wp_cudaMemset.
    - intros Hf. by apply no_faults_next in Hf.
    - intros _ Hz. repeat split; auto. by apply no_faults_pop.
    - intros _ Hne Hfits. simpl in Hfits. rewrite Hd', Hb4 in Hfits. simpl in Hfits.
      apply Z.leb_gt in Hfits. lia.
    - intros b old [= <-] _ Hne Hold _. rewrite Hd', Hb4 in Hold. injection Hold as <-.
      repeat split; auto; try (by apply no_faults_pop). right. split; [done|].
      simpl. rewrite Hd'. f_equal. unfold overwrite.
      change (0 mod 256) with 0. fold zeros.
      rewrite take_ge by lia. rewrite drop_ge by lia. apply app_nil_r. }
  intros _ w2 (Hh2 & Hr2 & Hnf2 & Ha2 & Hd2).
  unfold copy_vis.
  eapply wp_seq with (R := fun p w' => w' = w2 /\ p = vis);
    [apply wp_arrow; [intros c Hc'; rewrite Ha2 in Hc'; by injection Hc' as <-|congruence]|].
  intros ? ? [-> ->].
  eapply wp_seq with (R := fun p w' => w' = w2 /\ p = Ptr b4);
    [apply wp_arrow; [intros c Hc'; rewrite Ha2 in Hc'; by injection Hc' as <-|congruence]|].
  intros ? ? [-> ->].
  eapply wp_seq with (R := fun p w' => w' = w2 /\ p = num_baselines * num_freqs);
    [apply wp_arrow; [intros c Hc'; rewrite Ha2 in Hc'; by injection Hc' as <-|congruence]|].
  intros ? ? [-> ->]. fold n.
  eapply wp_seq with (R := fun e w3 =>
    e = cudaSuccess /\ reported w3 = reported w /\
    ((n = 0 /\ host w3 = host w) \/
     (n <> 0 /\ exists h hv, vis = Ptr h /\ host w !! h = Some hv /\
        host w3 = <[h := zeros ++ drop (Z.to_nat n) hv]> (host w)))).
  { apply wp_cudaMemcpy.
    - intros Hf. by apply no_faults_next in Hf.
    - intros _ Hz. repeat split; auto.
    - intros _ Hne Hfits. simpl in Hfits.
      destruct Hd2 as [[? _]|[_ Hd2]]; [done|].
      rewrite Hd2, lookup_insert_eq in Hfits. simpl in Hfits.
      apply Z.leb_gt in Hfits. lia.
    - intros; discriminate.
    - intros h hv from _ -> _ Hne Hold Hfrom _ _. simpl in Hfrom.
      destruct Hd2 as [[? _]|[_ Hd2]]; [done|].
      rewrite Hd2, lookup_insert_eq in Hfrom. injection Hfrom as <-.
      rewrite Hh2 in Hold.
      repeat split; auto. right. split; [done|]. exists h, hv.
      split; [done|]. split; [done|]. simpl. rewrite Hh2. f_equal.
      unfold overwrite. by rewrite take_ge by lia.
    - intros Hne Hfits. destruct Hread as [?|Hread]; [done|].
      rewrite Hh2 in Hfits. congruence. }
  intros e w3 (-> & Hr3 & Hcases).
  apply wp_cudaSoftCheck; done.
Qed.
End ClearedReadBack.

(** ** The further theorems at sample inputs *)

Lemma init_model_quiet_is_valid_witness :
  exists ctx w' b1 b2 b3 b4,
    @sample_init_model soft_build (sample_world []) = Returns ctx w' /\
    ctx = Build_Addresses 2 (1 * 2) 3 1 1 (S754_zero false) (S754_zero false)
            (Ptr b1) (Ptr b2) (Ptr b3) (Ptr 9) 0 0 0 NULL NULL (Ptr b4) (Ptr 4) /\
    NoDup [b1; b2; b3; b4] /\
    device w' !! b4 = Some sample_vis.
Proof.
  eexists _, _.
  edestruct (@init_model_quiet_is_valid soft_build 1 2 3 1 1
               (S754_zero false) (S754_zero false) (Ptr 1) (Ptr 2) (Ptr 3) (Ptr 9)
               0 0 0 NULL NULL (Ptr 4) (sample_world []))
    as (b1 & b2 & b3 & b4 & Hctx & Hnd & _ & _ & _ & _ & Hd).
  - vm_compute. reflexivity.
  - left. vm_compute. reflexivity.
  - exists b1, b2, b3, b4. split; [vm_compute; reflexivity|].
    split; [exact Hctx|]. split; [exact Hnd|].
    rewrite Hd. unfold device_created. rewrite lookup_insert_eq. reflexivity.
Defined.

Lemma destroy_undoes_any_creation_witness :
  exists ctx w1 w2,
    @sample_init_model soft_build (sample_world second_malloc_fails) = Returns ctx w1 /\
    d_freqs ctx = NULL /\
    (keep_context 1 ctx ;; @destroy soft_build 1)%run w1 = Returns tt w2 /\
    device w2 = device (sample_world second_malloc_fails) /\
    host w2 = host (sample_world second_malloc_fails) /\
    reported w2 = reported w1 /\
    contexts w2 !! 1%positive = Some ctx.
Proof.
  eexists _, _.
  edestruct (@destroy_undoes_any_creation soft_build 1 2 3 1 1
               (S754_zero false) (S754_zero false) (Ptr 1) (Ptr 2) (Ptr 3) (Ptr 9)
               0 0 0 NULL NULL (Ptr 4) 1%positive (sample_world second_malloc_fails))
    as (w2 & Hdestroy & Hpost).
  - vm_compute. reflexivity.
  - vm_compute. constructor.
  - exists w2. split; [vm_compute; reflexivity|]. split; [reflexivity|].
    split; [exact Hdestroy|]. exact Hpost.
Defined.

Lemma init_model_buffer_sizes_witness :
  exists ctx w',
    @sample_init_model soft_build (sample_world []) = Returns ctx w' /\
    Forall2 (fun p n => exists block, block_of p (device w') = Some block /\
                                      Z.of_nat (length block) = n)
      (buffers ctx) [24; 16; 8; 64].
Proof.
  apply (@init_model_buffer_sizes soft_build 1 2 3 1 1
           (S754_zero false) (S754_zero false) (Ptr 1) (Ptr 2) (Ptr 3) (Ptr 9)
           0 0 0 NULL NULL (Ptr 4) (sample_world [])).
  - constructor.
  - repeat split; try (right; reflexivity);
      (eexists; split; [reflexivity|right; reflexivity]).
  - unfold INT_MAX. lia.
  - unfold INT_MAX. lia.
  - lia.
Defined.

Lemma create_clear_copy_gives_zeros_witness :
  exists ctx w1 w2,
    @sample_init_model soft_build (sample_world []) = Returns ctx w1 /\
    (keep_context 1 ctx ;; clear_vis 1 ;; @copy_vis soft_build 1)%run w1 = Returns tt w2 /\
    reported w2 = reported (sample_world []) /\
    (forall b, Ptr 4 <> Ptr b -> host w2 !! b = host (sample_world []) !! b) /\
    (forall i : nat, Z.of_nat i < 1 * 2 ->
       exists block, block_of (Ptr 4) (host w2) = Some block /\
                     vis_elem block i = Some zero_JonesF32).
Proof.
  apply (@create_clear_copy_gives_zeros soft_build 1 2 3 1 1
           (S754_zero false) (S754_zero false) (Ptr 1) (Ptr 2) (Ptr 3) (Ptr 9)
           0 0 0 NULL NULL (Ptr 4) 1%positive (sample_world [])).
  - constructor.
  - repeat split; try (right; reflexivity);
      (eexists; split; [reflexivity|right; reflexivity]).
Defined.
